(** * EvoFlow: the DAG workflow engine, embedded and verified

    A shallow embedding of the scheduling core of EvoFlow:

    - [evoflow/workflow/dag.py]      ([Dag]: nodes, Kahn validation, levels,
                                      editing, [to_dict] and [from_dict]),
    - [evoflow/utils/validators.py]  ([Validators]: [validate_dag],
                                      [validate_agent_config]),
    - [evoflow/agents/base.py]       ([Base]: [AgentResult], [BaseAgent.run]),
    - [evoflow/workflow/executor.py] ([Executor]: [execute_node], templates),
    - [evoflow/workflow/engine.py]   ([Engine]: [_execute_dag],
                                      [_update_execution_status]).

    Python dictionaries are association lists in insertion order, Python
    sets of node ids are duplicate-free lists together with an enumeration
    function (the iteration order of a set is not fixed by the language),
    the execution context is a finite map from strings to values.  Python
    integers are [Z].  Exceptions are the [Raise] constructor of [Outcome].

    The tasks of a level run on the event loop: a task runs from one
    [await] to the next, and the order in which the tasks take their turns
    is a parameter ([schedule]), as are the agents, the clock and the
    outcome of the journal transactions ([World]). *)

From Stdlib Require Import ZArith QArith String Ascii List Lia Bool Permutation.
From Stdlib Require Import DecimalString.
From stdpp Require Import base option list gmap strings.
From Equations Require Import Equations.
Import ListNotations.

Local Open Scope string_scope.
Local Open Scope list_scope.
Local Open Scope Z_scope.

Set Warnings "-register-all,-clear-no-such-hyp".

(* ===================================================================== *)
(** ** Python values *)
(* ===================================================================== *)

Module Py.

(** JSON-shaped Python values: [None], [bool], [int], [str], [list] and
    [dict] with string keys.  Floating point numbers are left out. *)
Inductive pyval : Type :=
| PNone
| PBool (b : bool)
| PInt (n : Z)
| PStr (s : string)
| PList (l : list pyval)
| PDict (d : list (string * pyval)).

(** A [Dict[str, Any]]. *)
Abbreviation pydict := (list (string * pyval)).

Section Dict.
Context {K V : Type} `{EqDecision K}.

(** [d.get(k)] / [d[k]]: the value bound to [k]. *)
Fixpoint dict_get (k : K) (d : list (K * V)) : option V :=
  match d with
  | [] => None
  | (k', v) :: d' => if decide (k = k') then Some v else dict_get k d'
  end.

(** [k in d]. *)
Definition dict_in (k : K) (d : list (K * V)) : bool :=
  match dict_get k d with Some _ => true | None => false end.

(** [d[k] = v]: an existing key keeps its position, a new key goes last. *)
Fixpoint dict_set (k : K) (v : V) (d : list (K * V)) : list (K * V) :=
  match d with
  | [] => [(k, v)]
  | (k', v') :: d' =>
      if decide (k = k') then (k, v) :: d' else (k', v') :: dict_set k v d'
  end.

(** [d[k] = f(d[k])] for a key that is bound ([d[k] += 1], [d[k] -= 1]). *)
Fixpoint dict_adjust (f : V -> V) (k : K) (d : list (K * V)) : list (K * V) :=
  match d with
  | [] => []
  | (k', v') :: d' =>
      if decide (k = k') then (k', f v') :: d' else (k', v') :: dict_adjust f k d'
  end.

(** [list(d.keys())]. *)
Definition dict_keys (d : list (K * V)) : list K := map fst d.

(** [del d[k]] for a key that is bound. *)
Fixpoint dict_del (k : K) (d : list (K * V)) : list (K * V) :=
  match d with
  | [] => []
  | (k', v') :: d' =>
      if decide (k = k') then d' else (k', v') :: dict_del k d'
  end.
End Dict.

(** Truth value of a Python object, as used by [not x], [x or y], [if x]. *)
Definition truthy (v : pyval) : bool :=
  match v with
  | PNone => false
  | PBool b => b
  | PInt n => negb (n =? 0)
  | PStr s => negb (String.eqb s "")
  | PList l => match l with [] => false | _ => true end
  | PDict d => match d with [] => false | _ => true end
  end.

(** Python [==] on these values.  [bool] is a subclass of [int]
    ([True == 1]); lists compare element by element, dictionaries as
    mappings. *)
Fixpoint py_eq (a b : pyval) {struct a} : bool :=
  match a, b with
  | PNone, PNone => true
  | PBool x, PBool y => Bool.eqb x y
  | PBool x, PInt n => n =? (if x then 1 else 0)
  | PInt n, PBool x => n =? (if x then 1 else 0)
  | PInt m, PInt n => m =? n
  | PStr s, PStr t => String.eqb s t
  | PList l, PList m =>
      (fix go (l m : list pyval) {struct l} : bool :=
         match l, m with
         | [], [] => true
         | x :: l', y :: m' => py_eq x y && go l' m'
         | _, _ => false
         end) l m
  | PDict d, PDict e =>
      (length d =? length e)%nat &&
      (fix go (d : list (string * pyval)) {struct d} : bool :=
         match d with
         | [] => true
         | (k, v) :: d' =>
             match dict_get k e with
             | Some v' => py_eq v v'
             | None => false
             end && go d'
         end) d
  | _, _ => false
  end.

(** The equivalence class of a hashable value as a dictionary key or a set
    element: [hash(True) == hash(1)] and [True == 1], so both are the same
    key. Lists and dictionaries are unhashable ([TypeError]). *)
Inductive hkey : Type :=
| KNone
| KNum (n : Z)
| KStr (s : string).

#[global] Instance hkey_eq_dec : EqDecision hkey.
Proof. solve_decision. Defined.

Definition py_hash (v : pyval) : option hkey :=
  match v with
  | PNone => Some KNone
  | PBool b => Some (KNum (if b then 1 else 0))
  | PInt n => Some (KNum n)
  | PStr s => Some (KStr s)
  | PList _ | PDict _ => None
  end.

(** Remembering the equation of a [with] clause in an [Equations]
    definition. *)
Definition inspect {A : Type} (a : A) : {b : A | a = b} := exist _ a eq_refl.

(** What a function call does: return a value or raise an exception, of
    which [msg] is the text. *)
Inductive Outcome (A : Type) : Type :=
| Ret (a : A)
| Raise (msg : string).
Arguments Ret {A} a.
Arguments Raise {A} msg.

End Py.
Import Py.

(* ===================================================================== *)
(** ** Kahn's loop, shared by [WorkflowDAG.validate] and
       [_has_circular_dependency] *)
(* ===================================================================== *)

(** Both functions run the same loop over a [graph] dictionary (node id to
    dependency list) and an [in_degree] dictionary:
<<
    while queue:
        current = queue.pop(0)
        processed += 1
        for node_id, dependencies in graph.items():
            if current in dependencies:
                in_degree[node_id] -= 1
                if in_degree[node_id] == 0:
                    queue.append(node_id)
>>
    In both callers [in_degree] has one entry for every key of [graph], so
    the subscript [in_degree[node_id]] never raises [KeyError]. *)
Module Kahn.
Section Kahn.
Context {K : Type} `{EqDecision K}.

Local Abbreviation decr := (fun d : Z => (d - 1)%Z).

(** One turn of the inner [for] loop. *)
Definition relax_one (current : K) (acc : list (K * Z) * list K)
    (entry : K * list K) : list (K * Z) * list K :=
  if bool_decide (current ∈ entry.2) then
    let in_degree := dict_adjust decr entry.1 acc.1 in
    if bool_decide (dict_get entry.1 in_degree = Some 0)
    then (in_degree, acc.2 ++ [entry.1])
    else (in_degree, acc.2)
  else acc.

(** The inner [for] loop for the node [current] just popped. *)
Definition relax (graph : list (K * list K)) (current : K)
    (acc : list (K * Z) * list K) : list (K * Z) * list K :=
  fold_left (relax_one current) graph acc.

(** Number of entries of [in_degree] that are still positive. *)
Definition positive (in_degree : list (K * Z)) : nat :=
  length (filter (fun e => 0 < e.2) in_degree).

(** The [while] loop ends: a node is appended to the queue only when its
    counter drops from 1 to 0. *)
Definition weight (in_degree : list (K * Z)) (queue : list K) : nat :=
  (length queue + positive in_degree)%nat.

Lemma positive_adjust k d :
  (positive (dict_adjust decr k d) <= positive d)%nat.
Proof.
  unfold positive. induction d as [|[k' v] d IH]; simpl; [lia|].
  destruct (decide (k = k')) as [->|Hne]; simpl.
  - rewrite !filter_cons; simpl. repeat case_decide; simpl; lia.
  - rewrite !filter_cons; simpl. repeat case_decide; simpl; lia.
Qed.

Lemma positive_adjust_zero k d :
  dict_get k (dict_adjust decr k d) = Some 0 ->
  S (positive (dict_adjust decr k d)) = positive d.
Proof.
  unfold positive. induction d as [|[k' v] d IH]; simpl; [done|].
  destruct (decide (k = k')) as [->|Hne]; simpl.
  - rewrite decide_True by done. intros [= Hv].
    rewrite !filter_cons; simpl.
    rewrite decide_False by lia. rewrite decide_True by lia. done.
  - rewrite decide_False by done. intros Hg.
    rewrite !filter_cons; simpl. case_decide; simpl; rewrite <- IH; auto.
Qed.

Lemma weight_relax_one current acc entry :
  weight (relax_one current acc entry).1 (relax_one current acc entry).2
  = weight acc.1 acc.2
  \/ (weight (relax_one current acc entry).1 (relax_one current acc entry).2
      < weight acc.1 acc.2)%nat.
Proof.
  unfold relax_one, weight. destruct acc as [deg q], entry as [n deps]; simpl.
  case_bool_decide; simpl; [|by left].
  case_bool_decide as Hz; simpl.
  - left. rewrite length_app; simpl.
    apply positive_adjust_zero in Hz. lia.
  - pose proof (positive_adjust n deg). lia.
Qed.

Lemma weight_relax graph current acc :
  (weight (relax graph current acc).1 (relax graph current acc).2
   <= weight acc.1 acc.2)%nat.
Proof.
  unfold relax. revert acc.
  induction graph as [|e g IH]; intros acc; simpl; [lia|].
  etrans; [apply IH|].
  destruct (weight_relax_one current acc e); lia.
Qed.

(** The [while] loop; the result is the final value of [processed]. *)
Equations? kahn_loop (graph : list (K * list K)) (in_degree : list (K * Z))
    (queue : list K) (processed : nat) : nat
    by wf (weight in_degree queue) lt :=
kahn_loop graph in_degree [] processed := processed;
kahn_loop graph in_degree (current :: rest) processed :=
  kahn_loop graph
    (relax graph current (in_degree, rest)).1
    (relax graph current (in_degree, rest)).2
    (S processed).
Proof.
  pose proof (weight_relax graph current (in_degree, rest)) as Hw.
  unfold weight in *; simpl in *. lia.
Qed.

(** [queue = [node_id for node_id, degree in in_degree.items() if degree == 0]] *)
Definition initial_queue (in_degree : list (K * Z)) : list K :=
  map fst (filter (fun e => e.2 = 0) in_degree).
End Kahn.
End Kahn.

(* ===================================================================== *)
(** ** evoflow/workflow/dag.py *)
(* ===================================================================== *)

(** [list(s)] for a Python set [s] of node ids.  The language leaves the
    iteration order of a set open, so it is a parameter: any function that
    returns the elements of the set, each once. *)
Record SetOrder : Type := {
  enum : list string -> list string;
  enum_perm : forall l, enum l ≡ₚ l
}.

Module Dag.

Inductive NodeStatus : Type := PENDING | RUNNING | COMPLETED | FAILED | SKIPPED.

#[global] Instance NodeStatus_eq_dec : EqDecision NodeStatus.
Proof. solve_decision. Defined.

Record DAGNode : Type := mkDAGNode {
  id : string;
  name : string;
  agent_type : string;
  agent_config : pydict;
  input_data : pydict;
  dependencies : list string;
  conditions : pydict;
  retry_count : Z;
  max_retries : Z;
  timeout_seconds : Z;
  status : NodeStatus;
  result : option pyval;
  error_message : option string
}.

(** Field assignments [node.status = s], [node.retry_count = n], ... *)
Definition set_status (s : NodeStatus) (n : DAGNode) : DAGNode :=
  mkDAGNode (id n) (name n) (agent_type n) (agent_config n) (input_data n)
    (dependencies n) (conditions n) (retry_count n) (max_retries n)
    (timeout_seconds n) s (result n) (error_message n).

Definition set_retry_count (c : Z) (n : DAGNode) : DAGNode :=
  mkDAGNode (id n) (name n) (agent_type n) (agent_config n) (input_data n)
    (dependencies n) (conditions n) c (max_retries n)
    (timeout_seconds n) (status n) (result n) (error_message n).

Definition set_result (r : option pyval) (n : DAGNode) : DAGNode :=
  mkDAGNode (id n) (name n) (agent_type n) (agent_config n) (input_data n)
    (dependencies n) (conditions n) (retry_count n) (max_retries n)
    (timeout_seconds n) (status n) r (error_message n).

Definition set_error_message (e : option string) (n : DAGNode) : DAGNode :=
  mkDAGNode (id n) (name n) (agent_type n) (agent_config n) (input_data n)
    (dependencies n) (conditions n) (retry_count n) (max_retries n)
    (timeout_seconds n) (status n) (result n) e.

(** [DAGNode.can_execute] *)
Definition can_execute (self : DAGNode) (completed_nodes : gset string) : bool :=
  if negb (bool_decide (status self = PENDING)) then false
  else forallb (fun dep => bool_decide (dep ∈ completed_nodes)) (dependencies self).

(** [DAGNode.should_skip].  [context_key in context] hashes the key, which
    raises [TypeError] for a list or a dictionary, with the text that
    Python gives it; the keys of the context are strings, so a hashable key
    that is not a string is never found. *)
Definition should_skip (self : DAGNode) (context : gmap string pyval)
    : Outcome bool :=
  match conditions self with
  | [] => Ret false
  | _ =>
      let condition_type := default PNone (dict_get "type" (conditions self)) in
      if py_eq condition_type (PStr "skip_if") then
        let condition_value := default PNone (dict_get "value" (conditions self)) in
        let context_key := default PNone (dict_get "context_key" (conditions self)) in
        match context_key with
        | PList _ => Raise "unhashable type: 'list'"
        | PDict _ => Raise "unhashable type: 'dict'"
        | PStr k =>
            match context !! k with
            | Some v => Ret (py_eq v condition_value)
            | None => Ret false
            end
        | _ => Ret false
        end
      else Ret false
  end.

(** [WorkflowDAG]: [nodes] maps an id to its node, [edges] an id to the
    list of ids it depends on. *)
Record WorkflowDAG : Type := mkWorkflowDAG {
  nodes : list (string * DAGNode);
  edges : list (string * list string)
}.

(** [WorkflowDAG.add_node] *)
Definition add_node (self : WorkflowDAG) (node : DAGNode) : WorkflowDAG :=
  mkWorkflowDAG (dict_set (id node) node (nodes self))
                (dict_set (id node) (dependencies node) (edges self)).

(** [WorkflowDAG.__init__] *)
Definition WorkflowDAG_init (ns : list DAGNode) : WorkflowDAG :=
  fold_left add_node ns (mkWorkflowDAG [] []).

(** [WorkflowDAG.get_ready_nodes] *)
Definition get_ready_nodes (self : WorkflowDAG) (completed_nodes : gset string)
    : list DAGNode :=
  map snd (filter (fun e => can_execute e.2 completed_nodes) (nodes self)).

(** [WorkflowDAG.get_root_nodes] *)
Definition get_root_nodes (self : WorkflowDAG) : list DAGNode :=
  map snd (filter (fun e => dependencies e.2 = []) (nodes self)).

(** The in-degree table of [WorkflowDAG.validate]: one is added to the
    counter of [node_id] for every entry of its dependency list that is a
    declared node. *)
Definition count_in_degree (self : WorkflowDAG) : list (string * Z) :=
  fold_left
    (fun in_degree '(node_id, dependencies) =>
       fold_left
         (fun in_degree dep =>
            if dict_in dep in_degree
            then dict_adjust (fun d => d + 1) node_id in_degree
            else in_degree)
         dependencies in_degree)
    (edges self)
    (map (fun e => (e.1, 0)) (nodes self)).

(** [WorkflowDAG.validate] *)
Definition validate (self : WorkflowDAG) : bool :=
  let in_degree := count_in_degree self in
  let queue := Kahn.initial_queue in_degree in
  let processed := Kahn.kahn_loop (edges self) in_degree queue 0 in
  bool_decide (processed = length (nodes self)).

(** [self.nodes[node_id].can_execute(completed_nodes)]; the ids tested are
    keys of [nodes]. *)
Definition node_ready (self : WorkflowDAG) (completed_nodes : gset string)
    (node_id : string) : bool :=
  match dict_get node_id (nodes self) with
  | Some node => can_execute node completed_nodes
  | None => false
  end.

(** The [while remaining_nodes:] loop of [get_execution_order].
    [remaining_nodes] is a set: here the list of its elements.  The loop
    ends because every round removes the non-empty [current_level]. *)
#[local] Obligation Tactic := idtac.
Equations? levels_loop (ord : SetOrder) (self : WorkflowDAG)
    (remaining_nodes : list string) (completed_nodes : gset string)
    : Outcome (list (list string))
    by wf (length remaining_nodes) lt :=
levels_loop ord self [] completed_nodes := Ret [];
levels_loop ord self (r :: rs) completed_nodes
  with inspect (filter (fun node_id => node_ready self completed_nodes node_id)
                       (enum ord (r :: rs))) := {
  | exist _ [] _ :=
      Raise "Unable to find executable nodes - possible circular dependency";
  | exist _ (c :: cs) Hlevel :=
      match levels_loop ord self
              (filter (fun node_id => node_id ∉ c :: cs) (r :: rs))
              (completed_nodes ∪ list_to_set (c :: cs)) with
      | Ret levels => Ret ((c :: cs) :: levels)
      | Raise msg => Raise msg
      end }.
Proof.
  assert (Hc : c ∈ enum ord (r :: rs)).
  { eapply (list_elem_of_filter _ _ c). rewrite Hlevel. left. }
  rewrite (enum_perm ord) in Hc.
  apply (length_filter_lt _ _ c); [done|].
  intros Hn; apply Hn; left.
Qed.

(** [WorkflowDAG.get_execution_order] *)
Definition get_execution_order (ord : SetOrder) (self : WorkflowDAG)
    : Outcome (list (list string)) :=
  if negb (validate self) then Raise "DAG contains cycles"
  else levels_loop ord self (dict_keys (nodes self)) ∅.

(** [node.dependencies.append(dependency_id)] *)
Definition set_dependencies (deps : list string) (n : DAGNode) : DAGNode :=
  mkDAGNode (id n) (name n) (agent_type n) (agent_config n) (input_data n)
    deps (conditions n) (retry_count n) (max_retries n)
    (timeout_seconds n) (status n) (result n) (error_message n).

(** [l.remove(x)]: the first occurrence of [x] goes. *)
Fixpoint list_remove (x : string) (l : list string) : list string :=
  match l with
  | [] => []
  | y :: l' => if decide (x = y) then l' else y :: list_remove x l'
  end.

(** [WorkflowDAG.remove_node].  The lists of [edges] are copies of the
    dependency lists of the nodes ([add_node]), so the node objects keep
    their [dependencies] as they are. *)
Definition remove_node (self : WorkflowDAG) (node_id : string) : WorkflowDAG :=
  let nodes' :=
    if dict_in node_id (nodes self) then dict_del node_id (nodes self)
    else nodes self in
  let edges' :=
    if dict_in node_id (edges self) then dict_del node_id (edges self)
    else edges self in
  mkWorkflowDAG nodes'
    (map (fun e => (e.1, if bool_decide (node_id ∈ e.2)
                         then list_remove node_id e.2 else e.2))
         edges').

(** [WorkflowDAG.add_dependency].  [self.edges[node_id]] raises
    [KeyError] when [edges] has no entry for a node of [nodes]. *)
Definition add_dependency (self : WorkflowDAG) (node_id dependency_id : string)
    : Outcome WorkflowDAG :=
  if dict_in node_id (nodes self) && dict_in dependency_id (nodes self) then
    match dict_get node_id (edges self) with
    | None => Raise "KeyError"
    | Some deps =>
        if negb (bool_decide (dependency_id ∈ deps)) then
          Ret (mkWorkflowDAG
                 (dict_adjust
                    (fun n => set_dependencies (dependencies n ++ [dependency_id]) n)
                    node_id (nodes self))
                 (dict_adjust (fun deps => deps ++ [dependency_id])
                    node_id (edges self)))
        else Ret self
    end
  else Ret self.

(** One entry of the list that [to_dict] builds. *)
Definition node_to_dict (node : DAGNode) : pyval :=
  PDict [("id", PStr (id node));
         ("name", PStr (name node));
         ("agent_type", PStr (agent_type node));
         ("agent_config", PDict (agent_config node));
         ("input_data", PDict (input_data node));
         ("dependencies", PList (map PStr (dependencies node)));
         ("conditions", PDict (conditions node));
         ("max_retries", PInt (max_retries node));
         ("timeout_seconds", PInt (timeout_seconds node))].

(** [WorkflowDAG.to_dict] *)
Definition to_dict (self : WorkflowDAG) : pyval :=
  PDict [("nodes", PList (map (fun e => node_to_dict e.2) (nodes self)))].

(** What [from_dict] does with a definition: it builds a value, it raises
    ([KeyError], [TypeError], [AttributeError]), or it meets a field whose
    value has not the type that the dataclass [DAGNode] declares.  Python
    does not check these types; a node that holds such a value has no
    counterpart in [DAGNode], and what happens to it is not described
    here. *)
Inductive Loaded (A : Type) : Type :=
| Built (a : A)
| Failed (msg : string)
| Untyped.
Arguments Built {A} a.
Arguments Failed {A} msg.
Arguments Untyped {A}.

Definition str_field (v : pyval) : option string :=
  match v with PStr s => Some s | _ => None end.

(** The call [DAGNode(id=node_data["id"], ...)] of [from_dict]: the three
    subscripts raise [KeyError] (or [TypeError] when [node_data] is not a
    dictionary), the other fields have defaults. *)
Definition node_of_dict (node_data : pyval) : Loaded DAGNode :=
  match node_data with
  | PDict d =>
      match dict_get "id" d with
      | None => Failed "KeyError: 'id'"
      | Some node_id =>
      match dict_get "name" d with
      | None => Failed "KeyError: 'name'"
      | Some node_name =>
      match dict_get "agent_type" d with
      | None => Failed "KeyError: 'agent_type'"
      | Some node_agent_type =>
          match node_id, node_name, node_agent_type,
                default (PDict []) (dict_get "agent_config" d),
                default (PDict []) (dict_get "input_data" d),
                default (PList []) (dict_get "dependencies" d),
                default (PDict []) (dict_get "conditions" d),
                default (PInt 3) (dict_get "max_retries" d),
                default (PInt 300) (dict_get "timeout_seconds" d) with
          | PStr i, PStr n, PStr a, PDict config, PDict input, PList deps,
            PDict conds, PInt retries, PInt timeout =>
              match mapM str_field deps with
              | Some deps =>
                  Built (mkDAGNode i n a config input deps conds 0 retries
                           timeout PENDING None None)
              | None => Untyped
              end
          | _, _, _, _, _, _, _, _, _ => Untyped
          end
      end end end
  | _ => Failed "TypeError: not subscriptable by a string"
  end.

(** The loop [for node_data in data.get("nodes", [])] over a list: the
    nodes built, unless a node raises; [typed] tells whether every node
    so far had fields of the declared types. *)
Fixpoint load_nodes (l : list pyval) (typed : bool) (acc : list DAGNode)
    : Loaded (list DAGNode) :=
  match l with
  | [] => if typed then Built acc else Untyped
  | node_data :: l' =>
      match node_of_dict node_data with
      | Failed msg => Failed msg
      | Untyped => load_nodes l' false acc
      | Built node => load_nodes l' typed (acc ++ [node])
      end
  end.

(** [WorkflowDAG.from_dict].  Iterating over a dictionary gives its keys
    and iterating over a string its characters, on which the subscript
    [node_data["id"]] raises [TypeError]. *)
Definition from_dict (data : pyval) : Loaded WorkflowDAG :=
  match data with
  | PDict d =>
      match default (PList []) (dict_get "nodes" d) with
      | PList l =>
          match load_nodes l true [] with
          | Built ns => Built (WorkflowDAG_init ns)
          | Failed msg => Failed msg
          | Untyped => Untyped
          end
      | PDict [] | PStr EmptyString => Built (WorkflowDAG_init [])
      | PDict _ | PStr _ => Failed "TypeError: string indices must be integers"
      | _ => Failed "TypeError: object is not iterable"
      end
  | _ => Failed "AttributeError: object has no attribute 'get'"
  end.

End Dag.

(* ===================================================================== *)
(** ** evoflow/agents/base.py *)
(* ===================================================================== *)

Module Base.

(** [AgentResult] *)
Record AgentResult : Type := mkAgentResult {
  success : bool;
  data : pydict;
  error_message : option string;
  execution_time_ms : option Z;
  cost_estimate : option Q;
  metadata : option pydict
}.

(** [BaseAgent]: the three abstract methods.  Each may raise an
    [Exception].  [execute] performs I/O: its last argument is the number
    of the call, so that an agent may answer differently from one call to
    the next. *)
Record BaseAgent : Type := mkBaseAgent {
  name : string;
  validate_input : pydict -> Outcome bool;
  get_cost_estimate : pydict -> Outcome Q;
  execute : pydict -> gmap string pyval -> nat -> Outcome AgentResult
}.

(** What leaves the [try] block of [BaseAgent.run]: the result, an
    [Exception] with its text, or [asyncio.CancelledError].  The last one
    is raised at [await self.execute(...)] when the task is cancelled while
    the coroutine is suspended there, which is what [asyncio.wait_for] does
    to the call when its time is up.  It is a [BaseException] and no
    [Exception]. *)
Inductive Attempt : Type :=
| Result (result : AgentResult)
| Error (msg : string)
| Cancelled.

(** The [try] block of [BaseAgent.run].  [elapsed_ms] is what the clock
    gives for [int((time.time() - start_time) * 1000)]; [cancelled] tells
    whether the task is cancelled while [execute] is awaited. *)
Definition run_try (self : BaseAgent) (input_data : pydict)
    (context : gmap string pyval) (call : nat) (elapsed_ms : Z)
    (cancelled : bool) : Attempt :=
  match validate_input self input_data with
  | Raise msg => Error msg
  | Ret false => Error ("Invalid input data for agent " +:+ name self)
  | Ret true =>
      match get_cost_estimate self input_data with
      | Raise msg => Error msg
      | Ret cost =>
          if cancelled then Cancelled
          else
            match execute self input_data context call with
            | Raise msg => Error msg
            | Ret result =>
                Result (mkAgentResult (success result) (data result)
                          (error_message result) (Some elapsed_ms) (Some cost)
                          (metadata result))
            end
      end
  end.

(** [BaseAgent.run]: the [try] block and its [except Exception] handler,
    which does not catch [asyncio.CancelledError]: that exception leaves
    [run]. *)
Definition run (self : BaseAgent) (input_data : pydict)
    (context : gmap string pyval) (call : nat) (elapsed_ms : Z)
    (cancelled : bool) : Outcome AgentResult :=
  match run_try self input_data context call elapsed_ms cancelled with
  | Result result => Ret result
  | Error msg =>
      Ret (mkAgentResult false [] (Some msg) (Some elapsed_ms) None None)
  | Cancelled => Raise "CancelledError"
  end.

End Base.

(* ===================================================================== *)
(** ** evoflow/workflow/executor.py *)
(* ===================================================================== *)

(** What the executor does not define itself. *)
Record World : Type := mkWorld {
  (** [TaskExecutor.agent_registry]: for each registered type the agent
      class, as a function from the configuration to the instance; the
      registered instance is the class applied to no configuration. *)
  agent_registry : gmap string (pydict -> Base.BaseAgent);
  (** Python's [repr] of a list or a dictionary. *)
  py_repr : pyval -> string;
  (** Wall-clock milliseconds that the k-th call of [agent.run] takes. *)
  elapsed_ms : nat -> Z;
  (** The iteration order of sets. *)
  set_order : SetOrder;
  (** The database: the transaction that [_execute_node_with_tracking]
      makes before it calls the executor and the one that it makes after
      the call, for the task of the node with the given id.  [None] when
      the transaction commits, the text of the exception when it raises. *)
  journal_begin : string -> option string;
  journal_end : string -> option string;
  (** The event loop.  For the tasks that one [asyncio.gather] waits for,
      given by the ids of their nodes, and the number of steps that these
      tasks have made so far: the task that runs next, as its position
      among the tasks that have not finished (taken modulo their
      number). *)
  schedule : list string -> nat -> nat
}.

Module Executor.
Import Dag.

(** Python's [str] on a value. *)
Definition py_str (w : World) (v : pyval) : string :=
  match v with
  | PNone => "None"
  | PBool true => "True"
  | PBool false => "False"
  | PInt n => NilZero.string_of_int (Z.to_int n)
  | PStr s => s
  | PList _ | PDict _ => py_repr w v
  end.

(** The longest prefix without a closing brace, and what follows it. *)
Fixpoint span_key (s : string) : string * string :=
  match s with
  | EmptyString => (EmptyString, EmptyString)
  | String c t =>
      if Ascii.eqb c "}" then (EmptyString, s)
      else (String c (span_key t).1, (span_key t).2)
  end.

(** A match of the pattern [\$\{([^}]+)\}] at the start of [s]: group 1 and
    the text after the match. *)
Definition match_placeholder (s : string) : option (string * string) :=
  match s with
  | String a (String b t) =>
      if Ascii.eqb a "$" && Ascii.eqb b "{" then
        match span_key t with
        | (String c k, String _ rest) => Some (String c k, rest)
        | _ => None
        end
      else None
  | _ => None
  end.

Lemma span_key_length s :
  (String.length (span_key s).1 + String.length (span_key s).2
   = String.length s)%nat.
Proof.
  induction s as [|c t IH]; simpl; [done|].
  destruct (Ascii.eqb c "}"); simpl; lia.
Qed.

Lemma match_placeholder_shorter s key rest :
  match_placeholder s = Some (key, rest) ->
  (String.length rest < String.length s)%nat.
Proof.
  unfold match_placeholder.
  destruct s as [|a [|b t]]; try done.
  destruct (Ascii.eqb a "$" && Ascii.eqb b "{"); [|done].
  pose proof (span_key_length t).
  destruct (span_key t) as [[|c k] [|d r]]; try done.
  intros [= <- <-]. simpl in *. lia.
Qed.

(** [replace_var]: [str(context.get(var_name, match.group(0)))] *)
Definition replace_var (w : World) (context : gmap string pyval)
    (var_name : string) : string :=
  py_str w (default (PStr ("${" +:+ var_name +:+ "}")) (context !! var_name)).

(** [re.sub(pattern, replace_var, data)]: scan from the left; where the
    pattern matches, emit the replacement and go on after the match;
    elsewhere copy one character. *)
#[local] Obligation Tactic := idtac.
Equations? re_sub (w : World) (context : gmap string pyval) (data : string)
    : string by wf (String.length data) lt :=
re_sub w context EmptyString := EmptyString;
re_sub w context (String c t) with inspect (match_placeholder (String c t)) := {
  | exist _ (Some (var_name, rest)) Hm :=
      replace_var w context var_name +:+ re_sub w context rest;
  | exist _ None _ := String c (re_sub w context t) }.
Proof.
  - by apply match_placeholder_shorter in Hm.
  - simpl. lia.
Qed.

(** [TaskExecutor._resolve_template_variables] *)
Fixpoint _resolve_template_variables (w : World) (data : pyval)
    (context : gmap string pyval) {struct data} : pyval :=
  match data with
  | PStr s => PStr (re_sub w context s)
  | PDict d =>
      PDict (map (fun kv => (kv.1, _resolve_template_variables w kv.2 context)) d)
  | PList l =>
      PList (map (fun item => _resolve_template_variables w item context) l)
  | _ => data
  end.

(** [TaskExecutor.get_agent] *)
Definition get_agent (w : World) (agent_type : string) (config : pydict)
    : option Base.BaseAgent :=
  match agent_registry w !! agent_type with
  | None => None
  | Some agent_class =>
      match config with
      | [] => Some (agent_class [])
      | _ => Some (agent_class config)
      end
  end.

(** The context keys of a node. *)
Definition output_key (node_id : string) : string :=
  "node_" +:+ node_id +:+ "_output".
Definition metadata_key (node_id : string) : string :=
  "node_" +:+ node_id +:+ "_metadata".

(** [TaskExecutor._prepare_input_data] *)
Definition _prepare_input_data (w : World) (node : DAGNode)
    (context : gmap string pyval) : pydict :=
  let input_data :=
    fold_left
      (fun input_data dep_id =>
         match context !! output_key dep_id with
         | Some v => dict_set ("dependency_" +:+ dep_id) v input_data
         | None => input_data
         end)
      (dependencies node) (input_data node) in
  match _resolve_template_variables w (PDict input_data) context with
  | PDict d => d
  | _ => input_data
  end.

(** The state that a run threads through the executor: the shared context
    dictionary, and two records kept for the proofs only: how often
    [agent.run] has been called, and which context keys have been assigned,
    oldest first. *)
Record ExecState : Type := mkExecState {
  context : gmap string pyval;
  calls : nat;
  written : list string
}.

(** [context[key] = value] *)
Definition write (key : string) (value : pyval) (st : ExecState) : ExecState :=
  mkExecState (<[key := value]> (context st)) (calls st) (written st ++ [key]).

(** What leaves the [try] block of [execute_node]. *)
Inductive TryResult : Type :=
| Returned (b : bool)
| TimeoutError
| Exception (msg : string).

Definition option_dict (o : option pydict) : pyval :=
  match o with Some d => PDict d | None => PNone end.

(** What [await asyncio.wait_for(agent.run(...), timeout=...)] gives to
    [execute_node]: the result of [agent.run], or [asyncio.TimeoutError]. *)
Inductive Reply : Type :=
| Replied (result : Base.AgentResult)
| TimedOut.

(** [asyncio.wait_for(agent.run(input_data, context),
    timeout=node.timeout_seconds)] for the call number [call], with the
    context as the agent finds it.  With a timeout that is not positive
    [wait_for] cancels the call before it has started; with a positive one
    it cancels the call when the call takes longer.  In both cases it
    raises [TimeoutError].  A call that [wait_for] does not cancel returns
    the result of [run]; [run] raises only when it is cancelled, so the
    last case of the definition is never met. *)
Definition wait_for (w : World) (node : DAGNode) (context : gmap string pyval)
    (agent : Base.BaseAgent) (input_data : pydict) (call : nat) : Reply :=
  if (timeout_seconds node <=? 0)
     || (timeout_seconds node * 1000 <? elapsed_ms w call)
  then TimedOut
  else
    match Base.run agent input_data context call (elapsed_ms w call) false with
    | Ret result => Replied result
    | Raise _ => TimedOut
    end.

(** The statements of the [try] block that follow the [await]. *)
Definition after_run (node : DAGNode) (st : ExecState)
    (result : Base.AgentResult) : DAGNode * ExecState * TryResult :=
  if Base.success result then
    let node := set_result (Some (PDict (Base.data result)))
                  (set_status COMPLETED node) in
    let st := write (output_key (id node)) (PDict (Base.data result)) st in
    let st := write (metadata_key (id node))
                (option_dict (Base.metadata result)) st in
    (node, st, Returned true)
  else
    (node, st,
     Exception (match Base.error_message result with
                | Some (String c m) => String c m
                | _ => "Agent execution failed"
                end)).

(** The [try] block of [execute_node], when nothing else runs while the
    call of the agent is awaited. *)
Definition execute_try (w : World) (node : DAGNode) (st : ExecState)
    : DAGNode * ExecState * TryResult :=
  match get_agent w (agent_type node) (agent_config node) with
  | None => (node, st, Exception ("Agent not found: " +:+ agent_type node))
  | Some agent =>
      let input_data := _prepare_input_data w node (context st) in
      let call := calls st in
      let st := mkExecState (context st) (S call) (written st) in
      match wait_for w node (context st) agent input_data call with
      | TimedOut => (node, st, TimeoutError)
      | Replied result => after_run node st result
      end
  end.

(** [TaskExecutor.execute_node].  The retry is the recursive call; it is
    made only while [retry_count < max_retries], and it raises
    [retry_count]. *)
Equations? execute_node (w : World) (node : DAGNode) (st : ExecState)
    : DAGNode * ExecState * Outcome bool
    by wf (Z.to_nat (max_retries node - retry_count node)) lt :=
execute_node w node st with should_skip node (context st) := {
  | Raise msg := (node, st, Raise msg);
  | Ret true := (set_status SKIPPED node, st, Ret true);
  | Ret false with inspect (execute_try w (set_status RUNNING node) st) := {
    | exist _ (node', st', Returned b) _ := (node', st', Ret b);
    | exist _ (node', st', TimeoutError) _ :=
        (set_error_message
           (Some ("Node " +:+ id node' +:+ " timed out after "
                  +:+ py_str w (PInt (timeout_seconds node')) +:+ " seconds"))
           (set_status FAILED node'),
         st', Ret false);
    | exist _ (node', st', Exception error_msg) Htry
        with inspect (retry_count node' <? max_retries node') := {
      | exist _ true Hretry :=
          execute_node w
            (set_status PENDING (set_retry_count (retry_count node' + 1) node'))
            st';
      | exist _ false _ :=
          (set_error_message (Some error_msg) (set_status FAILED node'),
           st', Ret false) } } }.
Proof.
  assert (retry_count node' = retry_count node
          /\ max_retries node' = max_retries node) as [Hr Hm].
  { unfold execute_try in Htry.
    destruct (get_agent _ _ _); [|by inversion Htry; subst; split].
    destruct (wait_for _ _ _ _ _ _) as [r|]; [|by inversion Htry].
    unfold after_run in Htry.
    destruct (Base.success r); by inversion Htry; subst; split. }
  simpl. apply Z.ltb_lt in Hretry. lia.
Qed.

(** *** [execute_node] as a coroutine *)

(** [execute_node] is suspended at its [await], and the event loop runs
    other tasks in the meantime, which may assign keys of the shared
    context.  [Progress] tells where a call of [execute_node] stands when
    it has run up to the [await] or to its end: it has returned or raised,
    or it waits for the call number [call] of [agent.run], which it has
    made with [input_data]. *)
Inductive Progress : Type :=
| Finished (o : Outcome bool)
| Awaiting (agent : Base.BaseAgent) (input_data : pydict) (call : nat).

(** [execute_node] from its entry to the [await].  When no agent is found
    the exception is handled without any [await], and the retry enters
    [execute_node] again at once. *)
Equations? execute_begin (w : World) (node : DAGNode) (st : ExecState)
    : DAGNode * ExecState * Progress
    by wf (Z.to_nat (max_retries node - retry_count node)) lt :=
execute_begin w node st with should_skip node (context st) := {
  | Raise msg := (node, st, Finished (Raise msg));
  | Ret true := (set_status SKIPPED node, st, Finished (Ret true));
  | Ret false
      with inspect (get_agent w (agent_type node) (agent_config node)) := {
    | exist _ (Some agent) _ :=
        (set_status RUNNING node,
         mkExecState (context st) (S (calls st)) (written st),
         Awaiting agent
           (_prepare_input_data w (set_status RUNNING node) (context st))
           (calls st));
    | exist _ None _ with inspect (retry_count node <? max_retries node) := {
      | exist _ true Hretry :=
          execute_begin w
            (set_status PENDING
               (set_retry_count (retry_count node + 1)
                  (set_status RUNNING node)))
            st;
      | exist _ false _ :=
          (set_error_message (Some ("Agent not found: " +:+ agent_type node))
             (set_status FAILED (set_status RUNNING node)),
           st, Finished (Ret false)) } } }.
Proof. simpl. apply Z.ltb_lt in Hretry. lia. Qed.

(** [execute_node] from the [await], which gives [reply], to the next
    [await] or to the end. *)
Definition execute_resume (w : World) (node : DAGNode) (st : ExecState)
    (reply : Reply) : DAGNode * ExecState * Progress :=
  match match reply with
        | TimedOut => (node, st, TimeoutError)
        | Replied result => after_run node st result
        end with
  | (node', st', Returned b) => (node', st', Finished (Ret b))
  | (node', st', TimeoutError) =>
      (set_error_message
         (Some ("Node " +:+ id node' +:+ " timed out after "
                +:+ py_str w (PInt (timeout_seconds node')) +:+ " seconds"))
         (set_status FAILED node'),
       st', Finished (Ret false))
  | (node', st', Exception error_msg) =>
      if retry_count node' <? max_retries node' then
        execute_begin w
          (set_status PENDING (set_retry_count (retry_count node' + 1) node'))
          st'
      else
        (set_error_message (Some error_msg) (set_status FAILED node'),
         st', Finished (Ret false))
  end.

(** The retries that are left never grow, and a retry uses one up. *)
Definition retries_left (node : DAGNode) : nat :=
  Z.to_nat (max_retries node - retry_count node).

Lemma execute_begin_retries w node st :
  (retries_left (execute_begin w node st).1.1 <= retries_left node)%nat.
Proof.
  unfold retries_left.
  funelim (execute_begin w node st);
    repeat match goal with
           | H : sigmaI _ _ _ = _ |- _ => clear H
           | H : _ = execute_begin _ _ _ |- _ => rewrite <- H; clear H
           end; simpl in *; lia.
Qed.

Lemma after_run_retries node st result :
  retries_left (after_run node st result).1.1 = retries_left node.
Proof. unfold after_run. by destruct (Base.success result). Qed.

Lemma execute_resume_retries w node st reply :
  (retries_left (execute_resume w node st reply).1.1 <= retries_left node)%nat
  /\ (forall agent input_data call,
        (execute_resume w node st reply).2 = Awaiting agent input_data call ->
        (retries_left (execute_resume w node st reply).1.1
         < retries_left node)%nat).
Proof.
  unfold execute_resume.
  assert (Hr : retries_left
                 (match reply with
                  | TimedOut => (node, st, TimeoutError)
                  | Replied result => after_run node st result
                  end).1.1 = retries_left node).
  { destruct reply; [apply after_run_retries|done]. }
  destruct (match reply with
            | TimedOut => (node, st, TimeoutError)
            | Replied result => after_run node st result
            end) as [[node' st'] [b| |msg]]; simpl in *.
  - split; [lia|done].
  - split; [unfold retries_left in *; simpl; lia|done].
  - destruct (retry_count node' <? max_retries node') eqn:Hlt.
    + apply Z.ltb_lt in Hlt.
      pose proof (execute_begin_retries w
                    (set_status PENDING
                       (set_retry_count (retry_count node' + 1) node')) st')
        as Hb.
      assert (retries_left
                (set_status PENDING
                   (set_retry_count (retry_count node' + 1) node'))
              < retries_left node)%nat.
      { unfold retries_left in *. simpl. lia. }
      split; [lia|]. intros _ _ _ _. lia.
    + split; [unfold retries_left in *; simpl; lia|done].
Qed.

End Executor.

(* ===================================================================== *)
(** ** evoflow/workflow/engine.py *)
(* ===================================================================== *)

Module Engine.
Import Dag Executor.

(** The state of [_execute_dag]: the DAG, whose node objects the executor
    updates in place, the executor's state, the two local sets, and (for the
    proofs only) the ids of the nodes for which a task was created, oldest
    first. *)
Record EngineState : Type := mkEngineState {
  dag : WorkflowDAG;
  exec : ExecState;
  completed_nodes : gset string;
  failed_nodes : gset string;
  launched : list string
}.

(** [WorkflowEngine._execute_node_with_tracking], when nothing else runs
    while it is suspended: the transaction that creates the journal row of
    the task, the call of the executor, and the transaction that closes
    the row.  A transaction that raises ends the function with its
    exception, and so does an exception of [execute_node]. *)
Definition _execute_node_with_tracking (w : World) (node : DAGNode)
    (st : ExecState) : DAGNode * ExecState * Outcome bool :=
  match journal_begin w (id node) with
  | Some msg => (node, st, Raise msg)
  | None =>
      match execute_node w node st with
      | (node', st', Ret success) =>
          match journal_end w (id node') with
          | Some msg => (node', st', Raise msg)
          | None => (node', st', Ret success)
          end
      | (node', st', Raise msg) => (node', st', Raise msg)
      end
  end.

(** [level_nodes]: the nodes of the level whose status is [PENDING] when
    the tasks are created. *)
Definition is_pending (g : WorkflowDAG) (node_id : string) : bool :=
  match dict_get node_id (nodes g) with
  | Some node => bool_decide (status node = PENDING)
  | None => false
  end.

Definition level_nodes (g : WorkflowDAG) (level : list string) : list string :=
  filter (fun node_id => is_pending g node_id) level.

(** A task that [asyncio.create_task] has made of
    [_execute_node_with_tracking] for a node.  The event loop runs one task
    at a time, from one [await] of the task to its next one.  A journal
    transaction reads and assigns nothing that another task reads or
    assigns, so it is put into the same step as the statements next to it;
    the steps are separated by the [await] of [execute_node] alone:

    - [Created]: nothing of the task has run;
    - [Calling]: the task is suspended in [execute_node], which has made
      the call number [call] of [agent.run];
    - [Received]: that call has ended (the agent has read the context) or
      has been cancelled, and the task has not gone on yet;
    - [Done]: the task has ended, with a value or an exception. *)
Inductive Task : Type :=
| Created
| Calling (agent : Base.BaseAgent) (input_data : pydict) (call : nat)
| Received (reply : Reply)
| Done (o : Outcome bool).

(** The node object stored under [node_id] is replaced by its new state;
    the task goes on to the closing transaction when [execute_node] has
    returned. *)
Definition store_node (node_id : string) (node : DAGNode) (g : WorkflowDAG)
    : WorkflowDAG :=
  mkWorkflowDAG (dict_set node_id node (nodes g)) (edges g).

Definition track (w : World) (node_id : string) (g : WorkflowDAG)
    (r : DAGNode * ExecState * Progress) : WorkflowDAG * ExecState * Task :=
  (store_node node_id r.1.1 g, r.1.2,
   match r.2 with
   | Awaiting agent input_data call => Calling agent input_data call
   | Finished (Raise msg) => Done (Raise msg)
   | Finished (Ret success) =>
       match journal_end w (id r.1.1) with
       | Some msg => Done (Raise msg)
       | None => Done (Ret success)
       end
   end).

(** One step of the task of the node stored under [node_id].  The node
    objects of a DAG are never removed during a run. *)
Definition task_step (w : World) (g : WorkflowDAG) (st : ExecState)
    (node_id : string) (t : Task) : WorkflowDAG * ExecState * Task :=
  match dict_get node_id (nodes g) with
  | None => (g, st, Done (Raise "KeyError"))
  | Some node =>
      match t with
      | Created =>
          match journal_begin w (id node) with
          | Some msg => (g, st, Done (Raise msg))
          | None => track w node_id g (execute_begin w node st)
          end
      | Calling agent input_data call =>
          (g, st, Received (wait_for w node (context st) agent input_data call))
      | Received reply => track w node_id g (execute_resume w node st reply)
      | Done o => (g, st, Done o)
      end
  end.

Definition is_done (e : string * Task) : bool :=
  match e.2 with Done _ => true | _ => false end.

(** The positions of the tasks that have not finished. *)
Definition is_unfinished (pool : list (string * Task)) (i : nat) : bool :=
  match pool !! i with
  | Some e => negb (is_done e)
  | None => false
  end.

Definition unfinished (pool : list (string * Task)) : list nat :=
  filter (fun i => is_unfinished pool i) (seq 0 (length pool)).

(** The position of the task that runs next, if a task is left. *)
Definition next_task (choice : nat) (pool : list (string * Task))
    : option nat :=
  match unfinished pool with
  | [] => None
  | i :: rest => Some (nth (choice mod length (i :: rest)) (i :: rest) i)
  end.

(** The event loop comes to an end: every step of a task brings the task
    nearer to its end. *)
Definition task_weight (g : WorkflowDAG) (e : string * Task) : nat :=
  match e.2 with
  | Done _ => 0
  | Created =>
      match dict_get e.1 (nodes g) with
      | Some node => 3 * retries_left node + 3
      | None => 1
      end
  | Calling _ _ _ =>
      match dict_get e.1 (nodes g) with
      | Some node => 3 * retries_left node + 2
      | None => 1
      end
  | Received _ =>
      match dict_get e.1 (nodes g) with
      | Some node => 3 * retries_left node + 1
      | None => 1
      end
  end.

Definition pool_weight (g : WorkflowDAG) (pool : list (string * Task)) : nat :=
  sum_list (map (task_weight g) pool).

Lemma next_task_Some choice pool j :
  next_task choice pool = Some j ->
  exists e, pool !! j = Some e /\ is_done e = false.
Proof.
  unfold next_task. destruct (unfinished pool) as [|i rest] eqn:Hu; [done|].
  intros [= <-].
  assert (Hin : nth (choice mod length (i :: rest)) (i :: rest) i
                ∈ unfinished pool).
  { rewrite Hu. apply list_elem_of_In, nth_In.
    apply Nat.mod_upper_bound. simpl. lia. }
  unfold unfinished in Hin. apply list_elem_of_filter in Hin as [Hp _].
  unfold is_unfinished in Hp.
  destruct (pool !! _) as [e|]; [|done].
  exists e. split; [done|]. by destruct (is_done e).
Qed.

Lemma next_task_None choice pool :
  next_task choice pool = None -> Forall (fun e => is_done e = true) pool.
Proof.
  unfold next_task. destruct (unfinished pool) as [|i rest] eqn:Hu; [|done].
  intros _. apply Forall_lookup. intros i e He.
  destruct (is_done e) eqn:Hd; [done|].
  assert (Hin : i ∈ unfinished pool).
  { unfold unfinished. apply list_elem_of_filter. split.
    - unfold is_unfinished. rewrite He, Hd. done.
    - apply elem_of_seq. apply lookup_lt_Some in He. lia. }
  rewrite Hu in Hin. by apply elem_of_nil in Hin.
Qed.

Lemma task_weight_store g k node node' e :
  dict_get k (nodes g) = Some node ->
  (retries_left node' <= retries_left node)%nat ->
  (task_weight (store_node k node' g) e <= task_weight g e)%nat.
Proof.
  intros Hk Hle. unfold task_weight; simpl.
  destruct (decide (k = e.1)) as [<-|Hne].
  - assert (Hg : dict_get k (dict_set k node' (nodes g)) = Some node').
    { clear. induction (nodes g) as [|[k' v] d IH]; simpl.
      - by rewrite decide_True.
      - destruct (decide (k = k')); simpl; [by rewrite decide_True|].
        by rewrite decide_False. }
    rewrite Hg, Hk. destruct e.2; lia.
  - assert (Hg : dict_get e.1 (dict_set k node' (nodes g))
                 = dict_get e.1 (nodes g)).
    { clear -Hne. induction (nodes g) as [|[k' v] d IH]; simpl.
      - by rewrite decide_False by done.
      - destruct (decide (k = k')) as [<-|]; simpl.
        + by rewrite !decide_False by done.
        + by rewrite IH. }
    rewrite Hg. destruct e.2; lia.
Qed.

Lemma track_weight w g k node r t :
  dict_get k (nodes g) = Some node ->
  (retries_left r.1.1 <= retries_left node)%nat ->
  (forall agent input_data call,
     r.2 = Awaiting agent input_data call ->
     (3 * retries_left r.1.1 + 2 < task_weight g (k, t))%nat) ->
  (0 < task_weight g (k, t))%nat ->
  (forall e, task_weight (track w k g r).1.1 e <= task_weight g e)%nat
  /\ (task_weight (track w k g r).1.1 (k, (track w k g r).2)
      < task_weight g (k, t))%nat.
Proof.
  intros Hk Hle Haw Hpos. split.
  - intros e. by eapply task_weight_store.
  - unfold track; simpl.
    assert (Hg : dict_get k (dict_set k r.1.1 (nodes g)) = Some r.1.1).
    { clear. induction (nodes g) as [|[k' v] d IH]; simpl.
      - by rewrite decide_True.
      - destruct (decide (k = k')); simpl; [by rewrite decide_True|].
        by rewrite decide_False. }
    destruct r.2 as [[b|msg]|agent input_data call] eqn:Hr.
    + unfold task_weight at 1; simpl. by destruct (journal_end w _).
    + done.
    + unfold task_weight at 1; simpl. rewrite Hg. by eapply Haw.
Qed.

Lemma task_step_weight w g st e :
  is_done e = false ->
  (forall e', task_weight (task_step w g st e.1 e.2).1.1 e'
              <= task_weight g e')%nat
  /\ (task_weight (task_step w g st e.1 e.2).1.1
        (e.1, (task_step w g st e.1 e.2).2)
      < task_weight g e)%nat.
Proof.
  destruct e as [k t]. unfold is_done, task_step; simpl. intros Hd.
  destruct (dict_get k (nodes g)) as [node|] eqn:Hk.
  2:{ split; [done|]. unfold task_weight; simpl. rewrite Hk.
      destruct t; (done || lia). }
  destruct t as [|agent input_data call|reply|o]; [| | |done].
  - destruct (journal_begin w (id node)).
    { split; [done|]. unfold task_weight; simpl. rewrite Hk. lia. }
    pose proof (execute_begin_retries w node st) as Hb.
    apply (track_weight w g k node (execute_begin w node st) Created);
      [done|done| |]; unfold task_weight; simpl; rewrite Hk; intros; lia.
  - split; [done|]. unfold task_weight; simpl. rewrite Hk. lia.
  - destruct (execute_resume_retries w node st reply) as [Hle Hlt].
    apply (track_weight w g k node (execute_resume w node st reply)
             (Received reply)); [done|done| |].
    + intros agent input_data call Hr.
      specialize (Hlt agent input_data call Hr).
      unfold task_weight; simpl. rewrite Hk. lia.
    + unfold task_weight; simpl. rewrite Hk. lia.
Qed.

Lemma pool_weight_step g g' pool j e t' :
  pool !! j = Some e ->
  (forall e', task_weight g' e' <= task_weight g e')%nat ->
  (task_weight g' (e.1, t') < task_weight g e)%nat ->
  (pool_weight g' (<[j := (e.1, t')]> pool) < pool_weight g pool)%nat.
Proof.
  intros Hj Hle Hlt. unfold pool_weight.
  revert j Hj. induction pool as [|x pool IH]; intros j Hj; [done|].
  destruct j as [|j]; simpl in *.
  - injection Hj as ->.
    assert (sum_list (map (task_weight g') pool)
            <= sum_list (map (task_weight g) pool))%nat; [|lia].
    clear -Hle. induction pool as [|y pool IH]; simpl; [lia|].
    specialize (Hle y). lia.
  - specialize (IH j Hj). specialize (Hle x). lia.
Qed.

(** [await asyncio.gather] of the tasks with [return_exceptions=True]: the event
    loop runs the tasks, one step of one task at a time in the order that
    the scheduler chooses, until all have ended. *)
#[local] Obligation Tactic := idtac.
Equations? gather_loop (w : World) (tasks : list string) (g : WorkflowDAG)
    (st : ExecState) (pool : list (string * Task)) (steps : nat)
    : WorkflowDAG * ExecState * list (string * Task)
    by wf (pool_weight g pool) lt :=
gather_loop w tasks g st pool steps
  with inspect (next_task (schedule w tasks steps) pool) := {
  | exist _ None _ := (g, st, pool);
  | exist _ (Some j) Hnext with inspect (pool !! j) := {
    | exist _ None _ := (g, st, pool);
    | exist _ (Some e) He :=
        gather_loop w tasks
          (task_step w g st e.1 e.2).1.1
          (task_step w g st e.1 e.2).1.2
          (<[j := (e.1, (task_step w g st e.1 e.2).2)]> pool)
          (S steps) } }.
Proof.
  apply next_task_Some in Hnext as (e' & He' & Hd).
  assert (e' = e) as -> by congruence.
  destruct (task_step_weight w g st e Hd) as [Hle Hlt].
  by apply (pool_weight_step g _ pool j e).
Qed.

(** The tasks of a level start as they are created; the results come back
    in the order of the tasks. *)
Definition gather (w : World) (g : WorkflowDAG) (st : ExecState)
    (tasks : list string) : WorkflowDAG * ExecState * list (string * Outcome bool) :=
  let r := gather_loop w tasks g st
             (map (fun node_id => (node_id, Created)) tasks) 0 in
  (r.1.1, r.1.2,
   omap (fun e => match e.2 with Done o => Some (e.1, o) | _ => None end) r.2).

(** One turn of [for i, result in enumerate(results)]. *)
Definition process_result (acc : WorkflowDAG * gset string * gset string)
    (res : string * Outcome bool) : WorkflowDAG * gset string * gset string :=
  match res.2 with
  | Raise msg =>
      match dict_get res.1 (nodes acc.1.1) with
      | Some node =>
          (store_node res.1
             (set_error_message (Some msg) (set_status FAILED node)) acc.1.1,
           acc.1.2, acc.2 ∪ {[res.1]})
      | None => (acc.1.1, acc.1.2, acc.2 ∪ {[res.1]})
      end
  | Ret true => (acc.1.1, acc.1.2 ∪ {[res.1]}, acc.2)
  | Ret false => (acc.1.1, acc.1.2, acc.2 ∪ {[res.1]})
  end.

(** The body of [for level in execution_levels]. *)
Definition run_level (w : World) (s : EngineState) (level : list string)
    : EngineState :=
  let tasks := level_nodes (dag s) level in
  let r := gather w (dag s) (exec s) tasks in
  let p := fold_left process_result r.2
             (r.1.1, completed_nodes s, failed_nodes s) in
  mkEngineState p.1.1 r.1.2 p.1.2 p.2 (launched s ++ tasks).

(** [conditions.get("optional", False)] of a node, as a truth value. *)
Definition is_optional (node : DAGNode) : bool :=
  truthy (default (PBool false) (dict_get "optional" (conditions node))).

(** [critical_failed] *)
Definition critical_failed (g : WorkflowDAG) (failed_nodes : gset string) : bool :=
  existsb
    (fun node_id =>
       bool_decide (node_id ∈ failed_nodes) &&
       match dict_get node_id (nodes g) with
       | Some node => negb (is_optional node)
       | None => false
       end)
    (elements failed_nodes).

(** [WorkflowEngine._execute_dag]: the final state and the value returned,
    or the exception of [get_execution_order]. *)
Definition _execute_dag (w : World) (g : WorkflowDAG)
    (context : gmap string pyval) : EngineState * Outcome bool :=
  let s0 := mkEngineState g (mkExecState context 0 []) ∅ ∅ [] in
  match get_execution_order (set_order w) g with
  | Raise msg => (s0, Raise msg)
  | Ret execution_levels =>
      let s := fold_left (run_level w) execution_levels s0 in
      (s, Ret (bool_decide (size (failed_nodes s) = 0%nat)
               || negb (critical_failed (dag s) (failed_nodes s))))
  end.

(** The status that [_run_workflow] records for the run. *)
Definition workflow_status (r : Outcome bool) : string :=
  match r with
  | Ret true => "completed"
  | Ret false => "failed"
  | Raise _ => "failed"
  end.

(** [s.startswith(prefix)] and [s.endswith(suffix)] *)
Definition startswith (s prefix : string) : bool := String.prefix prefix s.

Fixpoint endswith (s suffix : string) : bool :=
  String.eqb s suffix
  || match s with
     | EmptyString => false
     | String _ t => endswith t suffix
     end.

(** The row of [WorkflowExecution] as far as [_update_execution_status]
    assigns it; [completed_at] takes the time of the clock. *)
Record WorkflowExecution : Type := mkWorkflowExecution {
  execution_status : string;
  execution_error_message : option string;
  execution_output_data : gmap string pyval
}.

(** The loop that extracts the output data: the entries of the context
    whose key starts with [node_] and ends with [_output]. *)
Definition output_data (context : gmap string pyval) : gmap string pyval :=
  filter (fun kv => startswith kv.1 "node_" && endswith kv.1 "_output") context.

(** [WorkflowEngine._update_execution_status] on the row that
    [db.get] finds, if any. *)
Definition _update_execution_status (execution : option WorkflowExecution)
    (status : string) (context : gmap string pyval)
    (error_message : option string) : option WorkflowExecution :=
  match execution with
  | None => None
  | Some e =>
      Some (mkWorkflowExecution status
              (match error_message with
               | Some (String c m) => Some (String c m)
               | _ => execution_error_message e
               end)
              (output_data context))
  end.

End Engine.

(* ===================================================================== *)
(** ** evoflow/utils/validators.py *)
(* ===================================================================== *)

Module Validators.

(** The error messages of [validate_dag], one constructor for each
    [return False, ...]; the arguments are the values formatted into the
    message. *)
Inductive verror : Type :=
| NotADictionary
| NodesNotAList
| NoNodes
| NodeNotADictionary (i : nat)
| MissingField (i : nat) (field : string)
| DuplicateNodeID (node_id : pyval)
| DependenciesNotAList (node_id : pyval)
| NonExistentDependency (node_id dep : pyval)
| SelfDependency (node_id : pyval)
| CircularDependencies
| ValidationError (msg : string).

(** The message of each error, as the f-string of the source builds it:
    an index is formatted as a number, an id by [str]. *)
Definition error_message (w : World) (e : verror) : string :=
  match e with
  | NotADictionary => "DAG definition must be a dictionary"
  | NodesNotAList => "Nodes must be a list"
  | NoNodes => "DAG must contain at least one node"
  | NodeNotADictionary i =>
      "Node " +:+ Executor.py_str w (PInt (Z.of_nat i))
      +:+ " must be a dictionary"
  | MissingField i field =>
      "Node " +:+ Executor.py_str w (PInt (Z.of_nat i))
      +:+ " missing required field: " +:+ field
  | DuplicateNodeID node_id =>
      "Duplicate node ID: " +:+ Executor.py_str w node_id
  | DependenciesNotAList node_id =>
      "Node " +:+ Executor.py_str w node_id +:+ " dependencies must be a list"
  | NonExistentDependency node_id dep =>
      "Node " +:+ Executor.py_str w node_id
      +:+ " depends on non-existent node: " +:+ Executor.py_str w dep
  | SelfDependency node_id =>
      "Node " +:+ Executor.py_str w node_id +:+ " cannot depend on itself"
  | CircularDependencies => "DAG contains circular dependencies"
  | ValidationError msg => "DAG validation error: " +:+ msg
  end.

(** The pair [(bool, str)] that [validate_dag] returns: [(True, "")] or
    [(False, message)]. *)
Inductive verdict : Type :=
| Valid
| Invalid (e : verror).

Definition returned (w : World) (v : verdict) : bool * string :=
  match v with
  | Valid => (true, "")
  | Invalid e => (false, error_message w e)
  end.

(** [TypeError] of [hash] on a list or a dictionary. *)
Definition unhashable (v : pyval) : string :=
  match v with
  | PDict _ => "unhashable type: 'dict'"
  | _ => "unhashable type: 'list'"
  end.

(** [node.get("dependencies", [])] *)
Definition get_dependencies (node : pydict) : pyval :=
  default (PList []) (dict_get "dependencies" node).

(** The first [for] loop of [validate_dag], from node number [i] on, with
    the set [node_ids] built so far.  Returns the final [node_ids]. *)
Fixpoint check_nodes (i : nat) (nodes : list pyval) (node_ids : list hkey)
    : verror + list hkey :=
  match nodes with
  | [] => inr node_ids
  | PDict node :: nodes' =>
      match find (fun field => negb (dict_in field node))
                 ["id"; "name"; "agent_type"] with
      | Some field => inl (MissingField i field)
      | None =>
          let node_id := default PNone (dict_get "id" node) in
          match py_hash node_id with
          | None => inl (ValidationError (unhashable node_id))
          | Some k =>
              if bool_decide (k ∈ node_ids) then inl (DuplicateNodeID node_id)
              else
                match get_dependencies node with
                | PList _ => check_nodes (S i) nodes' (node_ids ++ [k])
                | _ => inl (DependenciesNotAList node_id)
                end
          end
      end
  | _ :: _ => inl (NodeNotADictionary i)
  end.

(** The inner loop [for dep in dependencies] of the second loop. *)
Fixpoint check_deps (node_id : pyval) (node_ids : list hkey)
    (dependencies : list pyval) : option verror :=
  match dependencies with
  | [] => None
  | dep :: deps' =>
      match py_hash dep with
      | None => Some (ValidationError (unhashable dep))
      | Some k =>
          if negb (bool_decide (k ∈ node_ids))
          then Some (NonExistentDependency node_id dep)
          else if py_eq dep node_id then Some (SelfDependency node_id)
          else check_deps node_id node_ids deps'
      end
  end.

(** The second [for] loop of [validate_dag]. *)
Fixpoint check_references (nodes : list pyval) (node_ids : list hkey)
    : option verror :=
  match nodes with
  | [] => None
  | PDict node :: nodes' =>
      match get_dependencies node with
      | PList dependencies =>
          match check_deps (default PNone (dict_get "id" node)) node_ids
                  dependencies with
          | Some e => Some e
          | None => check_references nodes' node_ids
          end
      | _ => Some (ValidationError "object is not iterable")
      end
  | _ :: _ => Some (ValidationError "object is not subscriptable")
  end.

(** A node as [_has_circular_dependency] reads it: the key of its id and
    the keys of its dependencies.  [validate_dag] calls the function only
    after the two loops above, when every node is a dictionary with a
    hashable id and a list of hashable dependencies. *)
Definition node_view (node : pyval) : option (hkey * list hkey) :=
  match node with
  | PDict d =>
      match dict_get "id" d, get_dependencies d with
      | Some node_id, PList dependencies =>
          match py_hash node_id, mapM py_hash dependencies with
          | Some k, Some deps => Some (k, deps)
          | _, _ => None
          end
      | _, _ => None
      end
  | _ => None
  end.

(** The first loop of [_has_circular_dependency]:
    [graph[node_id] = dependencies] and
    [in_degree[node_id] = len(dependencies)]. *)
Definition build_graph (views : list (hkey * list hkey))
    : list (hkey * list hkey) * list (hkey * Z) :=
  fold_left
    (fun acc v =>
       (dict_set v.1 v.2 acc.1, dict_set v.1 (Z.of_nat (length v.2)) acc.2))
    views ([], []).

(** [_has_circular_dependency] on the nodes as read by [node_view]. *)
Definition has_cycle (views : list (hkey * list hkey)) : bool :=
  let (graph, in_degree) := build_graph views in
  let queue := Kahn.initial_queue in_degree in
  let processed := Kahn.kahn_loop graph in_degree queue 0 in
  negb (bool_decide (processed = length views)).

Definition _has_circular_dependency (nodes : list pyval) : Outcome bool :=
  match mapM node_view nodes with
  | Some views => Ret (has_cycle views)
  | None => Raise "TypeError"
  end.

(** [validate_dag] *)
Definition validate_dag (dag_definition : pyval) : verdict :=
  match dag_definition with
  | PDict d =>
      match default (PList []) (dict_get "nodes" d) with
      | PList nodes =>
          match nodes with
          | [] => Invalid NoNodes
          | _ =>
              match check_nodes 0 nodes [] with
              | inl e => Invalid e
              | inr node_ids =>
                  match check_references nodes node_ids with
                  | Some e => Invalid e
                  | None =>
                      match _has_circular_dependency nodes with
                      | Raise msg => Invalid (ValidationError msg)
                      | Ret true => Invalid CircularDependencies
                      | Ret false => Valid
                      end
                  end
              end
          end
      | _ => Invalid NodesNotAList
      end
  | _ => Invalid NotADictionary
  end.

(** A Python [float]: not a number, an infinity, or a finite number,
    which is a rational. *)
Inductive pyfloat : Type :=
| FNaN
| FInf (negative : bool)
| FFinite (q : Q).

(** The values of an agent configuration: JSON with floating point
    numbers. *)
Inductive jval : Type :=
| JNull
| JBool (b : bool)
| JInt (n : Z)
| JFloat (f : pyfloat)
| JStr (s : string)
| JList (l : list jval)
| JDict (d : list (string * jval)).

(** Truth value of a configuration value. *)
Definition j_truthy (v : jval) : bool :=
  match v with
  | JNull => false
  | JBool b => b
  | JInt n => negb (n =? 0)
  | JFloat FNaN => true
  | JFloat (FInf _) => true
  | JFloat (FFinite q) => negb (Qeq_bool q 0)
  | JStr s => negb (String.eqb s "")
  | JList l => match l with [] => false | _ => true end
  | JDict d => match d with [] => false | _ => true end
  end.

(** [isinstance(v, int)]: [bool] is a subclass of [int]. *)
Definition is_int (v : jval) : bool :=
  match v with JBool _ | JInt _ => true | _ => false end.

(** [isinstance(v, (int, float))] *)
Definition is_number (v : jval) : bool :=
  match v with JBool _ | JInt _ | JFloat _ => true | _ => false end.

(** [isinstance(v, str)] *)
Definition is_str (v : jval) : bool :=
  match v with JStr _ => true | _ => false end.

(** The comparisons [v <= 0], [v < 0] and [v > 2] on a number; every
    comparison with a NaN is false. *)
Definition le_zero (v : jval) : bool :=
  match v with
  | JBool b => negb b
  | JInt n => n <=? 0
  | JFloat FNaN => false
  | JFloat (FInf negative) => negative
  | JFloat (FFinite q) => Qle_bool q 0
  | _ => false
  end.

Definition lt_zero (v : jval) : bool :=
  match v with
  | JBool _ => false
  | JInt n => n <? 0
  | JFloat FNaN => false
  | JFloat (FInf negative) => negative
  | JFloat (FFinite q) => negb (Qle_bool 0 q)
  | _ => false
  end.

Definition gt_two (v : jval) : bool :=
  match v with
  | JBool _ => false
  | JInt n => 2 <? n
  | JFloat FNaN => false
  | JFloat (FInf negative) => negb negative
  | JFloat (FFinite q) => negb (Qle_bool q 2)
  | _ => false
  end.

(** The float [0.7]: the double nearest to seven tenths. *)
Definition float_0_7 : pyfloat :=
  FFinite (3152519739159347 # 4503599627370496).

(** What [validate_agent_config] returns: [(True, "")] or
    [(False, message)]. *)
Inductive config_verdict : Type :=
| ConfigValid
| ConfigInvalid (msg : string).

(** [validate_agent_config].  Nothing in the [try] block can raise on
    these values, so the [except] handler is never entered. *)
Definition validate_agent_config (agent_type : string) (config : jval)
    : config_verdict :=
  match config with
  | JDict config =>
      if String.eqb agent_type "web_search" then
        let max_results := default (JInt 10) (dict_get "max_results" config) in
        if negb (is_int max_results) || le_zero max_results
        then ConfigInvalid "max_results must be a positive integer"
        else
          let timeout := default (JInt 30) (dict_get "timeout" config) in
          if negb (is_number timeout) || le_zero timeout
          then ConfigInvalid "timeout must be a positive number"
          else ConfigValid
      else if String.eqb agent_type "text_writing" then
        let max_tokens := default (JInt 2000) (dict_get "max_tokens" config) in
        if negb (is_int max_tokens) || le_zero max_tokens
        then ConfigInvalid "max_tokens must be a positive integer"
        else
          let temperature :=
            default (JFloat float_0_7) (dict_get "temperature" config) in
          if negb (is_number temperature) || lt_zero temperature
             || gt_two temperature
          then ConfigInvalid "temperature must be between 0 and 2"
          else ConfigValid
      else if String.eqb agent_type "email_sender" then
        let smtp_server := default JNull (dict_get "smtp_server" config) in
        if j_truthy smtp_server && negb (is_str smtp_server)
        then ConfigInvalid "smtp_server must be a string"
        else
          let smtp_port := default (JInt 587) (dict_get "smtp_port" config) in
          if negb (is_int smtp_port) || le_zero smtp_port
          then ConfigInvalid "smtp_port must be a positive integer"
          else ConfigValid
      else ConfigValid
  | _ => ConfigInvalid "Agent config must be a dictionary"
  end.

End Validators.

(* ===================================================================== *)
(** ** Concrete agents, worlds and nodes *)
(* ===================================================================== *)

Module Examples.
Import Dag Executor Engine.

(** Sets are enumerated in the order in which they are given. *)
Definition given_order : SetOrder :=
  {| enum := fun l => l; enum_perm := fun l => reflexivity l |}.

(** An agent that accepts every input and echoes a fixed payload. *)
Definition echo_agent : Base.BaseAgent :=
  Base.mkBaseAgent "EchoAgent"
    (fun _ => Ret true)
    (fun _ => Ret 0%Q)
    (fun input _ _ =>
       Ret (Base.mkAgentResult true [("echo", PDict input)] None None None None)).

(** An agent whose [execute] always raises. *)
Definition broken_agent : Base.BaseAgent :=
  Base.mkBaseAgent "BrokenAgent"
    (fun _ => Ret true)
    (fun _ => Ret 0%Q)
    (fun _ _ _ => Raise "connection refused").

Definition demo_registry : gmap string (pydict -> Base.BaseAgent) :=
  <["echo" := fun _ => echo_agent]> (<["broken" := fun _ => broken_agent]> ∅).

(** A stand-in for [repr] on containers. *)
Definition demo_repr (v : pyval) : string := "<container>".

(** The event loop gives the tasks that have not finished their turns one
    after the other, so that every task of a level has started before any
    of them goes on. *)
Definition in_turn : list string -> nat -> nat := fun _ steps => steps.

(** The event loop always runs the first task that has not finished: a
    task runs to its end before the next one starts. *)
Definition one_by_one : list string -> nat -> nat := fun _ _ => 0%nat.

(** Every call of an agent takes 10 ms; no journal transaction raises;
    the tasks run in turn. *)
Definition fast_world : World :=
  mkWorld demo_registry demo_repr (fun _ => 10) given_order
    (fun _ => None) (fun _ => None) in_turn.

(** Every call of an agent takes 5 s. *)
Definition slow_world : World :=
  mkWorld demo_registry demo_repr (fun _ => 5000) given_order
    (fun _ => None) (fun _ => None) in_turn.

(** A fresh node, as [WorkflowDAG.from_dict] builds it. *)
Definition fresh_node (node_id agent_type : string) (dependencies : list string)
    (conditions : pydict) (max_retries timeout_seconds : Z) : DAGNode :=
  mkDAGNode node_id node_id agent_type [] [] dependencies conditions
    0 max_retries timeout_seconds PENDING None None.

Definition empty_state : ExecState := mkExecState ∅ 0 [].

End Examples.

(* ===================================================================== *)
(** * Properties *)
(* ===================================================================== *)

(** ** [BaseAgent.run] *)

Section RunProperties.
Import Base.
Variables (self : BaseAgent) (input_data : pydict)
          (context : gmap string pyval) (call : nat) (elapsed : Z).

(** The result that the [except] handler builds. *)
Definition failure_result (msg : string) : AgentResult :=
  mkAgentResult false [] (Some msg) (Some elapsed) None None.

Lemma run_invalid_input cancelled :
  validate_input self input_data = Ret false ->
  run self input_data context call elapsed cancelled
  = Ret (failure_result ("Invalid input data for agent " +:+ name self)).
Proof. intros Hv. unfold run, run_try. by rewrite Hv. Qed.

Lemma run_validate_raises cancelled msg :
  validate_input self input_data = Raise msg ->
  run self input_data context call elapsed cancelled = Ret (failure_result msg).
Proof. intros Hv. unfold run, run_try. by rewrite Hv. Qed.

Lemma run_cost_raises cancelled msg :
  validate_input self input_data = Ret true ->
  get_cost_estimate self input_data = Raise msg ->
  run self input_data context call elapsed cancelled = Ret (failure_result msg).
Proof. intros Hv Hc. unfold run, run_try. rewrite Hv, Hc. done. Qed.

Lemma run_execute_raises cost msg :
  validate_input self input_data = Ret true ->
  get_cost_estimate self input_data = Ret cost ->
  execute self input_data context call = Raise msg ->
  run self input_data context call elapsed false = Ret (failure_result msg).
Proof. intros Hv Hc He. unfold run, run_try. rewrite Hv, Hc, He. done. Qed.

Lemma run_execute_returns cost result :
  validate_input self input_data = Ret true ->
  get_cost_estimate self input_data = Ret cost ->
  execute self input_data context call = Ret result ->
  run self input_data context call elapsed false
  = Ret (mkAgentResult (success result) (data result) (error_message result)
           (Some elapsed) (Some cost) (metadata result)).
Proof. intros Hv Hc He. unfold run, run_try. rewrite Hv, Hc, He. done. Qed.

Lemma run_cancelled cost :
  validate_input self input_data = Ret true ->
  get_cost_estimate self input_data = Ret cost ->
  run self input_data context call elapsed true = Raise "CancelledError".
Proof. intros Hv Hc. unfold run, run_try. rewrite Hv, Hc. done. Qed.

(** A call that is not cancelled returns. *)
Lemma run_returns :
  exists r, run self input_data context call elapsed false = Ret r.
Proof.
  unfold run, run_try.
  destruct (validate_input self input_data) as [[]|]; [|by eexists..].
  destruct (get_cost_estimate self input_data); [|by eexists].
  destruct (execute self input_data context call); by eexists.
Qed.

(** C10, as amended.  The methods of an agent raise exceptions of the
    class [Exception], and a cancellation reaches [run] at its one [await].
    [BaseAgent.run] returns an [AgentResult] unless it is cancelled: when
    [validate_input] returns [False], or when [validate_input],
    [get_cost_estimate] or [execute] raises, the result has
    [success = False], the text of the exception and the measured time;
    otherwise it is the result of [execute] with [execution_time_ms] and
    [cost_estimate] filled in.  [asyncio.CancelledError] is not caught:
    when the task is cancelled while [execute] is awaited, the exception
    leaves [run]. *)
Theorem run_returns_unless_cancelled (cancelled : bool) :
  match validate_input self input_data with
  | Ret false =>
      run self input_data context call elapsed cancelled
      = Ret (failure_result ("Invalid input data for agent " +:+ name self))
  | Raise msg =>
      run self input_data context call elapsed cancelled
      = Ret (failure_result msg)
  | Ret true =>
      match get_cost_estimate self input_data with
      | Raise msg =>
          run self input_data context call elapsed cancelled
          = Ret (failure_result msg)
      | Ret cost =>
          if cancelled then
            run self input_data context call elapsed cancelled
            = Raise "CancelledError"
          else
            match execute self input_data context call with
            | Raise msg =>
                run self input_data context call elapsed cancelled
                = Ret (failure_result msg)
            | Ret result =>
                run self input_data context call elapsed cancelled
                = Ret (mkAgentResult (success result) (data result)
                         (error_message result) (Some elapsed) (Some cost)
                         (metadata result))
            end
      end
  end
  /\ ((exists r,
         run self input_data context call elapsed cancelled = Ret r
         /\ execution_time_ms r = Some elapsed
         /\ (success r = false
             \/ exists result,
                  execute self input_data context call = Ret result
                  /\ success result = true))
      \/ (cancelled = true
          /\ validate_input self input_data = Ret true
          /\ (exists cost, get_cost_estimate self input_data = Ret cost)
          /\ run self input_data context call elapsed cancelled
             = Raise "CancelledError")).
Proof.
  destruct (validate_input self input_data) as [[]|msg] eqn:Hv.
  - destruct (get_cost_estimate self input_data) as [cost|msg] eqn:Hc.
    + destruct cancelled.
      * split; [by eapply run_cancelled|]. right.
        split; [done|]. split; [done|]. split; [by eexists|].
        by eapply run_cancelled.
      * destruct (execute self input_data context call) as [res|msg] eqn:He.
        -- split; [by eapply run_execute_returns|]. left.
           eexists. split; [by eapply run_execute_returns|].
           split; [done|]. simpl.
           destruct (success res) eqn:Hs; [right; by exists res|by left].
        -- split; [by eapply run_execute_raises|]. left.
           eexists. split; [by eapply run_execute_raises|].
           split; [done|by left].
    + split; [by apply run_cost_raises|]. left.
      eexists. split; [by apply run_cost_raises|]. split; [done|by left].
  - split; [by apply run_invalid_input|]. left.
    eexists. split; [by apply run_invalid_input|]. split; [done|by left].
  - split; [by apply run_validate_raises|]. left.
    eexists. split; [by apply run_validate_raises|]. split; [done|by left].
Qed.
End RunProperties.

Section RunExamples.
Import Base Examples.

(** C10 as the specification states it: [run] returns an [AgentResult]
    for every agent, whatever happens during the call. *)
Definition run_always_returns : Prop :=
  forall (self : BaseAgent) (input_data : pydict)
         (context : gmap string pyval) (call : nat) (elapsed : Z)
         (cancelled : bool),
    exists r, run self input_data context call elapsed cancelled = Ret r.

(** Counterexample to C10: the call of the echo agent is cancelled while
    [execute] is awaited, as [asyncio.wait_for] does when the time is up;
    [run] raises [asyncio.CancelledError]. *)
Lemma run_always_returns_fails : ~ run_always_returns.
Proof.
  intros H. destruct (H echo_agent [] ∅ 0%nat 10 true) as [r Hr].
  vm_compute in Hr. discriminate.
Qed.
End RunExamples.

(** ** [TaskExecutor.execute_node] *)

Section ExecutorProperties.
Import Dag Executor.
Variable w : World.

(** The body of [execute_node], with the retry as a call of itself. *)
Lemma execute_node_body node st :
  execute_node w node st =
  match should_skip node (context st) with
  | Raise msg => (node, st, Raise msg)
  | Ret true => (set_status SKIPPED node, st, Ret true)
  | Ret false =>
      match execute_try w (set_status RUNNING node) st with
      | (node', st', Returned b) => (node', st', Ret b)
      | (node', st', TimeoutError) =>
          (set_error_message
             (Some ("Node " +:+ id node' +:+ " timed out after "
                    +:+ py_str w (PInt (timeout_seconds node')) +:+ " seconds"))
             (set_status FAILED node'),
           st', Ret false)
      | (node', st', Exception error_msg) =>
          if retry_count node' <? max_retries node' then
            execute_node w
              (set_status PENDING (set_retry_count (retry_count node' + 1) node'))
              st'
          else
            (set_error_message (Some error_msg) (set_status FAILED node'),
             st', Ret false)
      end
  end.
Proof.
  funelim (execute_node w node st);
    repeat match goal with
           | H : sigmaI _ _ _ = _ |- _ => clear H
           | H : should_skip _ _ = _ |- _ => rewrite H; clear H
           | H : execute_try _ _ _ = _ |- _ => rewrite H; clear H
           | H : (_ <? _) = _ |- _ => rewrite H; clear H
           end; done.
Qed.

(** What the [try] block does to the node and to the state. *)
Inductive try_spec (node : DAGNode) (st : ExecState)
  : DAGNode -> ExecState -> TryResult -> Prop :=
| try_not_found :
    get_agent w (agent_type node) (agent_config node) = None ->
    try_spec node st node st
      (Exception ("Agent not found: " +:+ agent_type node))
| try_timeout agent :
    get_agent w (agent_type node) (agent_config node) = Some agent ->
    timeout_seconds node <= 0
    \/ timeout_seconds node * 1000 < elapsed_ms w (calls st) ->
    try_spec node st node
      (mkExecState (context st) (S (calls st)) (written st)) TimeoutError
| try_failure agent msg :
    get_agent w (agent_type node) (agent_config node) = Some agent ->
    0 < timeout_seconds node ->
    elapsed_ms w (calls st) <= timeout_seconds node * 1000 ->
    try_spec node st node
      (mkExecState (context st) (S (calls st)) (written st)) (Exception msg)
| try_success agent result :
    get_agent w (agent_type node) (agent_config node) = Some agent ->
    0 < timeout_seconds node ->
    elapsed_ms w (calls st) <= timeout_seconds node * 1000 ->
    Base.run agent (_prepare_input_data w node (context st)) (context st)
      (calls st) (elapsed_ms w (calls st)) false = Ret result ->
    Base.success result = true ->
    try_spec node st
      (set_result (Some (PDict (Base.data result))) (set_status COMPLETED node))
      (mkExecState
         (<[metadata_key (id node) := option_dict (Base.metadata result)]>
            (<[output_key (id node) := PDict (Base.data result)]> (context st)))
         (S (calls st))
         (written st ++ [output_key (id node); metadata_key (id node)]))
      (Returned true).

(** What [asyncio.wait_for] gives for a call. *)
Lemma wait_for_cases node ctx agent input_data call :
  (wait_for w node ctx agent input_data call = TimedOut
   /\ (timeout_seconds node <= 0
       \/ timeout_seconds node * 1000 < elapsed_ms w call))
  \/ (exists result,
        wait_for w node ctx agent input_data call = Replied result
        /\ 0 < timeout_seconds node
        /\ elapsed_ms w call <= timeout_seconds node * 1000
        /\ Base.run agent input_data ctx call (elapsed_ms w call) false
           = Ret result).
Proof.
  unfold wait_for.
  destruct ((timeout_seconds node <=? 0)
            || (timeout_seconds node * 1000 <? elapsed_ms w call)) eqn:Hto.
  - left. split; [done|].
    apply orb_true_iff in Hto as [Hto|Hto]; [left|right]; lia.
  - right. apply orb_false_iff in Hto as [H1 H2].
    destruct (run_returns agent input_data ctx call (elapsed_ms w call))
      as [r Hr].
    rewrite Hr. exists r. repeat split; lia.
Qed.

Lemma execute_try_spec node st :
  try_spec node st (execute_try w node st).1.1 (execute_try w node st).1.2
    (execute_try w node st).2.
Proof.
  unfold execute_try.
  destruct (get_agent _ _ _) as [agent|] eqn:Hag; [|by constructor].
  simpl.
  destruct (wait_for_cases node (context st) agent
              (_prepare_input_data w node (context st)) (calls st))
    as [[-> Hto]|(r & -> & Hpos & Hto & Hrun)]; simpl.
  { by econstructor. }
  unfold after_run.
  destruct (Base.success r) eqn:Hs; simpl.
  - unfold write; simpl. rewrite <- app_assoc. simpl.
    by eapply try_success.
  - by eapply try_failure.
Qed.

(** What one call of [execute_node] (retries included) does. *)
Record node_frame (node node' : DAGNode) : Prop := {
  frame_id : id node' = id node;
  frame_agent_type : agent_type node' = agent_type node;
  frame_agent_config : agent_config node' = agent_config node;
  frame_dependencies : dependencies node' = dependencies node;
  frame_conditions : conditions node' = conditions node;
  frame_max_retries : max_retries node' = max_retries node;
  frame_timeout : timeout_seconds node' = timeout_seconds node
}.

Lemma node_frame_refl node : node_frame node node.
Proof. by split. Qed.

Lemma node_frame_trans a b c : node_frame a b -> node_frame b c -> node_frame a c.
Proof. intros [] []. split; congruence. Qed.

Definition outcome_spec (node : DAGNode) (st : ExecState)
    (node' : DAGNode) (st' : ExecState) (r : Outcome bool) : Prop :=
  match r with
  | Ret true =>
      (status node' = SKIPPED /\ context st' = context st
       /\ written st' = written st)
      \/ (status node' = COMPLETED
          /\ exists d m,
               context st' = <[metadata_key (id node) := m]>
                               (<[output_key (id node) := d]> (context st))
               /\ written st'
                  = written st ++ [output_key (id node); metadata_key (id node)]
               /\ result node' = Some d)
  | Ret false =>
      status node' = FAILED /\ context st' = context st
      /\ written st' = written st
  | Raise _ =>
      (status node' = status node \/ status node' = PENDING)
      /\ context st' = context st /\ written st' = written st
  end.

Ltac try_inversion Hs :=
  match goal with
  | e : execute_try _ ?n ?st = _ |- _ =>
      pose proof (execute_try_spec n st) as Hs; rewrite e in Hs; simpl in Hs
  end.

Lemma execute_node_spec node st :
  node_frame node (execute_node w node st).1.1
  /\ retry_count node <= retry_count (execute_node w node st).1.1
  /\ retry_count (execute_node w node st).1.1
     <= Z.max (retry_count node) (max_retries node)
  /\ (calls st <= calls (execute_node w node st).1.2)%nat
  /\ Z.of_nat (calls (execute_node w node st).1.2)
     <= Z.of_nat (calls st) + 1
        + (retry_count (execute_node w node st).1.1 - retry_count node)
  /\ outcome_spec node st (execute_node w node st).1.1
       (execute_node w node st).1.2 (execute_node w node st).2.
Proof.
  funelim (execute_node w node st);
    repeat match goal with
           | H : sigmaI _ _ _ = _ |- _ => clear H
           | H : _ = execute_node _ _ _ |- _ => rewrite <- H; clear H
           end; simpl.
  - (* skipped *)
    split; [by split|]. repeat split; try lia. by left.
  - (* should_skip raises *)
    split; [by split|]. repeat split; try lia. by left.
  - (* the try block returns *)
    try_inversion Hs. inversion Hs; subst; simpl.
    split; [by split|]. repeat split; try lia.
    right. split; [done|]. eauto.
  - (* timeout *)
    try_inversion Hs. inversion Hs; subst; simpl.
    split; [by split|]. repeat split; try lia.
  - (* exception, retry *)
    try_inversion Hs.
    match goal with
    | H : node_frame _ _ /\ _ |- _ =>
        destruct H as (Hf & Hlo & Hhi & Hc1 & Hc2 & Hout)
    end.
    match goal with e0 : (_ <? _) = true |- _ => apply Z.ltb_lt in e0 end.
    set (r := execute_node w _ st') in *.
    assert (Hst : context st' = context st /\ written st' = written st
                  /\ (calls st' <= S (calls st))%nat /\ (calls st <= calls st')%nat
                  /\ node' = set_status RUNNING node).
    { inversion Hs; subst; simpl; repeat split; lia. }
    destruct Hst as (Hctx & Hwr & Hcl & Hcl' & ->). simpl in *.
    split; [destruct Hf; by split|].
    repeat split; try lia.
    unfold outcome_spec in *. rewrite Hctx, Hwr in Hout.
    destruct (r.2) as [[]|]; try done.
    destruct Hout as ([?|?] & ? & ?); repeat split; auto.
  - (* exception, retries exhausted *)
    try_inversion Hs.
    match goal with e0 : (_ <? _) = false |- _ => apply Z.ltb_ge in e0 end.
    inversion Hs; subst; simpl in *; (split; [by split|]); repeat split; lia.
Qed.

(** What [execute_node] does to the node and to the state between two
    points at which it is suspended. *)
Definition progress_spec (node : DAGNode) (st : ExecState)
    (node' : DAGNode) (st' : ExecState) (p : Progress) : Prop :=
  match p with
  | Finished (Ret true) =>
      (status node' = SKIPPED /\ context st' = context st
       /\ written st' = written st)
      \/ (status node' = COMPLETED
          /\ exists d m,
               context st' = <[metadata_key (id node) := m]>
                               (<[output_key (id node) := d]> (context st))
               /\ written st'
                  = written st ++ [output_key (id node); metadata_key (id node)]
               /\ result node' = Some d)
  | Finished (Ret false) =>
      status node' = FAILED /\ context st' = context st
      /\ written st' = written st
  | Finished (Raise _) =>
      (status node' = status node \/ status node' = PENDING)
      /\ context st' = context st /\ written st' = written st
  | Awaiting _ _ _ =>
      status node' = RUNNING /\ context st' = context st
      /\ written st' = written st
  end.

Lemma execute_begin_spec node st :
  node_frame node (execute_begin w node st).1.1
  /\ progress_spec node st (execute_begin w node st).1.1
       (execute_begin w node st).1.2 (execute_begin w node st).2.
Proof.
  funelim (execute_begin w node st);
    repeat match goal with
           | H : sigmaI _ _ _ = _ |- _ => clear H
           | H : _ = execute_begin _ _ _ |- _ => rewrite <- H; clear H
           end; simpl.
  - split; [by split|]. by left.
  - split; [by split|]. auto.
  - split; [by split|]. auto.
  - match goal with
    | H : node_frame _ _ /\ _ |- _ => destruct H as (Hf & Hp)
    end.
    set (r := execute_begin w _ st) in *. simpl in *.
    split; [destruct Hf; by split|].
    unfold progress_spec in *. destruct (r.2) as [[[]|]|]; simpl in *; try done.
    destruct Hp as ([?|?] & ? & ?); auto.
  - split; [by split|]. auto.
Qed.

Lemma execute_resume_spec node st reply :
  node_frame node (execute_resume w node st reply).1.1
  /\ progress_spec node st (execute_resume w node st reply).1.1
       (execute_resume w node st reply).1.2 (execute_resume w node st reply).2
  /\ (forall msg, (execute_resume w node st reply).2 = Finished (Raise msg) ->
                  status (execute_resume w node st reply).1.1 = PENDING).
Proof.
  unfold execute_resume. destruct reply as [result|]; simpl.
  2:{ split; [by split|]. split; [auto|done]. }
  unfold after_run. destruct (Base.success result); simpl.
  - split; [by split|]. split; [|done]. right. split; [done|].
    eexists _, _. unfold write; simpl. rewrite <- app_assoc. by simpl.
  - destruct (retry_count node <? max_retries node).
    + destruct (execute_begin_spec
                  (set_status PENDING
                     (set_retry_count (retry_count node + 1) node)) st)
        as (Hf & Hp).
      set (r := execute_begin w _ st) in *. simpl in *.
      split; [destruct Hf; by split|].
      unfold progress_spec in *.
      destruct (r.2) as [[[]|]|]; simpl in *; (split; [|try done]); try done.
      * destruct Hp as ([?|?] & ? & ?); auto.
      * intros _ _. by destruct Hp as ([?|?] & _).
    + split; [by split|]. simpl. split; [auto|done].
Qed.

(** The two keys of a node are assigned in the step of [execute_node] that
    sets the node [COMPLETED], and in no other step. *)
Lemma execute_begin_writes node st :
  written (execute_begin w node st).1.2 = written st
  /\ context (execute_begin w node st).1.2 = context st
  /\ (status (execute_begin w node st).1.1 = COMPLETED ->
      status node = COMPLETED).
Proof.
  funelim (execute_begin w node st);
    repeat match goal with
           | H : sigmaI _ _ _ = _ |- _ => clear H
           | H : _ = execute_begin _ _ _ |- _ => rewrite <- H; clear H
           end; simpl; try done.
  match goal with
  | H : _ /\ _ /\ _ |- _ => destruct H as (Hw & Hc & Hs)
  end.
  split; [done|]. split; [done|]. intros Hcomp. by apply Hs in Hcomp.
Qed.

Lemma execute_resume_writes node st reply :
  (status (execute_resume w node st reply).1.1 = COMPLETED
   /\ written (execute_resume w node st reply).1.2
      = written st ++ [output_key (id node); metadata_key (id node)])
  \/ (status (execute_resume w node st reply).1.1 <> COMPLETED
      /\ written (execute_resume w node st reply).1.2 = written st
      /\ context (execute_resume w node st reply).1.2 = context st).
Proof.
  unfold execute_resume. destruct reply as [result|]; simpl.
  2:{ by right. }
  unfold after_run. destruct (Base.success result); simpl.
  - left. split; [done|]. unfold write; simpl. by rewrite <- app_assoc.
  - right. destruct (retry_count node <? max_retries node); [|done].
    destruct (execute_begin_writes
                (set_status PENDING
                   (set_retry_count (retry_count node + 1) node)) st)
      as (Hw & Hc & Hs).
    split; [|done]. intros Hcomp. by apply Hs in Hcomp.
Qed.

(** A call of [execute_node] that no other task interrupts: the result of
    going from one [await] to the next until the end. *)
Inductive completes
  : DAGNode * ExecState * Progress -> DAGNode * ExecState * Outcome bool -> Prop :=
| completes_finished node st o :
    completes (node, st, Finished o) (node, st, o)
| completes_awaiting node st agent input_data call r :
    completes
      (execute_resume w node st
         (wait_for w node (context st) agent input_data call)) r ->
    completes (node, st, Awaiting agent input_data call) r.

Lemma execute_begin_body node st :
  execute_begin w node st =
  match should_skip node (context st) with
  | Raise msg => (node, st, Finished (Raise msg))
  | Ret true => (set_status SKIPPED node, st, Finished (Ret true))
  | Ret false =>
      match get_agent w (agent_type node) (agent_config node) with
      | Some agent =>
          (set_status RUNNING node,
           mkExecState (context st) (S (calls st)) (written st),
           Awaiting agent
             (_prepare_input_data w (set_status RUNNING node) (context st))
             (calls st))
      | None =>
          if retry_count node <? max_retries node then
            execute_begin w
              (set_status PENDING
                 (set_retry_count (retry_count node + 1)
                    (set_status RUNNING node)))
              st
          else
            (set_error_message
               (Some ("Agent not found: " +:+ agent_type node))
               (set_status FAILED (set_status RUNNING node)),
             st, Finished (Ret false))
      end
  end.
Proof.
  funelim (execute_begin w node st);
    repeat match goal with
           | H : sigmaI _ _ _ = _ |- _ => clear H
           | H : should_skip _ _ = _ |- _ => rewrite H; clear H
           | H : get_agent _ _ _ = _ |- _ => rewrite H; clear H
           | H : (_ <? _) = _ |- _ => rewrite H; clear H
           end; done.
Qed.

(** The steps of [execute_node], run one after the other, are
    [execute_node]. *)
Lemma execute_node_steps node st :
  completes (execute_begin w node st) (execute_node w node st).
Proof.
  remember (retries_left node) as n eqn:Hn. revert node st Hn.
  induction n as [n IH] using lt_wf_ind. intros node st Hn.
  rewrite execute_begin_body, execute_node_body.
  destruct (should_skip node (context st)) as [[]|msg] eqn:Hskip;
    [constructor| |constructor].
  unfold execute_try. cbn [agent_type agent_config set_status].
  destruct (get_agent w (agent_type node) (agent_config node)) as [agent|]
    eqn:Hag; simpl.
  - constructor. unfold execute_resume. cbn [context].
    destruct (wait_for w (set_status RUNNING node) (context st) agent
                (_prepare_input_data w (set_status RUNNING node) (context st))
                (calls st)) as [result|]; [|constructor].
    unfold after_run. destruct (Base.success result); [constructor|].
    simpl. destruct (retry_count node <? max_retries node) eqn:Hlt;
      [|constructor].
    apply Z.ltb_lt in Hlt.
    eapply (IH _ _ _ _ eq_refl). Unshelve.
    subst n. unfold retries_left; simpl. lia.
  - destruct (retry_count node <? max_retries node) eqn:Hlt; [|constructor].
    apply Z.ltb_lt in Hlt.
    eapply (IH _ _ _ _ eq_refl). Unshelve.
    subst n. unfold retries_left; simpl. lia.
Qed.

(** C5, as amended.  For a node whose [retry_count] is 0, [execute_node]
    returns, and between its start and its return [agent.run] is called at
    most [max(max_retries, 0) + 1] times: the number of calls is at most
    one more than the final [retry_count], which never passes
    [max(max_retries, 0)].  The first call needs no retry, so it is made
    also when [max_retries] is negative.  That the recursion ends is the
    well-founded definition of [execute_node] itself, on
    [max_retries - retry_count]. *)
Theorem execute_node_attempts_bounded node st :
  retry_count node = 0 ->
  exists node' st' r,
    execute_node w node st = (node', st', r)
    /\ 0 <= retry_count node' <= Z.max (max_retries node) 0
    /\ Z.of_nat (calls st') - Z.of_nat (calls st) <= retry_count node' + 1
    /\ Z.of_nat (calls st') - Z.of_nat (calls st)
       <= Z.max (max_retries node) 0 + 1.
Proof.
  intros H0.
  destruct (execute_node_spec node st) as (_ & Hlo & Hhi & _ & Hc & _).
  destruct (execute_node w node st) as [[node' st'] r]; simpl in *.
  exists node', st', r. split; [done|]. lia.
Qed.


Lemma should_skip_frame node node' ctx :
  conditions node' = conditions node ->
  should_skip node' ctx = should_skip node ctx.
Proof. unfold should_skip. by intros ->. Qed.


End ExecutorProperties.

Section ExecutorExamples.
Import Dag Executor Examples.

(** Witness of the amended C5: a node of the broken agent with two
    retries. *)
Lemma execute_node_attempts_bounded_witness :
  retry_count (fresh_node "A" "broken" [] [] 2 300) = 0
  /\ exists node' st' r,
       execute_node fast_world (fresh_node "A" "broken" [] [] 2 300) empty_state
       = (node', st', r)
       /\ 0 <= retry_count node' <= Z.max 2 0
       /\ Z.of_nat (calls st') - Z.of_nat (calls empty_state)
          <= retry_count node' + 1
       /\ Z.of_nat (calls st') - Z.of_nat (calls empty_state)
          <= Z.max 2 0 + 1.
Proof.
  split; [reflexivity|].
  apply (execute_node_attempts_bounded fast_world
           (fresh_node "A" "broken" [] [] 2 300) empty_state).
  reflexivity.
Defined.

(** C5 as the specification states it: at most [max_retries + 1] calls
    for every node that starts with [retry_count = 0]. *)
Definition attempts_at_most_max_retries_plus_one : Prop :=
  forall (w : World) (node : DAGNode) (st : ExecState),
    retry_count node = 0 ->
    Z.of_nat (calls (execute_node w node st).1.2) - Z.of_nat (calls st)
    <= max_retries node + 1.

Example negative_max_retries_one_attempt :
  let r := execute_node fast_world (fresh_node "A" "echo" [] [] (-1) 300)
             empty_state in
  status r.1.1 = COMPLETED /\ calls r.1.2 = 1%nat /\ r.2 = Ret true.
Proof. vm_compute. done. Qed.

(** Counterexample to C5: [max_retries = -1], which neither [from_dict]
    nor [validate_dag] refuses; the agent is called once, and
    [max_retries + 1] is 0. *)
Lemma attempts_at_most_max_retries_plus_one_fails :
  ~ attempts_at_most_max_retries_plus_one.
Proof.
  intros H.
  specialize (H fast_world (fresh_node "A" "echo" [] [] (-1) 300) empty_state
                eq_refl).
  vm_compute in H. by apply H.
Qed.

(** With a timeout that is not positive the call is cancelled before it
    starts: the node fails at once, and nothing is retried. *)
Example zero_timeout_fails :
  let r := execute_node fast_world (fresh_node "A" "echo" [] [] 3 0)
             empty_state in
  status r.1.1 = FAILED /\ retry_count r.1.1 = 0
  /\ error_message r.1.1 = Some "Node A timed out after 0 seconds"
  /\ context r.1.2 = ∅ /\ r.2 = Ret false.
Proof. vm_compute. done. Qed.

Example broken_agent_three_attempts :
  let r := execute_node fast_world (fresh_node "A" "broken" [] [] 2 300)
             empty_state in
  status r.1.1 = FAILED /\ retry_count r.1.1 = 2 /\ calls r.1.2 = 3%nat
  /\ r.2 = Ret false.
Proof. vm_compute. done. Qed.


Example timeout_single_attempt :
  let r := execute_node slow_world (fresh_node "A" "echo" [] [] 2 1)
             empty_state in
  status r.1.1 = FAILED /\ retry_count r.1.1 = 0 /\ calls r.1.2 = 1%nat
  /\ r.2 = Ret false.
Proof. vm_compute. done. Qed.




Example unknown_agent_uses_all_retries :
  let r := execute_node fast_world (fresh_node "A" "translator" [] [] 3 300)
             empty_state in
  status r.1.1 = FAILED /\ retry_count r.1.1 = 3 /\ calls r.1.2 = 0%nat
  /\ error_message r.1.1 = Some "Agent not found: translator".
Proof. vm_compute. done. Qed.


End ExecutorExamples.

(** ** [TaskExecutor._resolve_template_variables] *)

Section TemplateProperties.
Import Executor.
Variables (w : World) (context : gmap string pyval).

(** The text [${KEY}]. *)
Definition placeholder (key : string) : string := "${" +:+ key +:+ "}".

(** [s] contains a closing brace. *)
Fixpoint has_rbrace (s : string) : bool :=
  match s with
  | EmptyString => false
  | String c t => Ascii.eqb c "}" || has_rbrace t
  end.

(** A KEY that the pattern accepts: not empty, no closing brace. *)
Definition valid_key (key : string) : Prop :=
  key <> EmptyString /\ has_rbrace key = false.

(** [s] contains the two characters [${] next to each other. *)
Fixpoint has_open (s : string) : bool :=
  match s with
  | EmptyString => false
  | String a t =>
      match t with
      | EmptyString => false
      | String b _ => (Ascii.eqb a "$" && Ascii.eqb b "{") || has_open t
      end
  end.

(** [s] begins with a placeholder. *)
Definition starts_placeholder (s : string) : Prop :=
  exists key rest, valid_key key /\ s = placeholder key +:+ rest.

(** What the specification puts in the place of [${KEY}]. *)
Definition substitute (key : string) : string :=
  match context !! key with
  | Some v => py_str w v
  | None => placeholder key
  end.

(** A text as literal pieces, each followed by a placeholder, and a last
    literal piece; the text itself and the text with every placeholder
    substituted. *)
Definition source (pieces : list (string * string)) (last : string) : string :=
  foldr (fun p acc => p.1 +:+ placeholder p.2 +:+ acc) last pieces.

Definition expanded (pieces : list (string * string)) (last : string) : string :=
  foldr (fun p acc => p.1 +:+ substitute p.2 +:+ acc) last pieces.

Lemma app_cons_str (c : ascii) (s t : string) :
  String c s +:+ t = String c (s +:+ t).
Proof. reflexivity. Qed.

Lemma app_nil_str (t : string) : EmptyString +:+ t = t.
Proof. reflexivity. Qed.

Lemma app_assoc_str (a b c : string) : (a +:+ b) +:+ c = a +:+ (b +:+ c).
Proof.
  induction a as [|x a IH]; [done|]. by rewrite !app_cons_str, IH.
Qed.

Lemma replace_var_substitute key : replace_var w context key = substitute key.
Proof.
  unfold replace_var, substitute, placeholder.
  by destruct (context !! key).
Qed.

Lemma span_key_app key rest :
  has_rbrace key = false ->
  span_key (key +:+ String "}" rest) = (key, String "}" rest).
Proof.
  induction key as [|c k IH]; [done|]. rewrite app_cons_str; simpl.
  intros [Hc Hk]%orb_false_elim. rewrite Hc, (IH Hk). done.
Qed.

Lemma span_key_spec s :
  s = (span_key s).1 +:+ (span_key s).2
  /\ has_rbrace (span_key s).1 = false
  /\ ((span_key s).2 = EmptyString
      \/ exists r, (span_key s).2 = String "}" r).
Proof.
  induction s as [|c t (IH1 & IH2 & IH3)]; simpl; [auto|].
  destruct (Ascii.eqb_spec c "}") as [->|Hne]; simpl.
  - repeat split; eauto.
  - repeat split; [by rewrite app_cons_str, <- IH1| |done].
    rewrite IH2. by apply Ascii.eqb_neq in Hne as ->.
Qed.

Lemma placeholder_app key rest :
  placeholder key +:+ rest = String "$" (String "{" (key +:+ String "}" rest)).
Proof.
  unfold placeholder. change ("${" +:+ key +:+ "}")
    with (String "$" (String "{" (key +:+ "}"))).
  change (String "$" (String "{" (key +:+ "}")) +:+ rest)
    with (String "$" (String "{" ((key +:+ "}") +:+ rest))).
  by rewrite app_assoc_str.
Qed.

Lemma match_placeholder_intro key rest :
  valid_key key ->
  match_placeholder (placeholder key +:+ rest) = Some (key, rest).
Proof.
  intros [Hne Hk]. rewrite placeholder_app. unfold match_placeholder; simpl.
  rewrite span_key_app by done.
  by destruct key.
Qed.

Lemma match_placeholder_elim s key rest :
  match_placeholder s = Some (key, rest) ->
  valid_key key /\ s = placeholder key +:+ rest.
Proof.
  unfold match_placeholder. destruct s as [|a [|b t]]; try done.
  destruct (Ascii.eqb_spec a "$") as [->|]; [|done].
  destruct (Ascii.eqb_spec b "{") as [->|]; [|done]. simpl.
  destruct (span_key_spec t) as (Ht & Hk & Hr).
  destruct (span_key t) as [[|c k] [|d r]]; try done.
  intros [= <- <-]. simpl in *.
  destruct Hr as [|[r' [= -> ->]]]; [done|].
  split; [by split|].
  rewrite placeholder_app. by rewrite Ht.
Qed.

Lemma match_placeholder_none s :
  ~ starts_placeholder s -> match_placeholder s = None.
Proof.
  intros Hn. destruct (match_placeholder s) as [[key rest]|] eqn:Hm; [|done].
  apply match_placeholder_elim in Hm as [? ?]. destruct Hn. by exists key, rest.
Qed.

(** The body of [re_sub]. *)
Lemma re_sub_body s :
  re_sub w context s =
  match s with
  | EmptyString => EmptyString
  | String c t =>
      match match_placeholder s with
      | Some (var_name, rest) =>
          replace_var w context var_name +:+ re_sub w context rest
      | None => String c (re_sub w context t)
      end
  end.
Proof.
  funelim (re_sub w context s);
    repeat match goal with
           | H : sigmaI _ _ _ = _ |- _ => clear H
           | H : match_placeholder _ = _ |- _ => rewrite H; clear H
           end; done.
Qed.

Lemma re_sub_match s key rest :
  match_placeholder s = Some (key, rest) ->
  re_sub w context s = substitute key +:+ re_sub w context rest.
Proof.
  intros Hm. rewrite re_sub_body, Hm, replace_var_substitute.
  destruct s; [done|done].
Qed.

Lemma re_sub_no_match c t :
  match_placeholder (String c t) = None ->
  re_sub w context (String c t) = String c (re_sub w context t).
Proof. intros Hm. by rewrite re_sub_body, Hm. Qed.

(** A text without [${] is returned as it is. *)
Lemma re_sub_plain s : has_open s = false -> re_sub w context s = s.
Proof.
  induction s as [|a t IH]; intros Ho; [by rewrite re_sub_body|].
  rewrite re_sub_no_match.
  - f_equal. apply IH. simpl in Ho. destruct t; [done|].
    by apply orb_false_elim in Ho as [_ ?].
  - unfold match_placeholder. destruct t as [|b t]; [done|].
    simpl in Ho. apply orb_false_elim in Ho as [-> _]. done.
Qed.

(** The leftmost placeholder: when no placeholder begins inside [pre], the
    placeholder after [pre] is the first match. *)
Lemma re_sub_leftmost pre key rest :
  valid_key key ->
  (forall a b, pre = a +:+ b -> b <> EmptyString ->
               ~ starts_placeholder (b +:+ placeholder key +:+ rest)) ->
  re_sub w context (pre +:+ placeholder key +:+ rest)
  = pre +:+ substitute key +:+ re_sub w context rest.
Proof.
  intros Hk. induction pre as [|c pre IH]; intros Hpre.
  - rewrite !app_nil_str. apply re_sub_match. by apply match_placeholder_intro.
  - rewrite !app_cons_str. rewrite re_sub_no_match.
    + f_equal. apply IH. intros a b -> Hb. apply (Hpre (String c a) b); [done|done].
    + apply match_placeholder_none. rewrite <- app_cons_str.
      apply (Hpre EmptyString (String c pre)); done.
Qed.

(** A literal piece without [${] cannot contain the beginning of a
    placeholder. *)
Lemma has_open_app_false a b : has_open (a +:+ b) = false -> has_open b = false.
Proof.
  induction a as [|x a IH]; [done|]. rewrite app_cons_str. simpl.
  destruct (a +:+ b) eqn:Hab.
  - destruct a; [|done]. rewrite app_nil_str in Hab. by subst.
  - intros [_ ?]%orb_false_elim. by apply IH.
Qed.

Lemma literal_no_placeholder pre key rest :
  has_open pre = false ->
  forall a b, pre = a +:+ b -> b <> EmptyString ->
              ~ starts_placeholder (b +:+ placeholder key +:+ rest).
Proof.
  intros Hpre a b -> Hb (key' & rest' & _ & Heq).
  apply has_open_app_false in Hpre.
  rewrite !placeholder_app in Heq.
  destruct b as [|x [|y b]]; [done| |].
  - rewrite app_cons_str, app_nil_str in Heq. by injection Heq.
  - rewrite !app_cons_str in Heq. injection Heq as -> -> _.
    simpl in Hpre. done.
Qed.

Lemma re_sub_pieces pieces last :
  Forall (fun p => has_open p.1 = false /\ valid_key p.2) pieces ->
  has_open last = false ->
  re_sub w context (source pieces last) = expanded pieces last.
Proof.
  intros Hp Hl. induction Hp as [|[lit key] ps [Hlit Hkey] _ IH]; simpl.
  - by apply re_sub_plain.
  - rewrite re_sub_leftmost; [by rewrite IH|done|].
    by apply literal_no_placeholder.
Qed.

(** The matches of the pattern in a text, from the left: every literal
    piece is followed by a match [${KEY}], and no match begins inside a
    literal piece or inside the last piece.  The text of a KEY ends at the
    first closing brace after [${], so a KEY can itself contain [${]. *)
Fixpoint leftmost_matches (pieces : list (string * string)) (last : string)
    : Prop :=
  match pieces with
  | [] => forall a b, last = a +:+ b -> ~ starts_placeholder b
  | p :: ps =>
      valid_key p.2
      /\ (forall a b, p.1 = a +:+ b -> b <> EmptyString ->
            ~ starts_placeholder (b +:+ placeholder p.2 +:+ source ps last))
      /\ leftmost_matches ps last
  end.

(** A text in which no match begins is returned as it is. *)
Lemma re_sub_no_placeholder s :
  (forall a b, s = a +:+ b -> ~ starts_placeholder b) ->
  re_sub w context s = s.
Proof.
  induction s as [|c t IH]; intros Hs; [by rewrite re_sub_body|].
  rewrite re_sub_no_match.
  - f_equal. apply IH. intros a b ->. by apply (Hs (String c a) b).
  - apply match_placeholder_none. by apply (Hs EmptyString).
Qed.

Lemma re_sub_leftmost_matches pieces last :
  leftmost_matches pieces last ->
  re_sub w context (source pieces last) = expanded pieces last.
Proof.
  induction pieces as [|[lit key] ps IH]; simpl.
  - apply re_sub_no_placeholder.
  - intros (Hkey & Hlit & Hps). rewrite re_sub_leftmost by done.
    by rewrite IH.
Qed.

(** Every text has its matches. *)
Lemma leftmost_matches_exist s :
  exists pieces last, s = source pieces last /\ leftmost_matches pieces last.
Proof.
  remember (String.length s) as n eqn:Hn. revert s Hn.
  induction n as [n IH] using lt_wf_ind. intros s ->.
  destruct s as [|c t].
  - exists [], EmptyString. split; [done|]. simpl.
    intros a b Hab (key & rest & _ & Hb). rewrite placeholder_app in Hb.
    subst b. destruct a; [by rewrite app_nil_str in Hab|].
    by rewrite app_cons_str in Hab.
  - destruct (match_placeholder (String c t)) as [[key rest]|] eqn:Hm.
    + pose proof (match_placeholder_shorter _ _ _ Hm) as Hlt.
      apply match_placeholder_elim in Hm as [Hkey Hs].
      destruct (IH _ Hlt rest eq_refl) as (ps & last & Hrest & Hps).
      exists ((EmptyString, key) :: ps), last. simpl.
      rewrite <- Hrest, app_nil_str. split; [done|].
      split; [done|]. split; [|done].
      intros a b Hab Hb. destruct a; [by rewrite app_nil_str in Hab; subst b|].
      by rewrite app_cons_str in Hab.
    + assert (Hno : ~ starts_placeholder (String c t)).
      { intros (key & rest & Hkey & Hs).
        by rewrite Hs, match_placeholder_intro in Hm. }
      destruct (IH (String.length t) (Nat.lt_succ_diag_r _) t eq_refl)
        as (ps & last & Ht & Hps).
      destruct ps as [|[lit key] ps]; simpl in Ht, Hps.
      * exists [], (String c last). subst t. split; [done|]. simpl.
        intros a b Hab. destruct a as [|x a].
        -- rewrite app_nil_str in Hab. by subst b.
        -- rewrite app_cons_str in Hab. injection Hab as _ Hab.
           by apply (Hps a b).
      * destruct Hps as (Hkey & Hlit & Hps).
        exists ((String c lit, key) :: ps), last. subst t. simpl.
        split; [done|]. split; [done|]. split; [|done].
        intros a b Hab Hb. destruct a as [|x a].
        -- rewrite app_nil_str in Hab. subst b. by rewrite app_cons_str.
        -- rewrite app_cons_str in Hab. injection Hab as _ Hab.
           by apply (Hlit a b).
Qed.

(** C8, as amended.  In a string, [_resolve_template_variables] scans from
    the left for the matches of the pattern [\$\{([^}]+)\}]: a match begins
    at [${] and its KEY is the text, not empty, up to the next closing brace
    (so a KEY can itself contain [${], and matches do not overlap).  Each
    match is replaced by [str(context[KEY])] when KEY is in the context and
    left as it is when KEY is not, and the text between the matches is
    copied; every string has such a reading, so the function returns a
    string for every string.  It recurses into the values of a dictionary
    and the items of a list and returns every other value unchanged.  It
    is a function of its two arguments and returns only the resolved
    value: nothing is assigned in the context. *)
Theorem resolve_template_variables_spec :
  (forall pieces last,
     leftmost_matches pieces last ->
     _resolve_template_variables w (PStr (source pieces last)) context
     = PStr (foldr (fun p acc =>
                      p.1
                      +:+ match context !! p.2 with
                          | Some v => py_str w v
                          | None => placeholder p.2
                          end
                      +:+ acc) last pieces))
  /\ (forall s, exists pieces last,
        s = source pieces last /\ leftmost_matches pieces last)
  /\ (forall pieces last,
        Forall (fun p => has_open p.1 = false /\ valid_key p.2) pieces ->
        has_open last = false ->
        leftmost_matches pieces last)
  /\ (forall d,
        _resolve_template_variables w (PDict d) context
        = PDict (map (fun kv =>
                        (kv.1, _resolve_template_variables w kv.2 context)) d))
  /\ (forall l,
        _resolve_template_variables w (PList l) context
        = PList (map (fun item =>
                        _resolve_template_variables w item context) l))
  /\ (forall v,
        match v with PStr _ | PDict _ | PList _ => False | _ => True end ->
        _resolve_template_variables w v context = v).
Proof.
  split; [|split; [|split; [|split; [|split]]]].
  - intros pieces last Hp. simpl. f_equal.
    by rewrite re_sub_leftmost_matches.
  - apply leftmost_matches_exist.
  - intros pieces last Hp Hl.
    induction Hp as [|[lit key] ps [Hlit Hkey] _ IH]; simpl.
    + intros a b -> (key & rest & _ & ->).
      apply has_open_app_false in Hl. by rewrite placeholder_app in Hl.
    + split; [done|]. split; [|done]. by apply literal_no_placeholder.
  - reflexivity.
  - reflexivity.
  - by intros [].
Qed.
End TemplateProperties.

Section TemplateExamples.
Import Executor Examples.

Definition demo_context : gmap string pyval :=
  <["name" := PStr "Ada"]> (<["count" := PInt 42]> (<["flag" := PNone]> ∅)).

(** Witness of the amended C8: the KEY of the one match of [${a${name}] is [a${name],
    which the context does not hold. *)
Lemma resolve_template_variables_witness :
  leftmost_matches [(EmptyString, "a${name")] EmptyString
  /\ _resolve_template_variables fast_world (PStr "${a${name}") demo_context
     = PStr "${a${name}".
Proof.
  assert (Hp : leftmost_matches [(EmptyString, "a${name")] EmptyString).
  { simpl. split; [by split|]. split.
    - intros a b Hab Hb. destruct a; [by rewrite app_nil_str in Hab; subst b|].
      by rewrite app_cons_str in Hab.
    - intros a b Hab (key & rest & _ & Hb). rewrite placeholder_app in Hb.
      subst b. destruct a; [by rewrite app_nil_str in Hab|].
      by rewrite app_cons_str in Hab. }
  split; [exact Hp|].
  exact (proj1 (resolve_template_variables_spec fast_world demo_context)
           [(EmptyString, "a${name")] EmptyString Hp).
Defined.

(** C8 as the specification states it: every text [${KEY}] whose KEY is
    in the context is replaced, whatever stands before it. *)
Definition replaces_each_placeholder : Prop :=
  forall (w : World) (context : gmap string pyval) (pre key rest : string)
         (v : pyval),
    valid_key key ->
    context !! key = Some v ->
    _resolve_template_variables w (PStr (pre +:+ placeholder key +:+ rest))
      context
    = PStr (re_sub w context pre +:+ py_str w v +:+ re_sub w context rest).

(** Counterexample to C8: with [name] bound, the text [${name}] of
    [${a${name}] is not replaced, because the match begins at the first
    [${]. *)
Lemma replaces_each_placeholder_fails : ~ replaces_each_placeholder.
Proof.
  intros H.
  specialize (H fast_world demo_context "${a" "name" EmptyString (PStr "Ada")).
  assert (Hkey : valid_key "name") by (by split).
  specialize (H Hkey eq_refl). vm_compute in H. discriminate H.
Qed.

(** A placeholder after text without [${] is replaced. *)
Example resolve_two_placeholders :
  _resolve_template_variables fast_world
    (PStr "Hello ${name}, ${missing}!") demo_context
  = PStr "Hello Ada, ${missing}!".
Proof. vm_compute. reflexivity. Qed.

Example resolve_nested_values :
  _resolve_template_variables fast_world
    (PDict [("n", PInt 7); ("items", PList [PStr "${count} items"; PBool true]);
            ("who", PDict [("first", PStr "$${name}}")])])
    demo_context
  = PDict [("n", PInt 7); ("items", PList [PStr "42 items"; PBool true]);
           ("who", PDict [("first", PStr "$Ada}")])].
Proof. vm_compute. reflexivity. Qed.

(** [${}] is no placeholder, a key bound to [None] is present, and of two
    openings before one closing brace the first one starts the match. *)
Example resolve_corner_cases :
  _resolve_template_variables fast_world
    (PList [PStr "${}"; PStr "${flag}"; PStr "${a${name}"; PStr "${name"])
    demo_context
  = PList [PStr "${}"; PStr "None"; PStr "${a${name}"; PStr "${name"].
Proof. vm_compute. reflexivity. Qed.
End TemplateExamples.

(** ** Dictionaries *)

Section DictProperties.
Context {K V : Type} `{EqDecision K}.
Implicit Types (k : K) (v : V) (d : list (K * V)).

Lemma dict_get_set_eq k v d : dict_get k (dict_set k v d) = Some v.
Proof.
  induction d as [|[k' v'] d IH]; simpl.
  - by rewrite decide_True.
  - destruct (decide (k = k')) as [->|Hne]; simpl.
    + by rewrite decide_True.
    + by rewrite decide_False.
Qed.

Lemma dict_get_set_ne k k' v d :
  k <> k' -> dict_get k' (dict_set k v d) = dict_get k' d.
Proof.
  intros Hne. induction d as [|[k'' v''] d IH]; simpl.
  - by rewrite decide_False.
  - destruct (decide (k = k'')) as [->|Hne']; simpl.
    + by rewrite !decide_False.
    + by rewrite IH.
Qed.

Lemma dict_get_Some_keys k v d : dict_get k d = Some v -> k ∈ dict_keys d.
Proof.
  induction d as [|[k' v'] d IH]; simpl; [done|].
  destruct (decide (k = k')) as [->|Hne]; [left|right; auto].
Qed.

Lemma dict_get_None_keys k d : dict_get k d = None <-> k ∉ dict_keys d.
Proof.
  induction d as [|[k' v'] d IH]; simpl.
  - split; [intros _; apply not_elem_of_nil|done].
  - destruct (decide (k = k')) as [->|Hne].
    + split; [done|]. intros Hn. destruct Hn. left.
    + rewrite IH, not_elem_of_cons. tauto.
Qed.

Lemma dict_keys_get k d : k ∈ dict_keys d -> exists v, dict_get k d = Some v.
Proof.
  intros Hk. destruct (dict_get k d) as [v|] eqn:Hg; [eauto|].
  by apply dict_get_None_keys in Hg.
Qed.

Lemma dict_keys_set_in k v d :
  k ∈ dict_keys d -> dict_keys (dict_set k v d) = dict_keys d.
Proof.
  induction d as [|[k' v'] d IH]; simpl; [by intros ?%elem_of_nil|].
  destruct (decide (k = k')) as [->|Hne]; [done|]. simpl.
  intros [?|?]%elem_of_cons; [done|]. by rewrite IH.
Qed.

Lemma dict_keys_set_notin k v d :
  k ∉ dict_keys d -> dict_keys (dict_set k v d) = dict_keys d ++ [k].
Proof.
  induction d as [|[k' v'] d IH]; simpl; [done|].
  intros [? ?]%not_elem_of_cons. rewrite decide_False by done. simpl.
  by rewrite IH.
Qed.

Lemma dict_keys_set_NoDup k v d :
  NoDup (dict_keys d) -> NoDup (dict_keys (dict_set k v d)).
Proof.
  intros Hnd. destruct (decide (k ∈ dict_keys d)).
  - by rewrite dict_keys_set_in.
  - rewrite dict_keys_set_notin by done.
    apply NoDup_app. split; [done|]. split; [|apply NoDup_singleton].
    intros x Hx ->%list_elem_of_singleton. done.
Qed.
End DictProperties.

(** ** [WorkflowDAG.__init__] *)

Section InitProperties.
Import Dag.

(** A DAG as the constructor builds it: the keys of [nodes] are distinct,
    every node is stored under its id, and [edges] holds the dependency
    lists of the nodes. *)
Record consistent (g : WorkflowDAG) : Prop := {
  keys_NoDup : NoDup (dict_keys (nodes g));
  keys_id : forall k n, dict_get k (nodes g) = Some n -> id n = k;
  edges_keys : dict_keys (edges g) = dict_keys (nodes g);
  edges_deps : forall k n, dict_get k (nodes g) = Some n ->
                           dict_get k (edges g) = Some (dependencies n)
}.

Lemma add_node_consistent g node : consistent g -> consistent (add_node g node).
Proof.
  intros [Hnd Hid Hek Hed]. split; simpl.
  - by apply dict_keys_set_NoDup.
  - intros k n. destruct (decide (id node = k)) as [<-|Hne].
    + rewrite dict_get_set_eq. by intros [= <-].
    + rewrite dict_get_set_ne by done. apply Hid.
  - destruct (decide (id node ∈ dict_keys (nodes g))) as [Hin|Hin].
    + rewrite !dict_keys_set_in; [done|done|by rewrite Hek].
    + rewrite !dict_keys_set_notin; [by rewrite Hek|done|by rewrite Hek].
  - intros k n. destruct (decide (id node = k)) as [<-|Hne].
    + rewrite !dict_get_set_eq. by intros [= <-].
    + rewrite !dict_get_set_ne by done. apply Hed.
Qed.

Lemma WorkflowDAG_init_consistent ns : consistent (WorkflowDAG_init ns).
Proof.
  unfold WorkflowDAG_init.
  assert (Hc : consistent (mkWorkflowDAG [] [])).
  { split; simpl; [apply NoDup_nil_2|done|done|done]. }
  revert Hc. generalize (mkWorkflowDAG [] []).
  induction ns as [|n ns IH]; intros g Hg; simpl; [done|].
  apply IH. by apply add_node_consistent.
Qed.
End InitProperties.

(** ** [WorkflowDAG.get_execution_order] *)

Section LevelsProperties.
Import Dag.
Variables (ord : SetOrder) (g : WorkflowDAG).

(** The body of the [while] loop. *)
Lemma levels_loop_body remaining completed :
  levels_loop ord g remaining completed =
  match remaining with
  | [] => Ret []
  | _ =>
      match filter (fun node_id => node_ready g completed node_id)
              (enum ord remaining) with
      | [] => Raise "Unable to find executable nodes - possible circular dependency"
      | level =>
          match levels_loop ord g
                  (filter (fun node_id => node_id ∉ level) remaining)
                  (completed ∪ list_to_set level) with
          | Ret levels => Ret (level :: levels)
          | Raise msg => Raise msg
          end
      end
  end.
Proof.
  funelim (levels_loop ord g remaining completed);
    repeat match goal with
           | H : sigmaI _ _ _ = _ |- _ => clear H
           | H : filter _ _ = _ |- _ => rewrite H; clear H
           end; done.
Qed.

(** The levels that the loop can return for a set [remaining] of nodes
    still to place and a set [completed] of nodes already placed: each
    level is, in some order, the set of remaining nodes that can execute. *)
Inductive levels_of : list string -> gset string -> list (list string) -> Prop :=
| levels_done completed : levels_of [] completed []
| levels_next remaining completed level levels :
    remaining <> [] ->
    level <> [] ->
    level ≡ₚ filter (fun node_id => node_ready g completed node_id) remaining ->
    levels_of (filter (fun node_id => node_id ∉ level) remaining)
      (completed ∪ list_to_set level) levels ->
    levels_of remaining completed (level :: levels).

Lemma levels_loop_levels_of remaining completed levels :
  levels_loop ord g remaining completed = Ret levels ->
  levels_of remaining completed levels.
Proof.
  remember (length remaining) as n eqn:Hn.
  revert remaining completed levels Hn.
  induction (lt_wf n) as [n _ IH]; intros remaining completed levels -> Hl.
  rewrite levels_loop_body in Hl.
  destruct remaining as [|r rs]; [injection Hl as <-; constructor|].
  destruct (filter _ (enum ord (r :: rs))) as [|c cs] eqn:Hlevel; [done|].
  cbv zeta in Hl.
  destruct (levels_loop ord g _ _) as [ls|] eqn:Hrec; [|done].
  injection Hl as <-.
  assert (Hc : c ∈ r :: rs).
  { rewrite <- (enum_perm ord). eapply (list_elem_of_filter _ _ c).
    rewrite Hlevel. left. }
  constructor; [done|done| |].
  - rewrite <- Hlevel. by rewrite (enum_perm ord).
  - eapply IH; [|reflexivity|exact Hrec].
    apply (length_filter_lt _ _ c); [done|]. intros Hn; apply Hn; left.
Qed.

Lemma levels_of_NoDup remaining completed levels :
  levels_of remaining completed levels ->
  NoDup remaining ->
  Forall (fun level => NoDup level) levels /\ concat levels ≡ₚ remaining.
Proof.
  induction 1 as [|remaining completed level levels Hne Hlne Hperm Hrest IH];
    intros Hnd; [done|].
  destruct IH as [IH1 IH2]; [by apply NoDup_filter|].
  assert (Hndl : NoDup level).
  { rewrite Hperm. by apply NoDup_filter. }
  split; [by constructor|]. simpl. rewrite IH2.
  apply NoDup_Permutation.
  - apply NoDup_app. split; [done|]. split; [|by apply NoDup_filter].
    intros x Hx [Hn _]%list_elem_of_filter. done.
  - done.
  - intros x. rewrite elem_of_app, list_elem_of_filter.
    split.
    + intros [Hx|[_ Hx]]; [|done].
      rewrite Hperm in Hx. by apply list_elem_of_filter in Hx as [_ ?].
    + intros Hx. destruct (decide (x ∈ level)); auto.
Qed.

Lemma levels_of_ready remaining completed levels i level k :
  levels_of remaining completed levels ->
  levels !! i = Some level ->
  k ∈ level ->
  k ∈ remaining
  /\ node_ready g (completed ∪ list_to_set (concat (take i levels))) k = true.
Proof.
  intros Hl. revert i.
  induction Hl as [|remaining completed lv levels Hne Hlne Hperm Hrest IH];
    intros i Hi Hk; [done|].
  destruct i as [|i]; simpl in *.
  - injection Hi as ->. rewrite Hperm in Hk.
    apply list_elem_of_filter in Hk as [Hr Hk]. split; [done|].
    rewrite union_empty_r_L. by destruct (node_ready _ _ _).
  - destruct (IH i Hi Hk) as [Hin Hr].
    apply list_elem_of_filter in Hin as [_ Hin]. split; [done|].
    by rewrite list_to_set_app_L, (assoc_L (∪)).
Qed.

Lemma levels_of_complete remaining completed levels i level k :
  levels_of remaining completed levels ->
  levels !! i = Some level ->
  k ∈ remaining ->
  k ∉ concat (take i levels) ->
  node_ready g (completed ∪ list_to_set (concat (take i levels))) k = true ->
  k ∈ level.
Proof.
  intros Hl. revert i.
  induction Hl as [|remaining completed lv levels Hne Hlne Hperm Hrest IH];
    intros i Hi Hk Hnot Hr; [done|].
  destruct i as [|i]; simpl in *.
  - injection Hi as ->. rewrite Hperm. apply list_elem_of_filter.
    rewrite union_empty_r_L in Hr. by rewrite Hr.
  - apply not_elem_of_app in Hnot as [Hn1 Hn2].
    apply (IH i); [done| |done|].
    + by apply list_elem_of_filter.
    + by rewrite list_to_set_app_L, (assoc_L (∪)) in Hr.
Qed.
End LevelsProperties.

(** ** [WorkflowEngine._execute_dag] *)

Section EngineProperties.
Import Dag Executor Engine.
Variable w : World.

(** Every node of [g'] is a node of [g] whose execution state may have
    changed. *)
Definition same_nodes (g g' : WorkflowDAG) : Prop :=
  dict_keys (nodes g') = dict_keys (nodes g)
  /\ forall k n', dict_get k (nodes g') = Some n' ->
       exists n, dict_get k (nodes g) = Some n /\ node_frame n n'.

Lemma same_nodes_refl g : same_nodes g g.
Proof. split; [done|]. intros k n' ?. exists n'. split; [done|apply node_frame_refl]. Qed.

Lemma same_nodes_trans g1 g2 g3 :
  same_nodes g1 g2 -> same_nodes g2 g3 -> same_nodes g1 g3.
Proof.
  intros [Hk1 Hn1] [Hk2 Hn2]. split; [congruence|].
  intros k n3 H3. destruct (Hn2 k n3 H3) as (n2 & H2 & Hf2).
  destruct (Hn1 k n2 H2) as (n1 & H1 & Hf1).
  exists n1. split; [done|]. by eapply node_frame_trans.
Qed.

Lemma same_nodes_store g k n n' :
  dict_get k (nodes g) = Some n -> node_frame n n' ->
  same_nodes g (store_node k n' g).
Proof.
  intros Hk Hf. split; simpl.
  - apply dict_keys_set_in. by eapply dict_get_Some_keys.
  - intros j m. destruct (decide (k = j)) as [<-|Hne].
    + rewrite dict_get_set_eq. intros [= <-]. eauto.
    + rewrite dict_get_set_ne by done. intros Hj. exists m.
      split; [done|apply node_frame_refl].
Qed.

(** Distinct nodes have distinct context keys. *)
Lemma string_app_length (a b : string) :
  String.length (a +:+ b) = (String.length a + String.length b)%nat.
Proof. induction a as [|c a IH]; [done|]. rewrite app_cons_str; simpl. by rewrite IH. Qed.

Lemma string_app_inj_r (a b c : string) : a +:+ c = b +:+ c -> a = b.
Proof.
  revert b. induction a as [|x a IH]; intros [|y b] Heq; try done.
  - apply (f_equal String.length) in Heq. rewrite app_nil_str in Heq.
    rewrite string_app_length in Heq. simpl in Heq. lia.
  - apply (f_equal String.length) in Heq. rewrite app_nil_str in Heq.
    rewrite string_app_length in Heq. simpl in Heq. lia.
  - rewrite !app_cons_str in Heq. injection Heq as -> Heq. f_equal. by apply IH.
Qed.

Fixpoint last_char (s : string) : option ascii :=
  match s with
  | EmptyString => None
  | String c EmptyString => Some c
  | String _ t => last_char t
  end.

Lemma last_char_app (a : string) (c : ascii) (b : string) :
  last_char (a +:+ String c b) = last_char (String c b).
Proof.
  induction a as [|x a IH]; [done|]. rewrite app_cons_str.
  change (last_char (String x (a +:+ String c b)))
    with (match a +:+ String c b with
          | EmptyString => Some x
          | _ => last_char (a +:+ String c b)
          end).
  destruct (a +:+ String c b) eqn:Heq; [|done].
  apply (f_equal String.length) in Heq. rewrite string_app_length in Heq.
  simpl in Heq. lia.
Qed.

Lemma output_key_inj k j : output_key k = output_key j -> k = j.
Proof.
  unfold output_key. intros Heq. apply String.app_inj in Heq.
  by apply string_app_inj_r in Heq.
Qed.

Lemma metadata_key_inj k j : metadata_key k = metadata_key j -> k = j.
Proof.
  unfold metadata_key. intros Heq. apply String.app_inj in Heq.
  by apply string_app_inj_r in Heq.
Qed.

Lemma output_key_metadata_key k j : output_key k <> metadata_key j.
Proof.
  unfold output_key, metadata_key. intros Heq. apply String.app_inj in Heq.
  apply (f_equal last_char) in Heq.
  rewrite (last_char_app k "_" "output"), (last_char_app j "_" "metadata") in Heq.
  done.
Qed.

Lemma node_keys_NoDup k : NoDup [output_key k; metadata_key k].
Proof.
  apply NoDup_cons. split; [|apply NoDup_singleton].
  intros ?%list_elem_of_singleton. by eapply output_key_metadata_key.
Qed.

(** The two keys of a node are keys of no other node. *)
Lemma node_keys_inj k j key :
  key = output_key k \/ key = metadata_key k ->
  key = output_key j \/ key = metadata_key j ->
  k = j.
Proof.
  intros [->| ->] [Heq|Heq].
  - by apply output_key_inj.
  - by apply output_key_metadata_key in Heq.
  - symmetry in Heq. by apply output_key_metadata_key in Heq.
  - by apply metadata_key_inj.
Qed.

(** The status of the node of a task, by the state of the task.  A task
    that ends with an exception leaves its node [PENDING] when the opening
    transaction or [should_skip] has raised, and in the state in which
    [execute_node] has left it when the closing transaction has raised. *)
Definition phase_ok (k : string) (t : Task) (n : DAGNode) : Prop :=
  match t with
  | Created => status n = PENDING
  | Calling _ _ _ | Received _ => status n = RUNNING
  | Done (Ret true) => status n = SKIPPED \/ status n = COMPLETED
  | Done (Ret false) => status n = FAILED
  | Done (Raise msg) =>
      status n = PENDING
      \/ ((status n = SKIPPED \/ status n = COMPLETED \/ status n = FAILED)
          /\ journal_end w k = Some msg)
  end.

(** The keys of the tasks whose node is [COMPLETED]. *)
Definition assigned (g : WorkflowDAG) (tasks : list string) (key : string)
    : Prop :=
  exists k n, k ∈ tasks /\ dict_get k (nodes g) = Some n
              /\ status n = COMPLETED
              /\ (key = output_key k \/ key = metadata_key k).

Lemma pool_insert_fst (pool : list (string * Task)) j k t t' :
  pool !! j = Some (k, t) ->
  map fst (<[j := (k, t')]> pool) = map fst pool.
Proof.
  intros Hj. rewrite list_fmap_insert. simpl.
  apply list_insert_id. by rewrite list_lookup_fmap, Hj.
Qed.

Lemma pool_insert_elem (pool : list (string * Task)) j k t t' k' t'' :
  NoDup (map fst pool) ->
  pool !! j = Some (k, t) ->
  (k', t'') ∈ <[j := (k, t')]> pool ->
  (k' = k /\ t'' = t') \/ (k' <> k /\ (k', t'') ∈ pool).
Proof.
  intros Hnd Hj [i Hi]%list_elem_of_lookup.
  destruct (decide (i = j)) as [->|Hne].
  - rewrite list_lookup_insert_eq in Hi by (by eapply lookup_lt_Some).
    injection Hi as <- <-. by left.
  - rewrite list_lookup_insert_ne in Hi by done. right. split.
    + intros ->. apply Hne.
      eapply (NoDup_lookup _ i j k Hnd);
        rewrite list_lookup_fmap; [by rewrite Hi|by rewrite Hj].
    + by eapply list_elem_of_lookup_2.
Qed.

(** The state in which [track] leaves the task fits the status of the
    node. *)
Lemma track_phase k g node' st' p :
  id node' = k ->
  match p with
  | Finished (Ret true) => status node' = SKIPPED \/ status node' = COMPLETED
  | Finished (Ret false) => status node' = FAILED
  | Finished (Raise _) => status node' = PENDING
  | Awaiting _ _ _ => status node' = RUNNING
  end ->
  phase_ok k (track w k g (node', st', p)).2 node'.
Proof.
  intros Hid Hp. unfold track; simpl. rewrite Hid.
  destruct p as [[[]|msg]|agent input_data call]; simpl.
  - destruct (journal_end w k) eqn:Hj; simpl; [|done]. right. split; [|done].
    destruct Hp; auto.
  - destruct (journal_end w k) eqn:Hj; simpl; [|done]. right. auto.
  - by left.
  - done.
Qed.

(** *** The invariant of the event loop during one [gather] *)

Section Gather.
Variables (g0 : WorkflowDAG) (st0 : ExecState) (tasks : list string).
Hypothesis tasks_NoDup : NoDup tasks.
Hypothesis tasks_pending : forall k, k ∈ tasks ->
  exists n, dict_get k (nodes g0) = Some n /\ status n = PENDING /\ id n = k.
Hypothesis tasks_fresh : forall k, k ∈ tasks ->
  (output_key k ∉ written st0) /\ (metadata_key k ∉ written st0).
Hypothesis written_NoDup : NoDup (written st0).

Record state_inv (g : WorkflowDAG) (st : ExecState) : Prop := {
  si_same : same_nodes g0 g;
  si_others : forall k, k ∉ tasks ->
                dict_get k (nodes g) = dict_get k (nodes g0);
  si_nodup : NoDup (written st);
  si_written : forall key, key ∈ written st <->
                 key ∈ written st0 \/ assigned g tasks key;
  si_dom : dom (context st0) ⊆ dom (context st);
  si_kept : forall key, key ∉ written st ->
              context st !! key = context st0 !! key;
  si_kept_old : forall key, key ∈ written st0 ->
                  context st !! key = context st0 !! key;
  si_outputs : forall k n, k ∈ tasks -> dict_get k (nodes g) = Some n ->
                 status n = COMPLETED ->
                 is_Some (result n) /\ context st !! output_key k = result n
}.

Record pool_inv (g : WorkflowDAG) (pool : list (string * Task)) : Prop := {
  pi_tasks : map fst pool = tasks;
  pi_phase : forall k t, (k, t) ∈ pool ->
               exists n, dict_get k (nodes g) = Some n /\ phase_ok k t n
}.

Lemma task_id g st k n :
  state_inv g st -> k ∈ tasks -> dict_get k (nodes g) = Some n -> id n = k.
Proof.
  intros [[_ Hsame] _ _ _ _ _ _ _] Hk Hn.
  destruct (Hsame k n Hn) as (n0 & Hn0 & Hf).
  destruct (tasks_pending k Hk) as (n0' & Hn0' & _ & Hid).
  rewrite (frame_id _ _ Hf). congruence.
Qed.

Lemma state_inv_initial : state_inv g0 st0.
Proof.
  split; try done.
  - apply same_nodes_refl.
  - intros key. split; [auto|]. intros [?|(k & n & Hk & Hn & Hs & _)]; [done|].
    destruct (tasks_pending k Hk) as (n' & Hn' & Hs' & _). congruence.
  - intros k n Hk Hn Hs.
    destruct (tasks_pending k Hk) as (n' & Hn' & Hs' & _). congruence.
Qed.

Lemma pool_inv_initial : pool_inv g0 (map (fun k => (k, Created)) tasks).
Proof.
  split.
  - rewrite map_map. simpl. apply map_id.
  - intros k t (k' & [= -> ->] & Hk)%list_elem_of_fmap.
    destruct (tasks_pending k' Hk) as (n & Hn & Hs & _). by exists n.
Qed.

Lemma pool_inv_update g g' pool j k t t' n' :
  pool_inv g pool ->
  pool !! j = Some (k, t) ->
  (forall k', k' <> k -> dict_get k' (nodes g') = dict_get k' (nodes g)) ->
  dict_get k (nodes g') = Some n' ->
  phase_ok k t' n' ->
  pool_inv g' (<[j := (k, t')]> pool).
Proof.
  intros [Htasks Hphase] Hj Hother Hk Hok. split.
  - by rewrite (pool_insert_fst pool j k t t' Hj).
  - intros k' t'' Hin.
    apply (pool_insert_elem pool j k t t') in Hin as [[-> ->]|[Hne Hin]];
      [by exists n'| |by rewrite Htasks|done].
    rewrite (Hother k' Hne). by apply Hphase.
Qed.

Lemma assigned_store g k n node' key :
  dict_get k (nodes g) = Some n ->
  status n <> COMPLETED -> status node' <> COMPLETED ->
  assigned (store_node k node' g) tasks key <-> assigned g tasks key.
Proof.
  intros Hn Hs Hs'. unfold assigned. simpl. split.
  - intros (j & m & Hj & Hm & Hsm & Hkey). exists j, m.
    destruct (decide (k = j)) as [<-|Hne].
    + rewrite dict_get_set_eq in Hm. congruence.
    + by rewrite dict_get_set_ne in Hm.
  - intros (j & m & Hj & Hm & Hsm & Hkey). exists j, m.
    destruct (decide (k = j)) as [<-|Hne]; [congruence|].
    by rewrite dict_get_set_ne.
Qed.

(** A step of [execute_node] for the node of a task keeps the invariant of
    the state. *)
Lemma state_inv_track g st k n node' st' p :
  state_inv g st ->
  k ∈ tasks ->
  dict_get k (nodes g) = Some n ->
  status n <> COMPLETED ->
  node_frame n node' ->
  progress_spec n st node' st' p ->
  state_inv (store_node k node' g) st'.
Proof.
  intros Hinv Hk Hn Hs Hf Hp.
  pose proof (task_id g st k n Hinv Hk Hn) as Hid.
  destruct Hinv as [Hsame Hoth Hnd Hwr Hdom Hkept Hold Hout].
  assert (Hsame' : same_nodes g0 (store_node k node' g)).
  { eapply same_nodes_trans; [exact Hsame|]. by eapply same_nodes_store. }
  assert (Hoth' : forall j, j ∉ tasks ->
            dict_get j (nodes (store_node k node' g)) = dict_get j (nodes g0)).
  { intros j Hj. simpl. rewrite dict_get_set_ne by (by intros ->).
    by apply Hoth. }
  (* the steps that assign nothing *)
  assert (Hquiet : status node' <> COMPLETED ->
            context st' = context st -> written st' = written st ->
            state_inv (store_node k node' g) st').
  { intros Hs' Hc Hw. split; try done; rewrite ?Hc, ?Hw; try done.
    - intros key. rewrite Hwr. by rewrite (assigned_store g k n node' key).
    - intros j m Hj Hm Hsm. simpl in Hm.
      destruct (decide (k = j)) as [<-|Hne].
      + rewrite dict_get_set_eq in Hm. congruence.
      + rewrite dict_get_set_ne in Hm by done. by apply Hout. }
  unfold progress_spec in Hp. rewrite Hid in Hp.
  destruct p as [[[]|msg]|agent input_data call].
  - destruct Hp as [(Hs' & Hc & Hw)|(Hs' & d & m & Hc & Hw & Hres)].
    { apply Hquiet; [congruence|done|done]. }
    (* the node is completed: its two keys are assigned *)
    assert (Hfresh : forall key,
              key = output_key k \/ key = metadata_key k ->
              key ∉ written st).
    { intros key Hkey Hin. apply Hwr in Hin as [Hin|(j & m' & Hj & Hm & Hsm & Hkj)].
      - destruct (tasks_fresh k Hk). by destruct Hkey as [-> | ->].
      - assert (k = j) as <- by by eapply node_keys_inj. congruence. }
    assert (Hassigned : forall key,
              assigned (store_node k node' g) tasks key <->
              assigned g tasks key
              \/ key = output_key k \/ key = metadata_key k).
    { intros key. unfold assigned. simpl. split.
      - intros (j & m' & Hj & Hm & Hsm & Hkey).
        destruct (decide (k = j)) as [<-|Hne]; [by right|].
        rewrite dict_get_set_ne in Hm by done. left. by exists j, m'.
      - intros [(j & m' & Hj & Hm & Hsm & Hkey)|Hkey].
        + exists j, m'. destruct (decide (k = j)) as [<-|Hne]; [congruence|].
          by rewrite dict_get_set_ne.
        + exists k, node'. by rewrite dict_get_set_eq. }
    split; try done.
    + rewrite Hw. apply NoDup_app. split; [done|]. split; [|apply node_keys_NoDup].
      intros key Hin Hkey. apply (Hfresh key); [|done].
      rewrite !elem_of_cons, elem_of_nil in Hkey. tauto.
    + intros key. rewrite Hw, Hassigned, elem_of_app, Hwr.
      rewrite !elem_of_cons, elem_of_nil. tauto.
    + rewrite Hc, !dom_insert. set_solver.
    + intros key Hkey. rewrite Hw in Hkey.
      apply not_elem_of_app in Hkey as [Hk1 Hk2].
      rewrite !not_elem_of_cons in Hk2. destruct Hk2 as (? & ? & _).
      rewrite Hc, !lookup_insert_ne by done. by apply Hkept.
    + intros key Hkey.
      assert (key <> output_key k /\ key <> metadata_key k) as [? ?].
      { destruct (tasks_fresh k Hk). split; by intros ->. }
      rewrite Hc, !lookup_insert_ne by done. by apply Hold.
    + intros j m' Hj Hm Hsm. simpl in Hm.
      destruct (decide (k = j)) as [<-|Hne].
      * rewrite dict_get_set_eq in Hm. injection Hm as <-.
        rewrite Hres, Hc. split; [by eexists|].
        rewrite lookup_insert_ne
          by (intros Heq; by apply (output_key_metadata_key k k)).
        by rewrite lookup_insert_eq.
      * rewrite dict_get_set_ne in Hm by done.
        destruct (Hout j m' Hj Hm Hsm) as [Hsome Hctx]. split; [done|].
        rewrite <- Hctx, Hc.
        rewrite lookup_insert_ne
          by (intros Heq; by apply (output_key_metadata_key j k)).
        rewrite lookup_insert_ne; [done|].
        intros Heq. by apply output_key_inj in Heq.
  - destruct Hp as (Hs' & Hc & Hw). apply Hquiet; [congruence|done|done].
  - destruct Hp as (Hs' & Hc & Hw). apply Hquiet; [|done|done].
    destruct Hs'; congruence.
  - destruct Hp as (Hs' & Hc & Hw). apply Hquiet; [congruence|done|done].
Qed.

(** Every step of a task keeps both invariants. *)
Lemma gather_inv_step g st pool j e :
  state_inv g st -> pool_inv g pool ->
  pool !! j = Some e -> is_done e = false ->
  state_inv (task_step w g st e.1 e.2).1.1 (task_step w g st e.1 e.2).1.2
  /\ pool_inv (task_step w g st e.1 e.2).1.1
       (<[j := (e.1, (task_step w g st e.1 e.2).2)]> pool).
Proof.
  intros Hst Hpool Hj Hd. destruct e as [k t]. simpl in *.
  assert (Hin : (k, t) ∈ pool) by by eapply list_elem_of_lookup_2.
  assert (Hk : k ∈ tasks).
  { rewrite <- (pi_tasks _ _ Hpool). apply list_elem_of_fmap. by exists (k, t). }
  destruct (pi_phase _ _ Hpool k t Hin) as (n & Hn & Hok).
  pose proof (task_id g st k n Hst Hk Hn) as Hid.
  unfold task_step. rewrite Hn.
  assert (Hstay : forall t', phase_ok k t' n ->
            state_inv g st /\ pool_inv g (<[j := (k, t')]> pool)).
  { intros t' Hok'. split; [done|].
    by apply (pool_inv_update g g pool j k t t' n). }
  assert (Htrack : forall r,
            status n <> COMPLETED ->
            node_frame n r.1.1 ->
            progress_spec n st r.1.1 r.1.2 r.2 ->
            (forall msg, r.2 = Finished (Raise msg) -> status r.1.1 = PENDING) ->
            state_inv (track w k g r).1.1 (track w k g r).1.2
            /\ pool_inv (track w k g r).1.1
                 (<[j := (k, (track w k g r).2)]> pool)).
  { intros [[node' st'] p] Hs Hf Hp Hraise. simpl in *. split.
    - by eapply state_inv_track.
    - apply (pool_inv_update g _ pool j k t _ node'); [done|done| | |].
      + intros k' Hne. simpl. by rewrite dict_get_set_ne.
      + simpl. by rewrite dict_get_set_eq.
      + apply (track_phase k g node' st' p).
        * by rewrite (frame_id _ _ Hf).
        * unfold progress_spec in Hp.
          destruct p as [[[]|msg]|agent input_data call].
          -- destruct Hp as [(? & _)|(? & _)]; auto.
          -- by destruct Hp.
          -- by eapply Hraise.
          -- by destruct Hp. }
  destruct t as [|agent input_data call|reply|o]; simpl in *; [| | |done].
  - destruct (journal_begin w (id n)).
    { apply Hstay. by left. }
    destruct (execute_begin_spec w n st) as [Hf Hp].
    apply Htrack; [congruence|done|done|].
    intros msg Hr. rewrite Hr in Hp. simpl in Hp.
    destruct Hp as ([?|?] & _); congruence.
  - by apply Hstay.
  - destruct (execute_resume_spec w n st reply) as (Hf & Hp & Hraise).
    apply Htrack; [congruence|done|done|done].
Qed.
End Gather.

(** An invariant of the steps holds when the event loop has run all tasks
    to their end. *)
Lemma gather_loop_invariant tasks
    (I : WorkflowDAG -> ExecState -> list (string * Task) -> Prop) :
  (forall g st pool j e,
     I g st pool -> pool !! j = Some e -> is_done e = false ->
     I (task_step w g st e.1 e.2).1.1 (task_step w g st e.1 e.2).1.2
       (<[j := (e.1, (task_step w g st e.1 e.2).2)]> pool)) ->
  forall g st pool steps,
    I g st pool ->
    I (gather_loop w tasks g st pool steps).1.1
      (gather_loop w tasks g st pool steps).1.2
      (gather_loop w tasks g st pool steps).2
    /\ Forall (fun e => is_done e = true)
         (gather_loop w tasks g st pool steps).2.
Proof.
  intros Hstep g st pool steps.
  funelim (gather_loop w tasks g st pool steps);
    repeat match goal with
           | H : sigmaI _ _ _ = _ |- _ => clear H
           | H : _ = gather_loop _ _ _ _ _ _ |- _ => rewrite <- H; clear H
           end; intros HI.
  - split; [done|]. by eapply next_task_None.
  - apply next_task_Some in Hnext as (e' & He' & Hd).
    assert (e' = e) as -> by congruence.
    apply H; [done|]. by apply Hstep.
  - apply next_task_Some in Hnext as (e' & He' & Hd). congruence.
Qed.

(** The results of the tasks that have ended. *)
Lemma results_of_done (pool : list (string * Task)) :
  Forall (fun e => is_done e = true) pool ->
  map fst
    (omap (fun e => match e.2 with Done o => Some (e.1, o) | _ => None end)
          pool) = map fst pool
  /\ forall k o,
       (k, o) ∈ omap (fun e => match e.2 with
                                | Done o => Some (e.1, o)
                                | _ => None
                                end) pool
       <-> (k, Done o) ∈ pool.
Proof.
  induction 1 as [|[k t] pool Hd _ [IH1 IH2]].
  - split; [done|]. intros k o. by rewrite !elem_of_nil.
  - destruct t as [| | |o]; try done. cbn [omap list_omap]. simpl.
    split; [by f_equal|].
    intros k' o'. rewrite !elem_of_cons, IH2. naive_solver.
Qed.

(** What [asyncio.gather] leaves behind, whatever the order in which the
    event loop has run the tasks. *)
Record gather_spec (g : WorkflowDAG) (st : ExecState) (tasks : list string)
    (g' : WorkflowDAG) (st' : ExecState) (results : list (string * Outcome bool))
    : Prop := {
  gather_same : same_nodes g g';
  gather_others : forall k, k ∉ tasks ->
                    dict_get k (nodes g') = dict_get k (nodes g);
  gather_results : map fst results = tasks;
  gather_settled : forall k o, (k, o) ∈ results ->
                     exists n', dict_get k (nodes g') = Some n'
                                /\ phase_ok k (Done o) n';
  gather_nodup : NoDup (written st');
  gather_written : forall key, key ∈ written st' <->
                     key ∈ written st \/ assigned g' tasks key;
  gather_dom : dom (context st) ⊆ dom (context st');
  gather_kept : forall key, key ∉ written st' ->
                  context st' !! key = context st !! key;
  gather_kept_old : forall key, key ∈ written st ->
                      context st' !! key = context st !! key;
  gather_outputs : forall k n, k ∈ tasks -> dict_get k (nodes g') = Some n ->
                     status n = COMPLETED ->
                     is_Some (result n)
                     /\ context st' !! output_key k = result n
}.

Lemma gather_correct g st tasks :
  NoDup tasks ->
  (forall k, k ∈ tasks ->
     exists n, dict_get k (nodes g) = Some n /\ status n = PENDING /\ id n = k) ->
  (forall k, k ∈ tasks ->
     (output_key k ∉ written st) /\ (metadata_key k ∉ written st)) ->
  NoDup (written st) ->
  gather_spec g st tasks (gather w g st tasks).1.1 (gather w g st tasks).1.2
    (gather w g st tasks).2.
Proof.
  intros Hnd Hp Hfresh Hwnd. unfold gather.
  destruct (gather_loop_invariant tasks
              (fun g' st' pool =>
                 state_inv g st tasks g' st' /\ pool_inv tasks g' pool))
    with (g := g) (st := st)
         (pool := map (fun node_id => (node_id, Created)) tasks)
         (steps := 0%nat)
    as [[Hst Hpool] Hdone].
  { intros g1 st1 pool j e [Hs1 Hp1] Hj Hd.
    by apply (gather_inv_step g st tasks Hnd Hp Hfresh). }
  { split; [by apply state_inv_initial|by apply pool_inv_initial]. }
  destruct (gather_loop w tasks g st _ 0) as [[g' st'] pool]. simpl in *.
  destruct (results_of_done pool Hdone) as [Hfst Hres].
  destruct Hst as [Hsame Hoth Hwn Hwr Hdom Hkept Hold Hout].
  destruct Hpool as [Htasks Hphase].
  split; try done.
  - by rewrite Hfst.
  - intros k o Hko. apply Hres in Hko. by apply Hphase.
Qed.

(** What the loop over the results leaves behind. *)
Definition processed_node (o : Outcome bool) (n : DAGNode) : DAGNode :=
  match o with
  | Raise msg => set_error_message (Some msg) (set_status FAILED n)
  | Ret _ => n
  end.

(** The results that put a node into [failed_nodes]. *)
Definition is_failure (o : Outcome bool) : bool :=
  match o with Ret true => false | _ => true end.

Record process_spec (g : WorkflowDAG) (completed failed : gset string)
    (results : list (string * Outcome bool))
    (g' : WorkflowDAG) (completed' failed' : gset string) : Prop := {
  process_same : same_nodes g g';
  process_others : forall k, k ∉ map fst results ->
                     dict_get k (nodes g') = dict_get k (nodes g);
  process_nodes : forall k o n, (k, o) ∈ results ->
                    dict_get k (nodes g) = Some n ->
                    dict_get k (nodes g') = Some (processed_node o n);
  process_completed : forall k, k ∈ completed' <->
                        k ∈ completed \/ (k, Ret true) ∈ results;
  process_failed : forall k, k ∈ failed' <->
                     k ∈ failed
                     \/ exists o, (k, o) ∈ results /\ is_failure o = true
}.

Lemma process_result_completed g c f k o j :
  j ∈ (process_result (g, c, f) (k, o)).1.2 <-> j ∈ c \/ (j = k /\ o = Ret true).
Proof.
  unfold process_result; simpl. destruct o as [[]|msg]; simpl.
  - set_solver.
  - naive_solver.
  - destruct (dict_get k (nodes g)); simpl; naive_solver.
Qed.

Lemma process_result_failed g c f k o j :
  j ∈ (process_result (g, c, f) (k, o)).2
  <-> j ∈ f \/ (j = k /\ is_failure o = true).
Proof.
  unfold process_result; simpl. destruct o as [[]|msg]; simpl.
  - naive_solver.
  - set_solver.
  - destruct (dict_get k (nodes g)); simpl; set_solver.
Qed.

Lemma process_correct g completed failed results :
  NoDup (map fst results) ->
  (forall k, k ∈ map fst results -> k ∈ dict_keys (nodes g)) ->
  process_spec g completed failed results
    (fold_left process_result results (g, completed, failed)).1.1
    (fold_left process_result results (g, completed, failed)).1.2
    (fold_left process_result results (g, completed, failed)).2.
Proof.
  induction results as [|[k o] results IH] using rev_ind; intros Hnd Hkeys.
  - simpl. split; simpl; try done.
    + apply same_nodes_refl.
    + intros k o n ?%elem_of_nil. done.
    + intros k. split; [auto|]. by intros [?|?%elem_of_nil].
    + intros k. split; [auto|]. by intros [?|[? [?%elem_of_nil _]]].
  - rewrite map_app in Hnd, Hkeys. simpl in Hnd, Hkeys.
    apply NoDup_app in Hnd as (Hnd & Hdisj & _).
    assert (Hk : k ∉ map fst results).
    { intros Hin. apply (Hdisj k Hin). left. }
    destruct IH as [Hsame Hoth Hnodes Hcomp Hfail]; [done| |].
    { intros j Hj. apply Hkeys. apply elem_of_app. by left. }
    rewrite fold_left_app; simpl.
    destruct (fold_left process_result results (g, completed, failed))
      as [[g1 c1] f1]; simpl in *.
    destruct (dict_keys_get k (nodes g)) as [n Hn].
    { apply Hkeys. apply elem_of_app. right. left. }
    assert (Hn1 : dict_get k (nodes g1) = Some n) by by rewrite Hoth.
    assert (Hg' : exists g',
      (process_result (g1, c1, f1) (k, o)).1.1 = g'
      /\ same_nodes g1 g'
      /\ dict_get k (nodes g') = Some (processed_node o n)
      /\ forall j, j <> k -> dict_get j (nodes g') = dict_get j (nodes g1)).
    { unfold process_result; simpl. destruct o as [[]|msg]; simpl.
      - exists g1. split; [done|]. split; [apply same_nodes_refl|]. by split.
      - exists g1. split; [done|]. split; [apply same_nodes_refl|]. by split.
      - rewrite Hn1. eexists. split; [reflexivity|]. split; [|split].
        + by eapply same_nodes_store.
        + simpl. by rewrite dict_get_set_eq.
        + intros j Hj. simpl. by rewrite dict_get_set_ne. }
    destruct Hg' as (g' & Hg' & Hsame' & Hk' & Hoth').
    split.
    + rewrite Hg'. by eapply same_nodes_trans.
    + rewrite Hg'. intros j Hj. rewrite map_app in Hj.
      apply not_elem_of_app in Hj as [Hj1 Hj2].
      simpl in Hj2. rewrite not_elem_of_cons in Hj2. destruct Hj2 as [Hj2 _].
      rewrite Hoth' by done. by apply Hoth.
    + rewrite Hg'. intros j o' n' [Hj|Hj]%elem_of_app Hn'.
      * rewrite Hoth'; [by eapply Hnodes|]. intros ->. apply Hk.
        apply list_elem_of_fmap. by exists (k, o').
      * apply list_elem_of_singleton in Hj as [= -> ->]. congruence.
    + intros j. rewrite process_result_completed, Hcomp.
      rewrite elem_of_app, list_elem_of_singleton. naive_solver.
    + intros j. rewrite process_result_failed, Hfail.
      setoid_rewrite elem_of_app. setoid_rewrite list_elem_of_singleton.
      naive_solver.
Qed.

(** The invariant of the loop over the levels, for a run that starts from
    the DAG [g0] and the context [ctx0].  [recorded] tells that the two
    keys of a node have been assigned and that the output of the node is
    in the context. *)
Definition recorded (s : EngineState) (k : string) (n : DAGNode) : Prop :=
  output_key k ∈ written (exec s)
  /\ metadata_key k ∈ written (exec s)
  /\ is_Some (result n)
  /\ context (exec s) !! output_key k = result n.

Record engine_inv (g0 : WorkflowDAG) (ctx0 : gmap string pyval)
    (s : EngineState) : Prop := {
  inv_same : same_nodes g0 (dag s);
  inv_untouched : forall k, k ∉ launched s ->
                    dict_get k (nodes (dag s)) = dict_get k (nodes g0);
  inv_launched : NoDup (launched s);
  inv_pending : forall k n, k ∈ launched s ->
                  dict_get k (nodes (dag s)) = Some n ->
                  status n = COMPLETED \/ status n = SKIPPED \/ status n = FAILED;
  inv_failed : forall k, k ∈ failed_nodes s <->
                 k ∈ launched s
                 /\ exists n, dict_get k (nodes (dag s)) = Some n
                              /\ status n = FAILED;
  inv_completed : forall k, k ∈ completed_nodes s <->
                    k ∈ launched s
                    /\ exists n, dict_get k (nodes (dag s)) = Some n
                                 /\ (status n = COMPLETED \/ status n = SKIPPED);
  inv_nodup : NoDup (written (exec s));
  inv_written : forall key, key ∈ written (exec s) ->
                  exists k n, k ∈ launched s
                    /\ dict_get k (nodes (dag s)) = Some n
                    /\ (key = output_key k \/ key = metadata_key k)
                    /\ recorded s k n
                    /\ (status n = COMPLETED
                        \/ (status n = FAILED /\ is_Some (journal_end w k)));
  inv_recorded : forall k n, k ∈ launched s ->
                   dict_get k (nodes (dag s)) = Some n ->
                   status n = COMPLETED -> recorded s k n;
  inv_dom : dom ctx0 ⊆ dom (context (exec s));
  inv_kept : forall key, key ∉ written (exec s) ->
               context (exec s) !! key = ctx0 !! key
}.

Lemma engine_inv_initial g0 ctx0 :
  engine_inv g0 ctx0 (mkEngineState g0 (mkExecState ctx0 0 []) ∅ ∅ []).
Proof.
  split; simpl; try done.
  - apply same_nodes_refl.
  - apply NoDup_nil_2.
  - intros k n ?%elem_of_nil. done.
  - intros k. split; [by intros ?%elem_of_empty|by intros [?%elem_of_nil _]].
  - intros k. split; [by intros ?%elem_of_empty|by intros [?%elem_of_nil _]].
  - apply NoDup_nil_2.
  - intros key ?%elem_of_nil. done.
  - intros k n ?%elem_of_nil. done.
Qed.

Lemma is_pending_spec g k :
  is_pending g k = true <->
  exists n, dict_get k (nodes g) = Some n /\ status n = PENDING.
Proof.
  unfold is_pending. destruct (dict_get k (nodes g)) as [n|].
  - rewrite bool_decide_eq_true. naive_solver.
  - naive_solver.
Qed.

(** The node of a task after the loop over the results. *)
Lemma phase_processed k o n :
  phase_ok k (Done o) n ->
  (status (processed_node o n) = COMPLETED
   \/ status (processed_node o n) = SKIPPED
   \/ status (processed_node o n) = FAILED)
  /\ (status (processed_node o n) = FAILED <-> is_failure o = true)
  /\ (status (processed_node o n) = COMPLETED -> processed_node o n = n)
  /\ (status n = COMPLETED ->
      status (processed_node o n) = COMPLETED
      \/ (status (processed_node o n) = FAILED
          /\ is_Some (journal_end w k)))
  /\ result (processed_node o n) = result n.
Proof.
  destruct o as [[]|msg]; simpl.
  - intros [-> | ->]; naive_solver.
  - intros ->. naive_solver.
  - intros Hph. split; [auto|]. split; [done|]. split; [done|].
    split; [|done]. intros Hc.
    destruct Hph as [Hs|(Hs & Hj)]; [congruence|].
    right. split; [done|]. by rewrite Hj.
Qed.

Lemma run_level_inv g0 ctx0 s level :
  consistent g0 ->
  NoDup level ->
  engine_inv g0 ctx0 s ->
  engine_inv g0 ctx0 (run_level w s level).
Proof.
  intros Hg0 Hlevel
    [Hsame Hun Hnd Hterm Hfail Hcomp Hwnd Hwr Hrec Hdom Hkept].
  unfold run_level. set (tasks := level_nodes (dag s) level).
  assert (Htasks : NoDup tasks) by by apply NoDup_filter.
  assert (Hpend : forall k, k ∈ tasks ->
            exists n, dict_get k (nodes (dag s)) = Some n
                      /\ status n = PENDING /\ id n = k).
  { intros k [Hp _]%list_elem_of_filter.
    apply Is_true_true, is_pending_spec in Hp as (n & Hn & Hs).
    exists n. split; [done|]. split; [done|].
    destruct Hsame as [_ Hsame]. destruct (Hsame k n Hn) as (n0 & Hn0 & Hf).
    rewrite (frame_id _ _ Hf). by eapply keys_id. }
  assert (Hfresh : forall k, k ∈ tasks -> k ∉ launched s).
  { intros k Hk Hl. destruct (Hpend k Hk) as (n & Hn & Hs & _).
    destruct (Hterm k n Hl Hn) as [?|[?|?]]; congruence. }
  assert (Hfreshkeys : forall k, k ∈ tasks ->
            (output_key k ∉ written (exec s))
            /\ (metadata_key k ∉ written (exec s))).
  { intros k Hk.
    assert (forall key, key = output_key k \/ key = metadata_key k ->
                        key ∉ written (exec s)) as Hgen.
    { intros key Hkey Hin.
      destruct (Hwr key Hin) as (j & m & Hj & _ & Hkj & _).
      assert (k = j) as <- by by eapply node_keys_inj.
      by apply (Hfresh k). }
    split; apply Hgen; auto. }
  pose proof (gather_correct (dag s) (exec s) tasks Htasks Hpend Hfreshkeys Hwnd)
    as Hg.
  destruct (gather w (dag s) (exec s) tasks) as [[g1 st1] res]; simpl in *.
  destruct Hg as [Gsame Goth Gres Gset Gnd Gwr Gdom Gkept Gold Gout].
  pose proof (process_correct g1 (completed_nodes s) (failed_nodes s) res) as Hp.
  destruct Hp as [Psame Poth Pnodes Pcomp Pfail].
  { by rewrite Gres. }
  { intros k Hk. rewrite Gres in Hk. destruct (Hpend k Hk) as (n & Hn & _).
    destruct Gsame as [-> _]. by eapply dict_get_Some_keys. }
  destruct (fold_left process_result res
              (g1, completed_nodes s, failed_nodes s)) as [[g2 c2] f2];
    simpl in *.
  (* the node of a task after the level *)
  assert (Htask : forall k, k ∈ tasks ->
            exists o n1, (k, o) ∈ res /\ dict_get k (nodes g1) = Some n1
                         /\ phase_ok k (Done o) n1
                         /\ dict_get k (nodes g2) = Some (processed_node o n1)).
  { intros k Hk. rewrite <- Gres in Hk.
    apply list_elem_of_fmap in Hk as ([k' o] & -> & Hko). simpl.
    destruct (Gset k' o Hko) as (n1 & Hn1 & Hs).
    exists o, n1. split; [done|]. split; [done|]. split; [done|].
    by eapply Pnodes. }
  assert (Hres_unique : forall k o o', (k, o) ∈ res -> (k, o') ∈ res -> o = o').
  { intros k o o' H1 H2.
    assert (Hnd' : NoDup (map fst res)) by by rewrite Gres.
    apply list_elem_of_lookup in H1 as [i Hi], H2 as [j Hj].
    assert (i = j).
    { eapply NoDup_lookup; [exact Hnd'| |].
      - rewrite list_lookup_fmap, Hi. done.
      - rewrite list_lookup_fmap, Hj. done. }
    subst. congruence. }
  assert (Hold : forall k, k ∈ launched s ->
            dict_get k (nodes g2) = dict_get k (nodes (dag s))).
  { intros k Hk. rewrite Poth, Goth; [done| |].
    - intros Hin. by apply (Hfresh k).
    - rewrite Gres. intros Hin. by apply (Hfresh k). }
  (* what was recorded before the level stays recorded *)
  assert (Hrec_old : forall k n,
            recorded s k n ->
            output_key k ∈ written st1 /\ metadata_key k ∈ written st1
            /\ is_Some (result n) /\ context st1 !! output_key k = result n).
  { intros k n (Ho & Hm & Hr & Hc).
    split; [apply Gwr; by left|]. split; [apply Gwr; by left|].
    split; [done|]. by rewrite Gold. }
  (* the keys of a task whose node has been completed *)
  assert (Hrec_new : forall k n1, k ∈ tasks ->
            dict_get k (nodes g1) = Some n1 -> status n1 = COMPLETED ->
            output_key k ∈ written st1 /\ metadata_key k ∈ written st1
            /\ is_Some (result n1) /\ context st1 !! output_key k = result n1).
  { intros k n1 Hk Hn1 Hs1.
    split; [apply Gwr; right; exists k, n1; auto|].
    split; [apply Gwr; right; exists k, n1; auto|].
    by apply Gout. }
  split; simpl.
  - eapply same_nodes_trans; [exact Hsame|].
    eapply same_nodes_trans; [exact Gsame|exact Psame].
  - intros k [Hk1 Hk2]%not_elem_of_app.
    rewrite Poth, Goth by (by rewrite ?Gres). by apply Hun.
  - apply NoDup_app. split; [done|]. split; [|done].
    intros k Hk Hk'. by apply (Hfresh k).
  - intros k n [Hk|Hk]%elem_of_app Hn.
    + rewrite Hold in Hn by done. by eapply Hterm.
    + destruct (Htask k Hk) as (o & n1 & _ & _ & Hs & Hn2).
      rewrite Hn2 in Hn. injection Hn as <-.
      by destruct (phase_processed k o n1 Hs) as (? & _).
  - intros k. rewrite Pfail, Hfail, elem_of_app. split.
    + intros [(Hk & n & Hn & Hs)|(o & Hko & Ho)].
      * split; [by left|]. exists n. by rewrite Hold.
      * assert (Hk : k ∈ tasks).
        { rewrite <- Gres. apply list_elem_of_fmap. by exists (k, o). }
        split; [by right|].
        destruct (Htask k Hk) as (o' & n1 & Hko' & _ & Hs & Hn2).
        rewrite (Hres_unique k o o' Hko Hko') in Ho.
        exists (processed_node o' n1). split; [done|].
        by apply (phase_processed k o' n1 Hs).
    + intros ([Hk|Hk] & n & Hn & Hs).
      * left. split; [done|]. exists n. by rewrite <- Hold.
      * right. destruct (Htask k Hk) as (o & n1 & Hko & _ & Hs1 & Hn2).
        exists o. split; [done|]. rewrite Hn2 in Hn. injection Hn as <-.
        by apply (phase_processed k o n1 Hs1).
  - intros k. rewrite Pcomp, Hcomp, elem_of_app. split.
    + intros [(Hk & n & Hn & Hs)|Hko].
      * split; [by left|]. exists n. by rewrite Hold.
      * assert (Hk : k ∈ tasks).
        { rewrite <- Gres. apply list_elem_of_fmap. by exists (k, Ret true). }
        split; [by right|].
        destruct (Htask k Hk) as (o' & n1 & Hko' & _ & Hs & Hn2).
        rewrite <- (Hres_unique k _ o' Hko Hko') in Hs, Hn2. simpl in *.
        exists n1. split; [done|]. tauto.
    + intros ([Hk|Hk] & n & Hn & Hs).
      * left. split; [done|]. exists n. by rewrite <- Hold.
      * right. destruct (Htask k Hk) as (o & n1 & Hko & _ & Hs1 & Hn2).
        rewrite Hn2 in Hn. injection Hn as <-.
        destruct o as [[]|msg]; simpl in *; [done| |];
          destruct Hs; congruence.
  - done.
  - intros key [Hin|(k & n1 & Hk & Hn1 & Hs1 & Hkey)]%Gwr.
    + destruct (Hwr key Hin) as (k & n & Hk & Hn & Hkey & Hr & Hs).
      exists k, n. split; [apply elem_of_app; by left|].
      split; [by rewrite Hold|]. split; [done|]. split; [|done].
      by apply Hrec_old.
    + destruct (Htask k Hk) as (o & n1' & _ & Hn1' & Hph & Hn2).
      assert (n1' = n1) as -> by congruence.
      destruct (phase_processed k o n1 Hph) as (_ & _ & _ & Hc & Hres).
      exists k, (processed_node o n1). split; [apply elem_of_app; by right|].
      split; [done|]. split; [done|]. split; [|by apply Hc].
      unfold recorded; simpl. rewrite Hres. by apply Hrec_new.
  - intros k n [Hk|Hk]%elem_of_app Hn Hs.
    + rewrite Hold in Hn by done. apply Hrec_old. by apply Hrec.
    + destruct (Htask k Hk) as (o & n1 & _ & Hn1 & Hph & Hn2).
      rewrite Hn2 in Hn. injection Hn as <-.
      destruct (phase_processed k o n1 Hph) as (_ & _ & Heq & _).
      pose proof (Heq Hs) as Hpn. rewrite Hpn in Hs |- *.
      unfold recorded; simpl. by apply Hrec_new.
  - set_solver.
  - intros key Hkey.
    rewrite Gkept by done. apply Hkept. intros Hin. apply Hkey.
    apply Gwr. by left.
Qed.

Lemma run_levels_inv g0 ctx0 levels s :
  consistent g0 ->
  Forall (fun level => NoDup level) levels ->
  engine_inv g0 ctx0 s ->
  engine_inv g0 ctx0 (fold_left (run_level w) levels s).
Proof.
  intros Hg0 Hl. revert s.
  induction Hl as [|level levels Hnd _ IH]; intros s Hs; simpl; [done|].
  apply IH. by apply run_level_inv.
Qed.

Lemma fold_add_node_elem l g k n :
  dict_get k (nodes (fold_left add_node l g)) = Some n ->
  n ∈ l \/ dict_get k (nodes g) = Some n.
Proof.
  revert g. induction l as [|m l IH]; intros g; simpl; [auto|].
  intros [Hn|Hn]%IH; [left; by right|].
  simpl in Hn. destruct (decide (id m = k)) as [<-|Hne].
  - rewrite dict_get_set_eq in Hn. injection Hn as <-. left. left.
  - rewrite dict_get_set_ne in Hn by done. by right.
Qed.

Lemma WorkflowDAG_init_elem ns k n :
  dict_get k (nodes (WorkflowDAG_init ns)) = Some n -> n ∈ ns.
Proof. by intros [?|?]%fold_add_node_elem. Qed.

(** A run that gets its plan starts from nodes that are all [PENDING],
    and the levels of the plan have no repeated node. *)
Lemma execution_order_pending g levels :
  consistent g ->
  get_execution_order (set_order w) g = Ret levels ->
  Forall (fun level => NoDup level) levels
  /\ concat levels ≡ₚ dict_keys (nodes g)
  /\ forall k n, dict_get k (nodes g) = Some n -> status n = PENDING.
Proof.
  intros Hg Hl. unfold get_execution_order in Hl.
  destruct (validate g); [|done]. simpl in Hl.
  apply levels_loop_levels_of in Hl.
  destruct (levels_of_NoDup _ _ _ _ Hl (keys_NoDup _ Hg)) as [Hnd Hperm].
  split; [done|]. split; [done|].
  intros k n Hn.
  assert (Hk : k ∈ concat levels).
  { rewrite Hperm. by eapply dict_get_Some_keys. }
  apply list_elem_of_In, in_concat in Hk as (level & Hlevel & Hk).
  apply list_elem_of_In in Hlevel, Hk.
  apply list_elem_of_lookup in Hlevel as [i Hi].
  destruct (levels_of_ready _ _ _ _ _ _ _ Hl Hi Hk) as [_ Hr].
  unfold node_ready in Hr. rewrite Hn in Hr. unfold can_execute in Hr.
  destruct (bool_decide (status n = PENDING)) eqn:Hs; [|done].
  by apply bool_decide_eq_true in Hs.
Qed.

Lemma execute_dag_inv g ctx s b :
  consistent g ->
  _execute_dag w g ctx = (s, Ret b) ->
  engine_inv g ctx s
  /\ (forall k n, dict_get k (nodes g) = Some n -> status n = PENDING)
  /\ b = bool_decide (size (failed_nodes s) = 0%nat)
          || negb (critical_failed (dag s) (failed_nodes s)).
Proof.
  intros Hg. unfold _execute_dag.
  destruct (get_execution_order (set_order w) g) as [levels|] eqn:Hl; [|done].
  destruct (execution_order_pending g levels Hg Hl) as (Hnd & _ & Hp).
  intros [= <- <-]. split; [|by split].
  apply run_levels_inv; [done|done|apply engine_inv_initial].
Qed.

Lemma critical_failed_spec g failed :
  critical_failed g failed = true <->
  exists k n, k ∈ failed /\ dict_get k (nodes g) = Some n
              /\ is_optional n = false.
Proof.
  unfold critical_failed. rewrite existsb_exists. split.
  - intros (k & Hk%list_elem_of_In%elem_of_elements & Hc).
    apply andb_true_iff in Hc as [_ Hc].
    destruct (dict_get k (nodes g)) as [n|] eqn:Hn; [|done].
    exists k, n. split; [done|]. split; [done|]. by apply negb_true_iff.
  - intros (k & n & Hk & Hn & Ho). exists k. split.
    + by apply list_elem_of_In, elem_of_elements.
    + rewrite Hn, Ho. by rewrite bool_decide_true.
Qed.

(** C3, as amended.  When [_execute_dag] returns, it returns [True] (the
    workflow is recorded as [completed]) if and only if no node is [FAILED]
    or the [optional] condition of every [FAILED] node is a value that
    Python counts as true: [True], a number other than 0, a string, list or
    dictionary that is not empty.  Otherwise, and when [_execute_dag]
    raises, the workflow is recorded as [failed]. *)
Theorem execute_dag_success_iff ns ctx s b :
  _execute_dag w (WorkflowDAG_init ns) ctx = (s, Ret b) ->
  (b = true <->
     (forall k n, dict_get k (nodes (dag s)) = Some n -> status n <> FAILED)
     \/ (forall k n, dict_get k (nodes (dag s)) = Some n -> status n = FAILED ->
           truthy (default (PBool false)
                     (dict_get "optional" (conditions n))) = true))
  /\ (workflow_status (Ret b) = "completed" <-> b = true)
  /\ (workflow_status (Ret b) = "failed" <-> b = false)
  /\ (forall msg, workflow_status (Raise msg) = "failed").
Proof.
  intros Hrun.
  pose proof (WorkflowDAG_init_consistent ns) as Hg.
  destruct (execute_dag_inv _ _ _ _ Hg Hrun) as (Hinv & Hpend & ->).
  destruct Hinv as [Hsame Hun _ _ Hfail _ _ _ _ _ _].
  assert (Hlaunched : forall k n, dict_get k (nodes (dag s)) = Some n ->
            status n = FAILED -> k ∈ failed_nodes s).
  { intros k n Hn Hs. apply Hfail.
    destruct (decide (k ∈ launched s)) as [|Hnl]; [by eauto|].
    rewrite (Hun k Hnl) in Hn. apply Hpend in Hn. congruence. }
  split; [|split; [|split]].
  - rewrite orb_true_iff, bool_decide_eq_true, negb_true_iff. split.
    + intros [Hz|Hc].
      * left. intros k n Hn Hs. apply size_empty_inv in Hz.
        apply (Hlaunched k n Hn) in Hs. set_solver.
      * right. intros k n Hn Hs.
        change (is_optional n = true).
        destruct (is_optional n) eqn:Ho; [done|].
        assert (critical_failed (dag s) (failed_nodes s) = true); [|congruence].
        apply critical_failed_spec. exists k, n. eauto.
    + intros [Hno|Hall].
      * left. apply size_empty_iff, elem_of_equiv_empty. intros k Hk.
        apply Hfail in Hk as (_ & n & Hn & Hs). by apply (Hno k n).
      * right. apply not_true_is_false.
        intros (k & n & Hk & Hn & Ho)%critical_failed_spec.
        apply Hfail in Hk as (_ & n' & Hn' & Hs).
        assert (n' = n) as -> by congruence.
        specialize (Hall k n Hn Hs). unfold is_optional in Ho. congruence.
  - destruct (_ || _); simpl; split; (done || discriminate).
  - destruct (_ || _); simpl; split; (done || discriminate).
  - done.
Qed.

(** C9.  In a run of [_execute_dag], whatever the order in which the
    event loop runs the tasks of a level: no node is launched twice and no
    context key is assigned twice.  Every key that is assigned is one of
    the two keys [node_<id>_output] and [node_<id>_metadata] of a launched
    node that [execute_node] has completed, and then both are assigned; at
    the end that node is [COMPLETED], unless the closing journal
    transaction of its task has raised, in which case the engine has
    marked it [FAILED] after its completion.  When the run returns, the two
    keys of every [COMPLETED] node have been assigned.  Nothing is assigned
    for a node that is skipped or that has failed in the executor.  The
    keys of the context only grow, and a key that has not been assigned
    keeps its value.  In the executor, the step of [execute_node] that sets
    a node [COMPLETED] assigns the two keys of the node, and every other
    step, to the call of the agent or to the end, assigns nothing. *)
Theorem context_keys_written_once ns ctx s r :
  _execute_dag w (WorkflowDAG_init ns) ctx = (s, r) ->
  NoDup (launched s)
  /\ NoDup (written (exec s))
  /\ (forall key, key ∈ written (exec s) ->
        exists k n,
          k ∈ launched s
          /\ dict_get k (nodes (dag s)) = Some n
          /\ (key = output_key k \/ key = metadata_key k)
          /\ output_key k ∈ written (exec s)
          /\ metadata_key k ∈ written (exec s)
          /\ (status n = COMPLETED
              \/ (status n = FAILED /\ is_Some (journal_end w k))))
  /\ (forall b, r = Ret b ->
        forall k n, dict_get k (nodes (dag s)) = Some n ->
          status n = COMPLETED ->
          output_key k ∈ written (exec s)
          /\ metadata_key k ∈ written (exec s))
  /\ (forall k n, dict_get k (nodes (dag s)) = Some n ->
        status n = SKIPPED \/ (status n = FAILED /\ journal_end w k = None) ->
        (output_key k ∉ written (exec s))
        /\ (metadata_key k ∉ written (exec s)))
  /\ dom ctx ⊆ dom (context (exec s))
  /\ (forall key, key ∉ written (exec s) ->
        context (exec s) !! key = ctx !! key)
  /\ (forall node st,
        written (execute_begin w node st).1.2 = written st
        /\ (status (execute_begin w node st).1.1 = COMPLETED ->
            status node = COMPLETED))
  /\ (forall node st reply,
        (status (execute_resume w node st reply).1.1 = COMPLETED
         /\ written (execute_resume w node st reply).1.2
            = written st ++ [output_key (id node); metadata_key (id node)])
        \/ (status (execute_resume w node st reply).1.1 <> COMPLETED
            /\ written (execute_resume w node st reply).1.2 = written st)).
Proof.
  intros Hrun.
  assert (Hsteps :
    (forall node st,
        written (execute_begin w node st).1.2 = written st
        /\ (status (execute_begin w node st).1.1 = COMPLETED ->
            status node = COMPLETED))
    /\ (forall node st reply,
          (status (execute_resume w node st reply).1.1 = COMPLETED
           /\ written (execute_resume w node st reply).1.2
              = written st ++ [output_key (id node); metadata_key (id node)])
          \/ (status (execute_resume w node st reply).1.1 <> COMPLETED
              /\ written (execute_resume w node st reply).1.2 = written st))).
  { split.
    - intros node st. by destruct (execute_begin_writes w node st) as (? & _ & ?).
    - intros node st reply.
      destruct (execute_resume_writes w node st reply) as [?|(? & ? & _)]; auto. }
  cut (NoDup (launched s)
       /\ NoDup (written (exec s))
       /\ (forall key, key ∈ written (exec s) ->
             exists k n,
               k ∈ launched s
               /\ dict_get k (nodes (dag s)) = Some n
               /\ (key = output_key k \/ key = metadata_key k)
               /\ output_key k ∈ written (exec s)
               /\ metadata_key k ∈ written (exec s)
               /\ (status n = COMPLETED
                   \/ (status n = FAILED /\ is_Some (journal_end w k))))
       /\ (forall b, r = Ret b ->
             forall k n, dict_get k (nodes (dag s)) = Some n ->
               status n = COMPLETED ->
               output_key k ∈ written (exec s)
               /\ metadata_key k ∈ written (exec s))
       /\ (forall k n, dict_get k (nodes (dag s)) = Some n ->
             status n = SKIPPED \/ (status n = FAILED /\ journal_end w k = None) ->
             (output_key k ∉ written (exec s))
             /\ (metadata_key k ∉ written (exec s)))
       /\ dom ctx ⊆ dom (context (exec s))
       /\ (forall key, key ∉ written (exec s) ->
             context (exec s) !! key = ctx !! key)).
  { intros (H1 & H2 & H3 & H4 & H5 & H6 & H7). destruct Hsteps as [H8 H9].
    repeat (split; [assumption|]). exact H9. }
  clear Hsteps.
  pose proof (WorkflowDAG_init_consistent ns) as Hg.
  destruct r as [b|msg].
  - destruct (execute_dag_inv _ _ _ _ Hg Hrun) as (Hinv & Hpend & _).
    destruct Hinv as [Hsame Hun Hnd _ _ _ Hwnd Hwr Hrec Hdom Hkept].
    split; [done|]. split; [done|]. split; [|split; [|split; [|by split]]].
    + intros key Hin.
      destruct (Hwr key Hin) as (k & n & Hk & Hn & Hkey & (Ho & Hm & _) & Hs).
      exists k, n. auto 10.
    + intros _ _ k n Hn Hs.
      assert (Hk : k ∈ launched s).
      { destruct (decide (k ∈ launched s)) as [|Hnl]; [done|].
        rewrite (Hun k Hnl) in Hn. apply Hpend in Hn. congruence. }
      destruct (Hrec k n Hk Hn Hs) as (Ho & Hm & _). by split.
    + intros k n Hn Hs.
      assert (Hgen : forall key,
                key = output_key k \/ key = metadata_key k ->
                key ∉ written (exec s)).
      { intros key Hkey Hin.
        destruct (Hwr key Hin) as (j & m & _ & Hm & Hkj & _ & Hsm).
        assert (k = j) as <- by by eapply node_keys_inj.
        assert (m = n) as -> by congruence.
        destruct Hs as [Hs|[Hs Hj]], Hsm as [Hsm|[Hsm Hj']]; try congruence.
        rewrite Hj in Hj'. by apply is_Some_None in Hj'. }
      split; apply Hgen; auto.
  - unfold _execute_dag in Hrun.
    destruct (get_execution_order _ _); [done|]. injection Hrun as <- _.
    simpl. split; [apply NoDup_nil_2|]. split; [apply NoDup_nil_2|].
    split; [by intros key ?%elem_of_nil|]. split; [done|].
    split; [|done]. intros k n _ _. split; apply not_elem_of_nil.
Qed.
End EngineProperties.

(** ** A task that runs alone *)

Section TaskAlone.
Import Dag Executor Engine.
Variables (w : World) (k : string).

Lemma store_node_twice node node' g :
  store_node k node' (store_node k node g) = store_node k node' g.
Proof.
  unfold store_node; simpl. f_equal.
  induction (nodes g) as [|[k' v] d IH]; simpl.
  - by rewrite decide_True.
  - destruct (decide (k = k')) as [->|Hne]; simpl.
    + by rewrite decide_True.
    + by rewrite decide_False, IH.
Qed.

(** The steps of the task of the node stored under [k], when the event
    loop runs no other task between them. *)
Inductive runs_alone
  : WorkflowDAG * ExecState * Task -> WorkflowDAG * ExecState * Outcome bool
    -> Prop :=
| runs_alone_done g st o : runs_alone (g, st, Done o) (g, st, o)
| runs_alone_step g st t r :
    is_done (k, t) = false ->
    runs_alone (task_step w g st k t) r ->
    runs_alone (g, st, t) r.

(** The closing transaction of [_execute_node_with_tracking]. *)
Definition closing (node : DAGNode) (o : Outcome bool) : Outcome bool :=
  match o with
  | Ret success =>
      match journal_end w (id node) with
      | Some msg => Raise msg
      | None => Ret success
      end
  | Raise msg => Raise msg
  end.

Lemma track_alone p r :
  completes w p r ->
  forall g,
    runs_alone (track w k g p) (store_node k r.1.1 g, r.1.2, closing r.1.1 r.2).
Proof.
  induction 1 as [node st o|node st agent input_data call r Hc IH]; intros g.
  - unfold track; simpl. destruct o as [b|msg]; simpl; [|constructor].
    destruct (journal_end w (id node)); constructor.
  - unfold track; simpl.
    apply runs_alone_step; [done|].
    unfold task_step; simpl. rewrite dict_get_set_eq.
    apply runs_alone_step; [done|].
    unfold task_step; simpl. rewrite dict_get_set_eq.
    specialize (IH (store_node k node g)).
    by rewrite store_node_twice in IH.
Qed.

(** A task that nothing interrupts does what
    [_execute_node_with_tracking], read from its first statement to its
    last, does. *)
Lemma tracking_alone g st node :
  dict_get k (nodes g) = Some node ->
  runs_alone (g, st, Created)
    (match journal_begin w (id node) with
     | Some _ => g
     | None => store_node k (_execute_node_with_tracking w node st).1.1 g
     end,
     (_execute_node_with_tracking w node st).1.2,
     (_execute_node_with_tracking w node st).2).
Proof.
  intros Hk. apply runs_alone_step; [done|].
  unfold task_step, _execute_node_with_tracking. rewrite Hk.
  destruct (journal_begin w (id node)); [constructor|].
  pose proof (track_alone _ _ (execute_node_steps w node st) g) as H.
  destruct (execute_node w node st) as [[node' st'] [b|msg]]; simpl in *.
  - by destruct (journal_end w (id node')).
  - done.
Qed.
End TaskAlone.

(** ** Finite acyclic graphs *)

Section Acyclic.
Context {A : Type} `{EqDecision A}.
Variable E : A -> list A.

(** [x] depends on [y]. *)
Definition edge (x y : A) : Prop := y ∈ E x.

(** No node reaches itself along one or more dependencies. *)
Definition no_cycle : Prop := forall x, ~ tc edge x x.

(** [l] lists the nodes met on a walk that leaves [x]. *)
Fixpoint walk (x : A) (l : list A) : Prop :=
  match l with
  | [] => True
  | y :: l' => edge x y /\ walk y l'
  end.

Lemma walk_tc x l y l' : walk x (l ++ y :: l') -> tc edge x y.
Proof.
  revert x. induction l as [|z l IH]; intros x; simpl.
  - intros [Hxy _]. by apply tc_once.
  - intros [Hxz Hw]. eapply tc_l; [exact Hxz|]. by apply IH.
Qed.

Lemma walk_app x l y l' : walk x (l ++ y :: l') -> walk y l'.
Proof.
  revert x. induction l as [|z l IH]; intros x; simpl; [tauto|].
  intros [_ Hw]. by eapply IH.
Qed.

Lemma not_NoDup_split (l : list A) :
  ~ NoDup l -> exists l1 x l2 l3, l = l1 ++ x :: l2 ++ x :: l3.
Proof.
  induction l as [|x l IH]; intros Hn.
  - destruct Hn. apply NoDup_nil_2.
  - destruct (decide (x ∈ l)) as [Hin|Hnin].
    + apply list_elem_of_split in Hin as (l2 & l3 & ->).
      by exists [], x, l2, l3.
    + destruct IH as (l1 & y & l2 & l3 & ->).
      { intros Hnd. apply Hn. by apply NoDup_cons. }
      by exists (x :: l1), y, l2, l3.
Qed.

Lemma walk_extend (R : list A) :
  (forall k, k ∈ R -> exists d, d ∈ E k /\ d ∈ R) ->
  forall n k, k ∈ R ->
    exists l, length l = n /\ Forall (fun x => x ∈ R) l /\ walk k l.
Proof.
  intros Hnext. induction n as [|n IH]; intros k Hk.
  - by exists [].
  - destruct (Hnext k Hk) as (d & Hd & HdR).
    destruct (IH d HdR) as (l & Hlen & Hall & Hw).
    exists (d :: l). simpl. split; [by rewrite Hlen|]. split; [by constructor|done].
Qed.

(** In an acyclic graph every non-empty finite set of nodes has a node
    none of whose dependencies lies in the set. *)
Lemma acyclic_minimal (R : list A) :
  no_cycle -> R <> [] ->
  exists k, k ∈ R /\ forall d, d ∈ E k -> d ∉ R.
Proof.
  intros Hac Hne.
  destruct (decide (Exists (fun k => Forall (fun d => d ∉ R) (E k)) R))
    as [Hex|Hnex].
  - apply Exists_exists in Hex as (k & Hk & Hall).
    exists k. split; [done|]. intros d Hd.
    rewrite Forall_forall in Hall. by apply Hall.
  - exfalso.
    assert (Hnext : forall k, k ∈ R -> exists d, d ∈ E k /\ d ∈ R).
    { intros k Hk.
      destruct (decide (Exists (fun d => d ∈ R) (E k))) as [He|He].
      - apply Exists_exists in He as (d & ? & ?). by exists d.
      - destruct Hnex. apply Exists_exists. exists k. split; [done|].
        apply Forall_forall. intros d Hd HdR. apply He.
        apply Exists_exists. by exists d. }
    destruct R as [|k0 R']; [done|].
    destruct (walk_extend _ Hnext (S (length (k0 :: R'))) k0) as (l & Hlen & Hall & Hw);
      [left|].
    destruct (not_NoDup_split l) as (l1 & x & l2 & l3 & ->).
    { intros Hnd.
      assert (length l <= length (k0 :: R'))%nat; [|lia].
      apply submseteq_length, NoDup_submseteq; [done|].
      by apply Forall_forall. }
    apply (Hac x). apply walk_app in Hw. by eapply walk_tc.
Qed.
End Acyclic.

(** ** The execution plan of a valid DAG *)

Section ExecutionOrder.
Import Dag.
Variable ord : SetOrder.

(** The dependency list of the node stored under [k]. *)
Definition deps_of (g : WorkflowDAG) (k : string) : list string :=
  match dict_get k (nodes g) with
  | Some n => dependencies n
  | None => []
  end.

(** The dependency graph has no cycle. *)
Definition acyclic (g : WorkflowDAG) : Prop := no_cycle (deps_of g).

(** Every dependency id is the id of a node of the DAG. *)
Definition dependencies_declared (g : WorkflowDAG) : Prop :=
  forall k d, d ∈ deps_of g k -> d ∈ dict_keys (nodes g).

Lemma node_ready_spec g completed k :
  node_ready g completed k = true <->
  exists n, dict_get k (nodes g) = Some n /\ status n = PENDING
            /\ forall d, d ∈ dependencies n -> d ∈ completed.
Proof.
  unfold node_ready, can_execute.
  destruct (dict_get k (nodes g)) as [n|]; [|naive_solver].
  case_bool_decide as Hs; simpl.
  - rewrite forallb_forall. split.
    + intros Hall. exists n. split; [done|]. split; [done|].
      intros d Hd%list_elem_of_In%Hall. by apply bool_decide_eq_true in Hd.
    + intros (? & [= <-] & _ & Hall) d Hd%list_elem_of_In.
      apply bool_decide_eq_true. by apply Hall.
  - split; [done|]. intros (? & [= <-] & ? & _). done.
Qed.

(** The call returns. *)
Definition returns {T : Type} (o : Outcome T) : Prop :=
  match o with Ret _ => True | Raise _ => False end.

Lemma levels_loop_total g :
  (forall k n, dict_get k (nodes g) = Some n -> status n = PENDING) ->
  acyclic g ->
  dependencies_declared g ->
  forall remaining completed,
    (forall k, k ∈ remaining -> k ∈ dict_keys (nodes g)) ->
    (forall k, k ∈ dict_keys (nodes g) -> k ∈ remaining \/ k ∈ completed) ->
    returns (levels_loop ord g remaining completed).
Proof.
  intros Hpend Hac Hdecl remaining.
  remember (length remaining) as m eqn:Hm. revert remaining Hm.
  induction (lt_wf m) as [m _ IH]; intros remaining -> completed Hsub Hcover.
  rewrite levels_loop_body.
  destruct remaining as [|r rs] eqn:Hrem; [done|]. rewrite <- Hrem in *.
  assert (Hne : remaining <> []) by (by rewrite Hrem).
  destruct (acyclic_minimal (deps_of g) remaining Hac Hne) as (k & Hk & Hmin).
  assert (Hready : node_ready g completed k = true).
  { destruct (dict_keys_get k (nodes g) (Hsub k Hk)) as [n Hn].
    apply node_ready_spec. exists n. split; [done|]. split; [by eapply Hpend|].
    intros d Hd.
    assert (Hd' : d ∈ deps_of g k) by (unfold deps_of; by rewrite Hn).
    destruct (Hcover d (Hdecl k d Hd')) as [Hr|Hc]; [|done].
    by destruct (Hmin d Hd'). }
  destruct (filter _ (enum ord remaining)) as [|c cs] eqn:Hlevel.
  { exfalso. eapply (filter_nil_not_elem_of _ _ k Hlevel).
    - by rewrite Hready.
    - by rewrite (enum_perm ord). }
  cbv zeta.
  assert (Hlev : forall x, x ∈ c :: cs ->
            x ∈ remaining /\ node_ready g completed x = true).
  { intros x Hx. rewrite <- Hlevel in Hx.
    apply list_elem_of_filter in Hx as [Hx1 Hx2].
    rewrite (enum_perm ord) in Hx2. split; [done|].
    by destruct (node_ready g completed x). }
  assert (Hrec : returns (levels_loop ord g
                    (filter (fun node_id => node_id ∉ c :: cs) remaining)
                    (completed ∪ list_to_set (c :: cs)))).
  2:{ by destruct (levels_loop ord g _ _). }
  eapply IH; [|reflexivity| |].
  - apply (length_filter_lt _ _ c); [by apply Hlev; left|].
    intros Hn; apply Hn; left.
  - intros x [_ Hx]%list_elem_of_filter. by apply Hsub.
  - intros x Hx. destruct (decide (x ∈ c :: cs)) as [Hin|Hnin].
    + right. apply elem_of_union. right. by apply elem_of_list_to_set.
    + destruct (Hcover x Hx) as [Hr|Hc].
      * left. by apply list_elem_of_filter.
      * right. apply elem_of_union. by left.
Qed.

(** C6.  For a validated acyclic DAG whose nodes are all [PENDING],
    [get_execution_order] returns levels that partition the node ids
    (every id is in exactly one level); the first level contains exactly
    the nodes with no dependencies; and every dependency of a node of a
    level lies in an earlier level, so none lies in its own level or in a
    later one. *)
Theorem execution_order_levels ns :
  validate (WorkflowDAG_init ns) = true ->
  dependencies_declared (WorkflowDAG_init ns) ->
  acyclic (WorkflowDAG_init ns) ->
  Forall (fun n => status n = PENDING) ns ->
  exists levels,
    get_execution_order ord (WorkflowDAG_init ns) = Ret levels
    /\ NoDup (concat levels)
    /\ (forall k, k ∈ concat levels <-> k ∈ dict_keys (nodes (WorkflowDAG_init ns)))
    /\ Forall (fun level => level <> []) levels
    /\ (forall level k,
          levels !! 0%nat = Some level ->
          k ∈ level <-> exists n, dict_get k (nodes (WorkflowDAG_init ns)) = Some n
                                  /\ dependencies n = [])
    /\ (forall i level k n d,
          levels !! i = Some level -> k ∈ level ->
          dict_get k (nodes (WorkflowDAG_init ns)) = Some n ->
          d ∈ dependencies n ->
          exists j earlier, (j < i)%nat /\ levels !! j = Some earlier /\ d ∈ earlier)
    /\ (forall i j level later k n d,
          levels !! i = Some level -> k ∈ level ->
          dict_get k (nodes (WorkflowDAG_init ns)) = Some n ->
          d ∈ dependencies n ->
          (i <= j)%nat -> levels !! j = Some later -> d ∉ later).
Proof.
  set (g := WorkflowDAG_init ns).
  intros Hval Hdecl Hac Hpend.
  pose proof (WorkflowDAG_init_consistent ns) as Hg. fold g in Hg.
  assert (Hpend' : forall k n, dict_get k (nodes g) = Some n -> status n = PENDING).
  { intros k n Hn%WorkflowDAG_init_elem. rewrite Forall_forall in Hpend. auto. }
  pose proof (levels_loop_total g Hpend' Hac Hdecl (dict_keys (nodes g)) ∅)
    as Hret.
  destruct (levels_loop ord g (dict_keys (nodes g)) ∅) as [levels|] eqn:Hlevels.
  2:{ destruct Hret; [done|by left]. }
  clear Hret.
  exists levels.
  assert (Hgo : get_execution_order ord g = Ret levels).
  { unfold get_execution_order. by rewrite Hval. }
  split; [done|].
  apply levels_loop_levels_of in Hlevels.
  destruct (levels_of_NoDup _ _ _ _ Hlevels (keys_NoDup _ Hg)) as [_ Hperm].
  assert (Hnd : NoDup (concat levels)).
  { rewrite Hperm. apply (keys_NoDup _ Hg). }
  assert (Hearlier : forall i level k n d,
            levels !! i = Some level -> k ∈ level ->
            dict_get k (nodes g) = Some n -> d ∈ dependencies n ->
            exists j earlier, (j < i)%nat /\ levels !! j = Some earlier
                              /\ d ∈ earlier).
  { intros i level k n d Hi Hk Hn Hd.
    destruct (levels_of_ready _ _ _ _ _ _ _ Hlevels Hi Hk) as [_ Hr].
    apply node_ready_spec in Hr as (n' & Hn' & _ & Hall).
    assert (n' = n) as -> by congruence.
    specialize (Hall d Hd). rewrite union_empty_l_L in Hall.
    apply elem_of_list_to_set, list_elem_of_In, in_concat in Hall
      as (earlier & He & Hde).
    apply list_elem_of_In, list_elem_of_lookup in He as [j Hj].
    apply lookup_take_Some in Hj as [Hj Hlt].
    exists j, earlier. split; [done|]. split; [done|]. by apply list_elem_of_In. }
  split; [done|]. split; [by intros k; rewrite Hperm|].
  split; [|split; [|split; [done|]]].
  - clear -Hlevels. induction Hlevels; by constructor.
  - intros level k H0. split.
    + intros Hk. destruct (levels_of_ready _ _ _ _ _ _ _ Hlevels H0 Hk) as [_ Hr].
      apply node_ready_spec in Hr as (n & Hn & _ & Hall).
      exists n. split; [done|]. simpl in Hall.
      destruct (dependencies n) as [|d ds]; [done|].
      specialize (Hall d). rewrite union_empty_l_L in Hall.
      assert (Hd : d ∈ (∅ : gset string)) by (apply Hall; left).
      by apply elem_of_empty in Hd.
    + intros (n & Hn & Hdeps).
      eapply (levels_of_complete g _ _ _ 0%nat); [exact Hlevels|done| | |].
      * by eapply dict_get_Some_keys.
      * simpl. apply not_elem_of_nil.
      * apply node_ready_spec. exists n. split; [done|].
        split; [by eapply Hpend'|].
        rewrite Hdeps. by intros d ?%elem_of_nil.
  - intros i j level later k n d Hi Hk Hn Hd Hij Hj Hdl.
    destruct (Hearlier i level k n d Hi Hk Hn Hd) as (j' & earlier & Hlt & Hj' & Hde).
    assert (j' <> j) by lia.
    clear -Hnd Hj Hj' Hdl Hde H.
    revert j j' Hj Hj' H. induction levels as [|l ls IH]; intros j j' Hj Hj' Hne; [done|].
    simpl in Hnd. apply NoDup_app in Hnd as (_ & Hdisj & Hnd').
    destruct j as [|j], j' as [|j']; simpl in *; try done.
    + injection Hj as ->. apply (Hdisj d Hdl).
      apply list_elem_of_In, in_concat. exists earlier.
      split; apply list_elem_of_In; [by eapply list_elem_of_lookup_2|done].
    + injection Hj' as ->. apply (Hdisj d Hde).
      apply list_elem_of_In, in_concat. exists later.
      split; apply list_elem_of_In; [by eapply list_elem_of_lookup_2|done].
    + apply (IH Hnd' j j'); [done|done|]. intros ->. by apply Hne.
Qed.
End ExecutionOrder.

Section EngineExamples.
Import Dag Executor Engine Examples.

(** A failing node A and a node B that depends on it. *)
Definition chain_after_failure : list DAGNode :=
  [fresh_node "A" "broken" [] [] 0 300; fresh_node "B" "echo" ["A"] [] 3 300].

(** C1, at the failing input.  A fails (its agent raises, no retry is
    allowed); B depends on A and is not skipped by any condition; the
    scheduler nevertheless creates a task for B, whose agent runs, and B
    ends [COMPLETED] with its two keys in the context. *)
Theorem downstream_launched_after_failure :
  let r := _execute_dag fast_world (WorkflowDAG_init chain_after_failure) ∅ in
  get_execution_order given_order (WorkflowDAG_init chain_after_failure)
  = Ret [["A"]; ["B"]]
  /\ status <$> dict_get "A" (nodes (dag r.1)) = Some FAILED
  /\ dependencies <$> dict_get "B" (nodes (dag r.1)) = Some ["A"]
  /\ conditions <$> dict_get "B" (nodes (dag r.1)) = Some []
  /\ launched r.1 = ["A"; "B"]
  /\ status <$> dict_get "B" (nodes (dag r.1)) = Some COMPLETED
  /\ written (exec r.1) = ["node_B_output"; "node_B_metadata"]
  /\ r.2 = Ret false.
Proof. vm_compute. repeat split; reflexivity. Qed.

(** An optional node A that fails and an independent node B. *)
Definition optional_failure : list DAGNode :=
  [fresh_node "A" "broken" [] [("optional", PBool true)] 0 300;
   fresh_node "B" "echo" [] [] 3 300].

Definition optional_failure_final : EngineState :=
  (_execute_dag fast_world (WorkflowDAG_init optional_failure) ∅).1.

(** Witness of the amended C3: the optional failure leaves the workflow
    [completed]. *)
Lemma execute_dag_success_iff_witness :
  _execute_dag fast_world (WorkflowDAG_init optional_failure) ∅
  = (optional_failure_final, Ret true)
  /\ (true = true <->
        (forall k n, dict_get k (nodes (dag optional_failure_final)) = Some n ->
                     status n <> FAILED)
        \/ (forall k n, dict_get k (nodes (dag optional_failure_final)) = Some n ->
              status n = FAILED ->
              truthy (default (PBool false)
                        (dict_get "optional" (conditions n))) = true)).
Proof.
  assert (H2 : _execute_dag fast_world (WorkflowDAG_init optional_failure) ∅
               = (optional_failure_final, Ret true)).
  { vm_compute. reflexivity. }
  split; [exact H2|].
  exact (proj1 (execute_dag_success_iff fast_world optional_failure ∅
                  optional_failure_final true H2)).
Defined.

(** C3 as the specification states it: a failed node is excused only when
    its [optional] condition equals [true]. *)
Definition success_iff_optional_is_true : Prop :=
  forall (w : World) (ns : list DAGNode) (ctx : gmap string pyval)
         (s : EngineState) (b : bool),
    _execute_dag w (WorkflowDAG_init ns) ctx = (s, Ret b) ->
    (b = true <->
       (forall k n, dict_get k (nodes (dag s)) = Some n -> status n <> FAILED)
       \/ (forall k n, dict_get k (nodes (dag s)) = Some n ->
             status n = FAILED ->
             py_eq (default PNone (dict_get "optional" (conditions n)))
                   (PBool true) = true)).

(** A node A that fails and whose [optional] condition is the string
    "no", and an independent node B. *)
Definition optional_text_failure : list DAGNode :=
  [fresh_node "A" "broken" [] [("optional", PStr "no")] 0 300;
   fresh_node "B" "echo" [] [] 3 300].

Definition optional_text_final : EngineState :=
  (_execute_dag fast_world (WorkflowDAG_init optional_text_failure) ∅).1.

Example optional_text_completed :
  (_execute_dag fast_world (WorkflowDAG_init optional_text_failure) ∅).2
  = Ret true
  /\ map (fun e => (e.1, status e.2)) (nodes (dag optional_text_final))
     = [("A", FAILED); ("B", COMPLETED)].
Proof. vm_compute. done. Qed.

(** Counterexample to C3: A is [FAILED], its [optional] condition is not
    [true], and the workflow is recorded as [completed]. *)
Lemma success_iff_optional_is_true_fails : ~ success_iff_optional_is_true.
Proof.
  intros H.
  assert (Hrun : _execute_dag fast_world
                   (WorkflowDAG_init optional_text_failure) ∅
                 = (optional_text_final, Ret true)).
  { vm_compute. reflexivity. }
  assert (Hn : exists n, dict_get "A" (nodes (dag optional_text_final)) = Some n
                         /\ status n = FAILED
                         /\ conditions n = [("optional", PStr "no")]).
  { eexists. split; [vm_compute; reflexivity|]. split; reflexivity. }
  destruct Hn as (n & Hn & Hs & Hc).
  destruct (proj1 (H fast_world optional_text_failure ∅ optional_text_final
                     true Hrun) eq_refl) as [Hno|Hall].
  - by apply (Hno "A" n Hn).
  - specialize (Hall "A" n Hn Hs). rewrite Hc in Hall. discriminate Hall.
Qed.

Example optional_failure_statuses :
  map (fun e => (e.1, status e.2)) (nodes (dag optional_failure_final))
  = [("A", FAILED); ("B", COMPLETED)].
Proof. vm_compute. reflexivity. Qed.

Example critical_failure_fails :
  (_execute_dag fast_world
     (WorkflowDAG_init [fresh_node "A" "broken" [] [("optional", PBool false)] 0 300;
                        fresh_node "B" "echo" [] [] 3 300]) ∅).2
  = Ret false.
Proof. vm_compute. reflexivity. Qed.

(** Two nodes of one level: Y is to be skipped when the context holds the
    output of X. *)
Definition siblings : list DAGNode :=
  [fresh_node "X" "echo" [] [] 3 300;
   fresh_node "Y" "echo" []
     [("type", PStr "skip_if"); ("context_key", PStr "node_X_output");
      ("value", PDict [("echo", PDict [])])] 3 300].

Definition one_by_one_world : World :=
  mkWorld demo_registry demo_repr (fun _ => 10) given_order
    (fun _ => None) (fun _ => None) one_by_one.

(** The outcome of a level depends on the order of its tasks: when the
    tasks run in turn, Y tests its condition before X has assigned its
    output, and runs; when X runs to its end first, Y is skipped. *)
Example siblings_in_turn :
  let r := _execute_dag fast_world (WorkflowDAG_init siblings) ∅ in
  map (fun e => (e.1, status e.2)) (nodes (dag r.1))
  = [("X", COMPLETED); ("Y", COMPLETED)]
  /\ written (exec r.1)
     = ["node_X_output"; "node_X_metadata"; "node_Y_output"; "node_Y_metadata"].
Proof. vm_compute. done. Qed.

Example siblings_one_by_one :
  let r := _execute_dag one_by_one_world (WorkflowDAG_init siblings) ∅ in
  map (fun e => (e.1, status e.2)) (nodes (dag r.1))
  = [("X", COMPLETED); ("Y", SKIPPED)]
  /\ written (exec r.1) = ["node_X_output"; "node_X_metadata"].
Proof. vm_compute. done. Qed.

(** The closing journal transaction of the task of A raises. *)
Definition journal_fails_world : World :=
  mkWorld demo_registry demo_repr (fun _ => 10) given_order
    (fun _ => None)
    (fun node_id => if decide (node_id = "A") then Some "connection lost"
                    else None)
    in_turn.

(** A is completed by the executor, which assigns its two keys; then the
    journal transaction raises, and the engine marks the node [FAILED]. *)
Example completed_then_failed :
  let r := _execute_dag journal_fails_world
             (WorkflowDAG_init [fresh_node "A" "echo" [] [] 3 300]) ∅ in
  map (fun e => (e.1, status e.2, error_message e.2)) (nodes (dag r.1))
  = [("A", FAILED, Some "connection lost")]
  /\ written (exec r.1) = ["node_A_output"; "node_A_metadata"]
  /\ r.2 = Ret false.
Proof. vm_compute. done. Qed.

(** The diamond A -> B, A -> C, B -> D, C -> D. *)
Definition diamond : list DAGNode :=
  [fresh_node "A" "echo" [] [] 3 300; fresh_node "B" "echo" ["A"] [] 3 300;
   fresh_node "C" "echo" ["A"] [] 3 300; fresh_node "D" "echo" ["B"; "C"] [] 3 300].

Definition diamond_final : EngineState :=
  (_execute_dag fast_world (WorkflowDAG_init diamond) ∅).1.

(** Witness of C9: the run of the diamond. *)
Lemma context_keys_written_once_witness :
  _execute_dag fast_world (WorkflowDAG_init diamond) ∅ = (diamond_final, Ret true)
  /\ NoDup (launched diamond_final)
  /\ NoDup (written (exec diamond_final))
  /\ dom (∅ : gmap string pyval) ⊆ dom (context (exec diamond_final)).
Proof.
  assert (H : _execute_dag fast_world (WorkflowDAG_init diamond) ∅
              = (diamond_final, Ret true)).
  { vm_compute. reflexivity. }
  split; [exact H|].
  destruct (context_keys_written_once fast_world diamond ∅ diamond_final
              (Ret true) H) as (H1 & H2 & _ & _ & _ & H3 & _).
  exact (conj H1 (conj H2 H3)).
Defined.

Example diamond_written :
  written (exec diamond_final)
  = ["node_A_output"; "node_A_metadata"; "node_B_output"; "node_B_metadata";
     "node_C_output"; "node_C_metadata"; "node_D_output"; "node_D_metadata"].
Proof. vm_compute. reflexivity. Qed.
End EngineExamples.

(** ** Checking a concrete DAG *)

Section Checks.
Import Dag.

Lemma dict_get_elem {K V : Type} `{EqDecision K} (k : K) (v : V) d :
  dict_get k d = Some v -> (k, v) ∈ d.
Proof.
  induction d as [|[k' v'] d IH]; simpl; [done|].
  destruct (decide (k = k')) as [->|Hne].
  - intros [= ->]. left.
  - intros Hg. right. by apply IH.
Qed.

Lemma deps_of_elem g k d :
  d ∈ deps_of g k -> exists n, (k, n) ∈ nodes g /\ d ∈ dependencies n.
Proof.
  unfold deps_of. destruct (dict_get k (nodes g)) as [n|] eqn:Hn.
  - intros Hd. exists n. split; [by apply dict_get_elem|done].
  - by intros ?%elem_of_nil.
Qed.

(** A ranking under which every node ranks above its dependencies excludes
    cycles. *)
Lemma ranked_no_cycle {A : Type} (E : A -> list A) (rank : A -> nat) :
  (forall x y, y ∈ E x -> (rank y < rank x)%nat) -> no_cycle E.
Proof.
  intros Hrank x Hx.
  assert (Htc : forall a b, tc (edge E) a b -> (rank b < rank a)%nat).
  { induction 1 as [a b Hab|a b c Hab _ IH].
    - by apply Hrank.
    - specialize (Hrank a b Hab). lia. }
  specialize (Htc x x Hx). lia.
Qed.

Lemma declared_check g :
  forallb (fun e => forallb (fun d => bool_decide (d ∈ dict_keys (nodes g)))
                      (dependencies e.2)) (nodes g) = true ->
  dependencies_declared g.
Proof.
  intros Hall k d (n & Hn & Hd)%deps_of_elem.
  rewrite forallb_forall in Hall.
  specialize (Hall (k, n)). simpl in Hall.
  rewrite forallb_forall in Hall.
  eapply bool_decide_eq_true, Hall; by apply list_elem_of_In.
Qed.

Lemma ranked_check g (rank : string -> nat) :
  forallb (fun e => forallb (fun d => rank d <? rank e.1)%nat
                      (dependencies e.2)) (nodes g) = true ->
  acyclic g.
Proof.
  intros Hall. apply (ranked_no_cycle _ rank).
  intros k d (n & Hn & Hd)%deps_of_elem.
  rewrite forallb_forall in Hall.
  specialize (Hall (k, n)). simpl in Hall.
  rewrite forallb_forall in Hall.
  eapply Nat.ltb_lt, Hall; by apply list_elem_of_In.
Qed.
End Checks.

Section ExecutionOrderExamples.
Import Dag Examples.

Definition diamond_rank (k : string) : nat :=
  if decide (k = "A") then 0 else if decide (k = "D") then 2 else 1.

(** Witness of C6: the diamond has the levels [[A], [B, C], [D]]. *)
Lemma execution_order_levels_witness :
  validate (WorkflowDAG_init diamond) = true
  /\ dependencies_declared (WorkflowDAG_init diamond)
  /\ acyclic (WorkflowDAG_init diamond)
  /\ Forall (fun n => status n = PENDING) diamond
  /\ exists levels,
       get_execution_order given_order (WorkflowDAG_init diamond) = Ret levels
       /\ NoDup (concat levels)
       /\ (forall k, k ∈ concat levels
                     <-> k ∈ dict_keys (nodes (WorkflowDAG_init diamond))).
Proof.
  assert (H1 : validate (WorkflowDAG_init diamond) = true) by reflexivity.
  assert (H2 : dependencies_declared (WorkflowDAG_init diamond)).
  { apply declared_check. reflexivity. }
  assert (H3 : acyclic (WorkflowDAG_init diamond)).
  { apply (ranked_check _ diamond_rank). reflexivity. }
  assert (H4 : Forall (fun n => status n = PENDING) diamond).
  { repeat constructor. }
  split; [exact H1|]. split; [exact H2|]. split; [exact H3|]. split; [exact H4|].
  destruct (execution_order_levels given_order diamond H1 H2 H3 H4)
    as (levels & Hl & Hnd & Hkeys & _).
  exists levels. split; [exact Hl|]. split; [exact Hnd|exact Hkeys].
Defined.

Example diamond_levels :
  get_execution_order given_order (WorkflowDAG_init diamond)
  = Ret [["A"]; ["B"; "C"]; ["D"]].
Proof. vm_compute. reflexivity. Qed.
End ExecutionOrderExamples.

(** ** Kahn's loop decides acyclicity *)

Section KahnProperties.
Context {K : Type} `{EqDecision K}.
Import Kahn.
Implicit Types (graph : list (K * list K)) (in_degree : list (K * Z))
  (queue : list K).

Lemma dict_get_adjust_eq {V : Type} (f : V -> V) (k : K) (d : list (K * V)) :
  dict_get k (dict_adjust f k d) = f <$> dict_get k d.
Proof.
  induction d as [|[k' v] d IH]; simpl; [done|].
  destruct (decide (k = k')) as [->|Hne]; simpl.
  - by rewrite decide_True.
  - by rewrite decide_False.
Qed.

Lemma dict_get_adjust_ne {V : Type} (f : V -> V) (k k' : K) (d : list (K * V)) :
  k <> k' -> dict_get k' (dict_adjust f k d) = dict_get k' d.
Proof.
  intros Hne. induction d as [|[k'' v] d IH]; simpl; [done|].
  destruct (decide (k = k'')) as [->|Hne']; simpl.
  - by rewrite !decide_False.
  - by rewrite IH.
Qed.

Lemma dict_keys_adjust {V : Type} (f : V -> V) (k : K) (d : list (K * V)) :
  dict_keys (dict_adjust f k d) = dict_keys d.
Proof.
  induction d as [|[k' v] d IH]; simpl; [done|].
  destruct (decide (k = k')); simpl; [done|]. by rewrite IH.
Qed.

Lemma filter_ext_elem {T : Type} (P Q : T -> Prop)
    `{forall x, Decision (P x)} `{forall x, Decision (Q x)} (l : list T) :
  (forall x, x ∈ l -> P x <-> Q x) -> filter P l = filter Q l.
Proof.
  induction l as [|x l IH]; intros Hpq; [done|].
  rewrite !filter_cons.
  rewrite IH by (intros y Hy; apply Hpq; by right).
  destruct (decide (P x)) as [Hp|Hp], (decide (Q x)) as [Hq|Hq]; try done.
  - destruct Hq. apply Hpq; [left|done].
  - destruct Hp. apply Hpq; [left|done].
Qed.

(** The body of the [while] loop. *)
Lemma kahn_loop_body graph in_degree queue processed :
  kahn_loop graph in_degree queue processed =
  match queue with
  | [] => processed
  | current :: rest =>
      kahn_loop graph
        (relax graph current (in_degree, rest)).1
        (relax graph current (in_degree, rest)).2
        (S processed)
  end.
Proof. funelim (kahn_loop graph in_degree queue processed); done. Qed.

(** An invariant of the loop holds when the loop ends, with an empty
    queue. *)
Lemma kahn_loop_invariant graph (I : list (K * Z) -> list K -> nat -> Prop) :
  (forall in_degree current rest processed,
     I in_degree (current :: rest) processed ->
     I (relax graph current (in_degree, rest)).1
       (relax graph current (in_degree, rest)).2 (S processed)) ->
  forall in_degree queue processed,
    I in_degree queue processed ->
    exists in_degree',
      I in_degree' [] (kahn_loop graph in_degree queue processed).
Proof.
  intros Hstep in_degree queue processed.
  remember (weight in_degree queue) as m eqn:Hm.
  revert in_degree queue processed Hm.
  induction (lt_wf m) as [m _ IH]; intros in_degree queue processed -> HI.
  rewrite kahn_loop_body. destruct queue as [|current rest]; [by eexists|].
  eapply IH; [|reflexivity|by apply Hstep].
  pose proof (weight_relax graph current (in_degree, rest)) as Hw.
  unfold weight in *; simpl in *. lia.
Qed.

(** The inner [for] loop: the counter of every node that depends on
    [current] goes down by one, and the nodes whose counter was 1 are
    appended to the queue, in the order of the graph. *)
Lemma relax_spec current graph : forall in_degree queue,
  NoDup (dict_keys graph) ->
  dict_keys (relax graph current (in_degree, queue)).1 = dict_keys in_degree
  /\ (forall v,
        dict_get v (relax graph current (in_degree, queue)).1
        = match dict_get v graph with
          | Some deps =>
              if bool_decide (current ∈ deps)
              then (fun d => d - 1) <$> dict_get v in_degree
              else dict_get v in_degree
          | None => dict_get v in_degree
          end)
  /\ (relax graph current (in_degree, queue)).2
     = queue ++ map fst (filter (fun e => current ∈ e.2
                                          /\ dict_get e.1 in_degree = Some 1)
                           graph).
Proof.
  unfold relax.
  induction graph as [|[v deps] graph IH]; intros in_degree queue Hnd; simpl.
  - split; [done|]. split; [done|]. by rewrite app_nil_r.
  - apply NoDup_cons in Hnd as [Hv Hnd].
    set (acc := relax_one current (in_degree, queue) (v, deps)).
    destruct (IH acc.1 acc.2 Hnd) as (Hk & Hget & Hq).
    replace (fold_left (relax_one current) graph acc)
      with (fold_left (relax_one current) graph (acc.1, acc.2))
      by (by destruct acc).
    assert (Hacc : acc = if bool_decide (current ∈ deps)
                         then (dict_adjust (fun d => d - 1) v in_degree,
                               if bool_decide (dict_get v in_degree = Some 1)
                               then queue ++ [v] else queue)
                         else (in_degree, queue)).
    { unfold acc, relax_one. cbn [fst snd]. case_bool_decide; [|done].
      rewrite dict_get_adjust_eq.
      assert (Hiff : (fun d => d - 1) <$> dict_get v in_degree = Some 0
                     <-> dict_get v in_degree = Some 1).
      { destruct (dict_get v in_degree); simpl; [|done].
        split; intros [= ?]; f_equal; lia. }
      rewrite (bool_decide_ext _ _ Hiff). by case_bool_decide. }
    assert (Hrest : forall e, e ∈ graph -> e.1 <> v).
    { intros [v' deps'] He Heq. simpl in Heq. subst v'. apply Hv.
      apply list_elem_of_fmap. by exists (v, deps'). }
    split; [|split].
    + rewrite Hk, Hacc. case_bool_decide; simpl; [apply dict_keys_adjust|done].
    + intros x. rewrite Hget.
      change (dict_get x ((v, deps) :: graph))
        with (if decide (x = v) then Some deps else dict_get x graph).
      destruct (decide (x = v)) as [->|Hne].
      * assert (dict_get v graph = None) as ->.
        { by apply dict_get_None_keys. }
        rewrite Hacc. case_bool_decide; simpl; [|done].
        by rewrite dict_get_adjust_eq.
      * assert (dict_get x acc.1 = dict_get x in_degree) as ->; [|done].
        rewrite Hacc. case_bool_decide; simpl; [|done].
        by rewrite dict_get_adjust_ne.
    + rewrite Hq. rewrite filter_cons. simpl.
      assert (Hf : filter (fun e => current ∈ e.2 /\ dict_get e.1 acc.1 = Some 1) graph
                   = filter (fun e => current ∈ e.2
                                      /\ dict_get e.1 in_degree = Some 1) graph).
      { apply filter_ext_elem. intros e He.
        assert (dict_get e.1 acc.1 = dict_get e.1 in_degree) as ->; [|done].
        rewrite Hacc. case_bool_decide; simpl; [|done].
        rewrite dict_get_adjust_ne; [done|]. intros Heq. by apply (Hrest e He). }
      rewrite Hf, Hacc.
      case_bool_decide as Hc; simpl.
      * case_bool_decide as H1; simpl.
        -- rewrite decide_True by done. simpl. by rewrite <- app_assoc.
        -- rewrite decide_False by tauto. done.
      * rewrite decide_False by tauto. done.
Qed.

(** *** The graph of a validated definition *)

Variable graph : list (K * list K).
Hypothesis keys_distinct : NoDup (dict_keys graph).
Hypothesis deps_distinct :
  forall v deps, dict_get v graph = Some deps -> NoDup deps.
Hypothesis deps_declared :
  forall v deps d, dict_get v graph = Some deps -> d ∈ deps -> d ∈ dict_keys graph.

(** The dependencies of a node. *)
Definition graph_deps (v : K) : list K := default [] (dict_get v graph).

(** The dependencies of [v] that are not in [done]. *)
Definition pending_deps (done : list K) (v : K) : list K :=
  filter (fun d => d ∉ done) (graph_deps v).

(** [in_degree[node_id] = len(dependencies)] *)
Definition initial_in_degree : list (K * Z) :=
  map (fun e => (e.1, Z.of_nat (length e.2))) graph.

(** The invariant of the [while] loop; [done] lists the nodes popped so
    far, in the order in which they were popped. *)
Record kahn_inv (done : list K) (in_degree : list (K * Z)) (queue : list K)
    (processed : nat) : Prop := {
  kahn_count : length done = processed;
  kahn_NoDup : NoDup (done ++ queue);
  kahn_nodes : forall v, v ∈ done ++ queue -> v ∈ dict_keys graph;
  kahn_keys : dict_keys in_degree = dict_keys graph;
  kahn_degree : forall v, v ∈ dict_keys graph ->
                  dict_get v in_degree
                  = Some (Z.of_nat (length (pending_deps done v)));
  kahn_ready : forall v, v ∈ dict_keys graph ->
                 (v ∈ done ++ queue <-> pending_deps done v = []);
  kahn_order : forall i v d, done !! i = Some v -> d ∈ graph_deps v ->
                 exists j, (j < i)%nat /\ done !! j = Some d
}.

Lemma graph_entry v : v ∈ dict_keys graph -> (v, graph_deps v) ∈ graph.
Proof.
  intros [deps Hv]%dict_keys_get. unfold graph_deps. rewrite Hv. simpl.
  by apply dict_get_elem.
Qed.

Lemma graph_entry_deps v deps : (v, deps) ∈ graph -> graph_deps v = deps.
Proof.
  unfold graph_deps. clear deps_distinct deps_declared.
  induction graph as [|[v' deps'] g IH]; [by intros ?%elem_of_nil|].
  simpl in keys_distinct. apply NoDup_cons in keys_distinct as [Hv' Hnd].
  intros [[= -> ->]|Hin]%elem_of_cons; simpl.
  - by rewrite decide_True.
  - rewrite decide_False; [by apply IH|].
    intros ->. apply Hv'. apply list_elem_of_fmap. by exists (v', deps).
Qed.

Lemma initial_in_degree_get v :
  v ∈ dict_keys graph ->
  dict_get v initial_in_degree = Some (Z.of_nat (length (graph_deps v))).
Proof.
  unfold initial_in_degree, graph_deps.
  clear keys_distinct deps_distinct deps_declared.
  induction graph as [|[v' deps'] g IH]; simpl; [by intros ?%elem_of_nil|].
  destruct (decide (v = v')) as [->|Hne]; [done|].
  intros [?|?]%elem_of_cons; [done|]. by apply IH.
Qed.

Lemma pending_deps_nil v : pending_deps [] v = graph_deps v.
Proof.
  unfold pending_deps. induction (graph_deps v) as [|d l IH]; [done|].
  rewrite filter_cons, decide_True by apply not_elem_of_nil. by rewrite IH.
Qed.

Lemma kahn_inv_initial :
  kahn_inv [] initial_in_degree (initial_queue initial_in_degree) 0.
Proof.
  assert (Hq : forall v, v ∈ initial_queue initial_in_degree
                         <-> v ∈ dict_keys graph /\ graph_deps v = []).
  { intros v. unfold initial_queue.
    rewrite list_elem_of_fmap. split.
    - intros ([v' z] & -> & [Hz Hin]%list_elem_of_filter). simpl in *. subst z.
      assert (Hv : v' ∈ dict_keys graph).
      { unfold initial_in_degree in Hin.
        apply list_elem_of_fmap in Hin as ([v'' deps] & [= -> _] & Hin).
        apply list_elem_of_fmap. by exists (v'', deps). }
      split; [done|].
      unfold initial_in_degree in Hin.
      apply list_elem_of_fmap in Hin as ([v'' deps] & [= -> Hlen] & Hin).
      rewrite (graph_entry_deps _ _ Hin). simpl in Hlen.
      destruct deps; [done|simpl in Hlen; lia].
    - intros [Hv Hd]. exists (v, 0). split; [done|].
      apply list_elem_of_filter. split; [done|].
      unfold initial_in_degree. apply list_elem_of_fmap.
      exists (v, graph_deps v). rewrite Hd. split; [done|].
      rewrite <- Hd. by apply graph_entry. }
  split; simpl.
  - done.
  - unfold initial_queue. apply NoDup_fmap_fst.
    + intros k z1 z2 [_ H1]%list_elem_of_filter [_ H2]%list_elem_of_filter.
      unfold initial_in_degree in H1, H2.
      apply list_elem_of_fmap in H1 as ([k1 d1] & [= -> ->] & H1).
      apply list_elem_of_fmap in H2 as ([k2 d2] & [= -> ->] & H2).
      simpl. by rewrite <- (graph_entry_deps _ _ H1), <- (graph_entry_deps _ _ H2).
    + apply NoDup_filter.
      apply (NoDup_fmap_1 fst). unfold initial_in_degree.
      rewrite <- list_fmap_compose. exact keys_distinct.
  - intros v Hv. by apply Hq in Hv as [? _].
  - unfold initial_in_degree, dict_keys. rewrite map_map. done.
  - intros v Hv. rewrite pending_deps_nil. by apply initial_in_degree_get.
  - intros v Hv. rewrite pending_deps_nil, Hq. tauto.
  - intros i v d Hi. done.
Qed.

Lemma pending_deps_snoc_in done c v :
  c ∉ done -> c ∈ graph_deps v -> NoDup (graph_deps v) ->
  S (length (pending_deps (done ++ [c]) v)) = length (pending_deps done v).
Proof.
  unfold pending_deps. intros Hc.
  induction (graph_deps v) as [|d l IH]; intros Hin Hnd; [by apply elem_of_nil in Hin|].
  apply NoDup_cons in Hnd as [Hd Hnd]. rewrite !filter_cons.
  apply elem_of_cons in Hin as [<-|Hin].
  - rewrite decide_False by (intros Hn; apply Hn, elem_of_app; right; left).
    rewrite decide_True by done.
    simpl. f_equal. f_equal. apply filter_ext_elem. intros x Hx.
    rewrite elem_of_app, list_elem_of_singleton.
    split; [tauto|]. intros Hn [?| ->]; done.
  - specialize (IH Hin Hnd).
    assert (d <> c) by (by intros ->).
    destruct (decide (d ∉ done)) as [Hd1|Hd1].
    + rewrite decide_True; [simpl; by rewrite IH|].
      rewrite elem_of_app, list_elem_of_singleton. tauto.
    + rewrite decide_False; [done|].
      rewrite elem_of_app, list_elem_of_singleton. tauto.
Qed.

Lemma pending_deps_snoc_out done c v :
  c ∉ graph_deps v -> pending_deps (done ++ [c]) v = pending_deps done v.
Proof.
  unfold pending_deps. intros Hc. apply filter_ext_elem. intros x Hx.
  rewrite elem_of_app, list_elem_of_singleton.
  split; [tauto|]. intros Hn [?| ->]; done.
Qed.

Lemma pending_deps_nil_iff done v :
  pending_deps done v = [] <-> forall d, d ∈ graph_deps v -> d ∈ done.
Proof.
  unfold pending_deps. split.
  - intros Hnil d Hd. destruct (decide (d ∈ done)) as [|Hn]; [done|].
    by destruct (filter_nil_not_elem_of _ _ d Hnil Hn).
  - intros Hall. induction (graph_deps v) as [|d l IH]; [done|].
    rewrite filter_cons, decide_False.
    + apply IH. intros x Hx. apply Hall. by right.
    + intros Hn. apply Hn, Hall. left.
Qed.

Lemma graph_deps_NoDup v : NoDup (graph_deps v).
Proof.
  unfold graph_deps. destruct (dict_get v graph) as [deps|] eqn:Hv; simpl.
  - by eapply deps_distinct.
  - apply NoDup_nil_2.
Qed.

Lemma kahn_inv_step done in_degree current rest processed :
  kahn_inv done in_degree (current :: rest) processed ->
  kahn_inv (done ++ [current])
    (relax graph current (in_degree, rest)).1
    (relax graph current (in_degree, rest)).2 (S processed).
Proof.
  intros [Hcount Hnd Hnodes Hkeys Hdeg Hready Horder].
  destruct (relax_spec current graph in_degree rest keys_distinct)
    as (Rkeys & Rget & Rq).
  set (pushed := map fst (filter (fun e => current ∈ e.2
                                 /\ dict_get e.1 in_degree = Some 1) graph)) in *.
  assert (Hcur : current ∉ done).
  { apply NoDup_app in Hnd as (_ & Hdisj & _). intros Hin.
    apply (Hdisj current Hin). left. }
  assert (Hpushed : forall v, v ∈ pushed <->
            v ∈ dict_keys graph /\ current ∈ graph_deps v
            /\ length (pending_deps done v) = 1%nat).
  { intros v. unfold pushed. rewrite list_elem_of_fmap. split.
    - intros ([v' deps] & -> & [[Hc H1] Hin]%list_elem_of_filter). simpl in *.
      assert (Hv : v' ∈ dict_keys graph).
      { apply list_elem_of_fmap. by exists (v', deps). }
      split; [done|]. rewrite (graph_entry_deps _ _ Hin). split; [done|].
      rewrite (Hdeg v' Hv) in H1. injection H1 as H1. lia.
    - intros (Hv & Hc & H1). exists (v, graph_deps v). split; [done|].
      apply list_elem_of_filter. split; [|by apply graph_entry].
      split; [done|]. simpl. rewrite (Hdeg v Hv), H1. done. }
  assert (Hsplit : forall v, v ∈ (done ++ [current]) ++ rest ++ pushed
                             <-> v ∈ done ++ current :: rest \/ v ∈ pushed).
  { intros v. rewrite !elem_of_app, !elem_of_cons, elem_of_nil. tauto. }
  rewrite Rq. split.
  - rewrite length_app; simpl. lia.
  - rewrite <- app_assoc. simpl.
    replace (done ++ current :: rest ++ pushed)
      with ((done ++ current :: rest) ++ pushed)
      by (by rewrite <- app_assoc).
    apply NoDup_app. split; [done|]. split.
    + intros v Hv (Hk & _ & H1)%Hpushed.
      apply (Hready v Hk) in Hv. rewrite Hv in H1. done.
    + unfold pushed. apply NoDup_fmap_fst.
      * intros k z1 z2 [_ H1]%list_elem_of_filter [_ H2]%list_elem_of_filter.
        by rewrite <- (graph_entry_deps _ _ H1), <- (graph_entry_deps _ _ H2).
      * apply NoDup_filter. apply (NoDup_fmap_1 fst). exact keys_distinct.
  - intros v [Hv|Hv]%Hsplit; [by apply Hnodes|]. by apply Hpushed in Hv as [? _].
  - by rewrite Rkeys.
  - intros v Hv. rewrite Rget.
    destruct (dict_keys_get v graph Hv) as [deps Hdeps].
    assert (Hgd : graph_deps v = deps) by (unfold graph_deps; by rewrite Hdeps).
    rewrite Hdeps, (Hdeg v Hv). case_bool_decide as Hc; simpl.
    + f_equal. rewrite <- Hgd in Hc.
      pose proof (pending_deps_snoc_in done current v Hcur Hc (graph_deps_NoDup v)).
      lia.
    + rewrite pending_deps_snoc_out; [done|]. by rewrite Hgd.
  - intros v Hv. rewrite Hsplit, (Hready v Hv), Hpushed.
    destruct (decide (current ∈ graph_deps v)) as [Hc|Hc].
    + pose proof (pending_deps_snoc_in done current v Hcur Hc (graph_deps_NoDup v))
        as Hlen.
      split.
      * intros [Hnil|(_ & _ & H1)].
        -- rewrite Hnil in Hlen. done.
        -- rewrite H1 in Hlen. by destruct (pending_deps (done ++ [current]) v).
      * intros Hnil. right. split; [done|]. split; [done|].
        rewrite Hnil in Hlen. done.
    + rewrite pending_deps_snoc_out by done. tauto.
  - intros i v d Hi Hd.
    destruct (decide (i < length done)%nat) as [Hlt|Hge].
    + rewrite lookup_app_l in Hi by done.
      destruct (Horder i v d Hi Hd) as (j & Hj & Hjd).
      exists j. split; [done|]. rewrite lookup_app_l; [done|lia].
    + assert (i = length done /\ v = current) as [-> ->].
      { rewrite lookup_app_r in Hi by lia.
        destruct (i - length done)%nat as [|n] eqn:Hn; simpl in Hi; [|done].
        split; [lia|congruence]. }
      assert (Hdone : d ∈ done).
      { assert (Hk : current ∈ dict_keys graph) by (apply Hnodes, elem_of_app; right; left).
        apply (pending_deps_nil_iff done current); [|done].
        apply (Hready current Hk). apply elem_of_app. right. left. }
      apply list_elem_of_lookup in Hdone as [j Hj].
      exists j. split; [by eapply lookup_lt_Some|].
      rewrite lookup_app_l; [done|by eapply lookup_lt_Some].
Qed.

(** What the loop leaves: all the nodes it has popped, each after its
    dependencies, and no node left whose dependencies have all been popped. *)
Lemma kahn_loop_final :
  exists done,
    length done
    = kahn_loop graph initial_in_degree (initial_queue initial_in_degree) 0
    /\ NoDup done
    /\ (forall v, v ∈ done -> v ∈ dict_keys graph)
    /\ (forall v, v ∈ dict_keys graph ->
          (v ∈ done <-> forall d, d ∈ graph_deps v -> d ∈ done))
    /\ (forall i v d, done !! i = Some v -> d ∈ graph_deps v ->
          exists j, (j < i)%nat /\ done !! j = Some d).
Proof.
  destruct (kahn_loop_invariant graph
              (fun in_degree queue processed =>
                 exists done, kahn_inv done in_degree queue processed))
    with (in_degree := initial_in_degree)
         (queue := initial_queue initial_in_degree) (processed := 0%nat)
    as (in_degree' & done & Hinv).
  - intros in_degree current rest processed [done Hinv].
    exists (done ++ [current]). by apply kahn_inv_step.
  - exists []. apply kahn_inv_initial.
  - destruct Hinv as [Hcount Hnd Hnodes _ _ Hready Horder].
    rewrite app_nil_r in Hnd.
    exists done. split; [done|]. split; [done|].
    split; [intros v Hv; apply Hnodes; by rewrite app_nil_r|].
    split; [|done].
    intros v Hv. rewrite <- pending_deps_nil_iff, <- (Hready v Hv).
    by rewrite app_nil_r.
Qed.

(** Kahn's loop processes every node exactly when the graph has no
    cycle. *)
Theorem kahn_loop_acyclic :
  kahn_loop graph initial_in_degree (initial_queue initial_in_degree) 0
  = length graph
  <-> no_cycle graph_deps.
Proof.
  destruct kahn_loop_final as (done & <- & Hnd & Hsub & Hready & Horder).
  assert (Hlen : length graph = length (dict_keys graph)).
  { unfold dict_keys. by rewrite length_map. }
  split.
  - intros Hall.
    assert (Hcover : forall v, v ∈ dict_keys graph -> v ∈ done).
    { assert (Hperm : done ≡ₚ dict_keys graph).
      { apply submseteq_length_Permutation.
        - by apply NoDup_submseteq.
        - by rewrite Hall, Hlen. }
      intros v. by rewrite Hperm. }
    assert (Hwalk : forall a b, tc (edge graph_deps) a b ->
              forall i, done !! i = Some a ->
                exists j, (j < i)%nat /\ done !! j = Some b).
    { induction 1 as [a b Hab|a b c Hab _ IH]; intros i Hi.
      - by eapply Horder.
      - destruct (Horder i a b Hi Hab) as (j & Hj & Hjb).
        destruct (IH j Hjb) as (l & Hl & Hlc).
        exists l. split; [lia|done]. }
    intros x Hx.
    assert (Hxk : x ∈ dict_keys graph).
    { assert (Hedge : exists y, edge graph_deps x y).
      { assert (Hfirst : forall a b, tc (edge graph_deps) a b ->
                  exists y, edge graph_deps a y) by (destruct 1; eauto).
        by eapply Hfirst. }
      destruct Hedge as [y Hy]. unfold edge, graph_deps in Hy.
      destruct (dict_get x graph) as [deps|] eqn:Hdeps;
        [by eapply dict_get_Some_keys|by apply elem_of_nil in Hy]. }
    apply Hcover, list_elem_of_lookup in Hxk as [i Hi].
    destruct (Hwalk x x Hx i Hi) as (j & Hj & Hjx).
    assert (i = j) by (by eapply NoDup_lookup). lia.
  - intros Hac.
    destruct (filter (fun v => v ∉ done) (dict_keys graph)) as [|u us] eqn:Hu.
    + assert (Hcover : forall v, v ∈ dict_keys graph -> v ∈ done).
      { intros v Hv. destruct (decide (v ∈ done)) as [|Hn]; [done|].
        by destruct (filter_nil_not_elem_of _ _ v Hu Hn). }
      rewrite Hlen. apply Nat.le_antisymm.
      * apply submseteq_length, NoDup_submseteq; done.
      * apply submseteq_length, NoDup_submseteq; done.
    + exfalso.
      destruct (acyclic_minimal graph_deps
                  (filter (fun v => v ∉ done) (dict_keys graph)) Hac)
        as (k & [Hk1 Hk2]%list_elem_of_filter & Hmin); [by rewrite Hu|].
      apply Hk1. apply (Hready k Hk2). intros d Hd.
      destruct (decide (d ∈ done)) as [|Hn]; [done|].
      destruct (Hmin d Hd). apply list_elem_of_filter. split; [done|].
      unfold graph_deps in Hd.
      destruct (dict_get k graph) as [deps|] eqn:Hdeps;
        [|by apply elem_of_nil in Hd].
      by eapply deps_declared.
Qed.
(** *** Repeated dependencies *)

(** A list without repetition drawn from a list with a repetition is
    shorter. *)
Lemma length_lt_repeated (l deps : list K) :
  NoDup l -> (forall x, x ∈ l -> x ∈ deps) -> ~ NoDup deps ->
  (length l < length deps)%nat.
Proof.
  intros Hnd Hsub Hrep.
  assert (Hle : l ⊆+ deps) by (by apply NoDup_submseteq).
  pose proof (submseteq_length _ _ Hle) as Hlen.
  destruct (decide (length l = length deps)) as [Heq|]; [|lia].
  destruct Hrep.
  assert (Hperm : l ≡ₚ deps).
  { apply submseteq_length_Permutation; [done|lia]. }
  by rewrite <- Hperm.
Qed.

(** The part of the invariant that holds whatever the dependency lists
    are: the counter of a node is at least the number of its dependencies
    less the number of popped nodes among them, and the counter of a node
    that has been queued is at most 0. *)
Record kahn_count_inv (done : list K) (in_degree : list (K * Z))
    (queue : list K) (processed : nat) : Prop := {
  count_done : length done = processed;
  count_NoDup : NoDup (done ++ queue);
  count_nodes : forall v, v ∈ done ++ queue -> v ∈ dict_keys graph;
  count_queued : forall v, v ∈ done ++ queue ->
                   exists z, dict_get v in_degree = Some z /\ z <= 0;
  count_lower : forall v, v ∈ dict_keys graph ->
                  exists z, dict_get v in_degree = Some z
                    /\ Z.of_nat (length (graph_deps v))
                       - Z.of_nat (length (filter (fun d => d ∈ graph_deps v) done))
                       <= z
}.

Lemma initial_queue_elem v :
  v ∈ initial_queue initial_in_degree
  <-> v ∈ dict_keys graph /\ graph_deps v = [].
Proof.
  clear deps_distinct deps_declared.
  unfold initial_queue. rewrite list_elem_of_fmap. split.
  - intros ([v' z] & -> & [Hz Hin]%list_elem_of_filter). simpl in *. subst z.
    unfold initial_in_degree in Hin.
    apply list_elem_of_fmap in Hin as ([v'' deps] & [= -> Hlen] & Hin).
    split; [apply list_elem_of_fmap; by exists (v'', deps)|].
    rewrite (graph_entry_deps _ _ Hin). simpl in Hlen.
    destruct deps; [done|simpl in Hlen; lia].
  - intros [Hv Hd]. exists (v, 0). split; [done|].
    apply list_elem_of_filter. split; [done|].
    unfold initial_in_degree. apply list_elem_of_fmap.
    exists (v, graph_deps v). rewrite Hd. split; [done|].
    rewrite <- Hd. by apply graph_entry.
Qed.

Lemma initial_queue_NoDup : NoDup (initial_queue initial_in_degree).
Proof.
  clear deps_distinct deps_declared.
  unfold initial_queue. apply NoDup_fmap_fst.
  - intros k z1 z2 [_ H1]%list_elem_of_filter [_ H2]%list_elem_of_filter.
    unfold initial_in_degree in H1, H2.
    apply list_elem_of_fmap in H1 as ([k1 d1] & [= -> ->] & H1).
    apply list_elem_of_fmap in H2 as ([k2 d2] & [= -> ->] & H2).
    simpl. by rewrite <- (graph_entry_deps _ _ H1), <- (graph_entry_deps _ _ H2).
  - apply NoDup_filter.
    apply (NoDup_fmap_1 fst). unfold initial_in_degree.
    rewrite <- list_fmap_compose. exact keys_distinct.
Qed.

Lemma kahn_count_inv_initial :
  kahn_count_inv [] initial_in_degree (initial_queue initial_in_degree) 0.
Proof.
  clear deps_distinct deps_declared.
  split; simpl.
  - done.
  - apply initial_queue_NoDup.
  - intros v Hv. by apply initial_queue_elem in Hv as [? _].
  - intros v [Hv Hd]%initial_queue_elem. exists 0. split; [|done].
    rewrite (initial_in_degree_get v Hv), Hd. done.
  - intros v Hv. eexists. split; [by apply initial_in_degree_get|]. lia.
Qed.

Lemma kahn_count_inv_step done in_degree current rest processed :
  kahn_count_inv done in_degree (current :: rest) processed ->
  kahn_count_inv (done ++ [current])
    (relax graph current (in_degree, rest)).1
    (relax graph current (in_degree, rest)).2 (S processed).
Proof.
  clear deps_distinct deps_declared.
  intros [Hcount Hnd Hnodes Hqueued Hlower].
  destruct (relax_spec current graph in_degree rest keys_distinct)
    as (Rkeys & Rget & Rq).
  set (pushed := map fst (filter (fun e => current ∈ e.2
                                 /\ dict_get e.1 in_degree = Some 1) graph)) in *.
  assert (Hpushed : forall v, v ∈ pushed <->
            v ∈ dict_keys graph /\ current ∈ graph_deps v
            /\ dict_get v in_degree = Some 1).
  { intros v. unfold pushed. rewrite list_elem_of_fmap. split.
    - intros ([v' deps] & -> & [[Hc H1] Hin]%list_elem_of_filter). simpl in *.
      split; [apply list_elem_of_fmap; by exists (v', deps)|].
      by rewrite (graph_entry_deps _ _ Hin).
    - intros (Hv & Hc & H1). exists (v, graph_deps v). split; [done|].
      apply list_elem_of_filter. split; [done|by apply graph_entry]. }
  assert (Hsplit : forall v, v ∈ (done ++ [current]) ++ rest ++ pushed
                             <-> v ∈ done ++ current :: rest \/ v ∈ pushed).
  { intros v. rewrite !elem_of_app, !elem_of_cons, elem_of_nil. tauto. }
  assert (Hnew : forall v z, v ∈ dict_keys graph ->
            dict_get v in_degree = Some z ->
            dict_get v (relax graph current (in_degree, rest)).1
            = Some (if bool_decide (current ∈ graph_deps v) then z - 1 else z)).
  { intros v z Hv Hz. rewrite Rget.
    destruct (dict_keys_get v graph Hv) as [deps Hdeps].
    unfold graph_deps. rewrite Hdeps. simpl.
    case_bool_decide; by rewrite Hz. }
  rewrite Rq. split.
  - rewrite length_app; simpl. lia.
  - rewrite <- app_assoc. simpl.
    replace (done ++ current :: rest ++ pushed)
      with ((done ++ current :: rest) ++ pushed)
      by (by rewrite <- app_assoc).
    apply NoDup_app. split; [done|]. split.
    + intros v Hv (_ & _ & H1)%Hpushed.
      destruct (Hqueued v Hv) as (z & Hz & Hle).
      rewrite Hz in H1. injection H1 as ->. lia.
    + unfold pushed. apply NoDup_fmap_fst.
      * intros k z1 z2 [_ H1]%list_elem_of_filter [_ H2]%list_elem_of_filter.
        by rewrite <- (graph_entry_deps _ _ H1), <- (graph_entry_deps _ _ H2).
      * apply NoDup_filter. apply (NoDup_fmap_1 fst). exact keys_distinct.
  - intros v [Hv|Hv]%Hsplit; [by apply Hnodes|]. by apply Hpushed in Hv as [? _].
  - intros v [Hv|Hv]%Hsplit.
    + destruct (Hqueued v Hv) as (z & Hz & Hle).
      eexists. split; [apply Hnew; [by apply Hnodes|done]|].
      case_bool_decide; lia.
    + apply Hpushed in Hv as (Hk & Hc & H1).
      eexists. split; [by apply Hnew|].
      rewrite bool_decide_eq_true_2 by done. lia.
  - intros v Hv. destruct (Hlower v Hv) as (z & Hz & Hle).
    eexists. split; [by apply Hnew|].
    rewrite filter_app, length_app, filter_cons, filter_nil.
    case_bool_decide;
      [rewrite decide_True by done|rewrite decide_False by done]; simpl; lia.
Qed.

(** The loop pops every node at most once, and pops no node whose
    dependency list has a repetition: its counter never reaches 0. *)
Lemma kahn_loop_count :
  exists done,
    length done
    = kahn_loop graph initial_in_degree (initial_queue initial_in_degree) 0
    /\ NoDup done
    /\ (forall v, v ∈ done -> v ∈ dict_keys graph /\ NoDup (graph_deps v)).
Proof.
  clear deps_distinct deps_declared.
  destruct (kahn_loop_invariant graph
              (fun in_degree queue processed =>
                 exists done, kahn_count_inv done in_degree queue processed))
    with (in_degree := initial_in_degree)
         (queue := initial_queue initial_in_degree) (processed := 0%nat)
    as (in_degree' & done & Hinv).
  - intros in_degree current rest processed [done Hinv].
    exists (done ++ [current]). by apply kahn_count_inv_step.
  - exists []. apply kahn_count_inv_initial.
  - destruct Hinv as [Hcount Hnd Hnodes Hqueued Hlower].
    rewrite app_nil_r in Hnd.
    exists done. split; [done|]. split; [done|].
    intros v Hv.
    assert (Hv' : v ∈ done ++ []) by (by rewrite app_nil_r).
    split; [by apply Hnodes|].
    destruct (decide (NoDup (graph_deps v))) as [|Hrep]; [done|].
    destruct (Hqueued v Hv') as (z & Hz & Hle).
    destruct (Hlower v (Hnodes v Hv')) as (z' & Hz' & Hge).
    rewrite Hz in Hz'. injection Hz' as <-.
    assert (Hlt : (length (filter (fun d => d ∈ graph_deps v) done)
                   < length (graph_deps v))%nat).
    { apply length_lt_repeated; [by apply NoDup_filter| |done].
      by intros x [? _]%list_elem_of_filter. }
    lia.
Qed.

Lemma kahn_loop_le :
  (kahn_loop graph initial_in_degree (initial_queue initial_in_degree) 0
   <= length graph)%nat.
Proof.
  clear deps_distinct deps_declared.
  destruct kahn_loop_count as (done & <- & Hnd & Hsub).
  replace (length graph) with (length (dict_keys graph))
    by (unfold dict_keys; by rewrite length_map).
  apply submseteq_length, NoDup_submseteq; [done|].
  intros v Hv. by apply Hsub.
Qed.

(** A repeated dependency makes the loop stop short, cycle or not. *)
Lemma kahn_loop_repeated v :
  v ∈ dict_keys graph -> ~ NoDup (graph_deps v) ->
  (kahn_loop graph initial_in_degree (initial_queue initial_in_degree) 0
   < length graph)%nat.
Proof.
  clear deps_distinct deps_declared.
  intros Hv Hrep.
  destruct kahn_loop_count as (done & <- & Hnd & Hsub).
  replace (length graph) with (length (dict_keys graph))
    by (unfold dict_keys; by rewrite length_map).
  assert (Hle : done ⊆+ dict_keys graph).
  { apply NoDup_submseteq; [done|]. intros x Hx. by apply Hsub. }
  pose proof (submseteq_length _ _ Hle) as Hlen.
  destruct (decide (length done = length (dict_keys graph))) as [Heq|]; [|lia].
  destruct Hrep.
  assert (Hperm : done ≡ₚ dict_keys graph).
  { apply submseteq_length_Permutation; [done|lia]. }
  rewrite <- Hperm in Hv. by apply Hsub.
Qed.
End KahnProperties.

(** ** [validate_dag] *)

Section ValidatorProperties.
Import Validators.

(** On hashable values, Python's [==] is equality of keys. *)
Lemma py_eq_hash a b ka kb :
  py_hash a = Some ka -> py_hash b = Some kb ->
  py_eq a b = true <-> ka = kb.
Proof.
  destruct a as [|x|m|s| |], b as [|y|n|t| |]; simpl; intros [= <-] [= <-];
    try (split; [discriminate|intros [=]]); try done.
  - destruct x, y; simpl; split; (done || discriminate).
  - rewrite Z.eqb_eq. split; [by intros ->|by intros [=]].
  - rewrite Z.eqb_eq. split; [by intros ->|by intros [=]].
  - rewrite Z.eqb_eq. split; [by intros ->|by intros [=]].
  - rewrite String.eqb_eq. split; [by intros ->|by intros [=]].
Qed.

(** A node that passes the first loop, with the key of its id: a
    dictionary with the keys [id], [name] and [agent_type], a hashable id,
    and a list under [dependencies] if the key is present. *)
Definition node_ok (node : pyval) (k : hkey) : Prop :=
  exists d node_id,
    node = PDict d
    /\ dict_get "id" d = Some node_id
    /\ is_Some (dict_get "name" d)
    /\ is_Some (dict_get "agent_type" d)
    /\ py_hash node_id = Some k
    /\ exists l, get_dependencies d = PList l.

Lemma required_fields_present (d : pydict) :
  find (fun field => negb (dict_in field d)) ["id"; "name"; "agent_type"] = None
  <-> is_Some (dict_get "id" d) /\ is_Some (dict_get "name" d)
      /\ is_Some (dict_get "agent_type" d).
Proof.
  unfold dict_in; simpl.
  destruct (dict_get "id" d), (dict_get "name" d), (dict_get "agent_type" d);
    simpl; split; try done; try (intros (? & ? & ?); by apply is_Some_None in H
      || by apply is_Some_None in H0 || by apply is_Some_None in H1);
    eauto.
Qed.

#[local] Arguments List.find : simpl never.

Lemma check_nodes_inr nodes : forall i acc ids,
  check_nodes i nodes acc = inr ids <->
  exists ks, ids = acc ++ ks /\ Forall2 node_ok nodes ks
             /\ NoDup ks /\ forall k, k ∈ ks -> k ∉ acc.
Proof.
  induction nodes as [|node nodes IH]; intros i acc ids; simpl.
  - split.
    + intros [= <-]. exists []. rewrite app_nil_r.
      split; [done|]. split; [constructor|]. split; [apply NoDup_nil_2|].
      by intros k ?%elem_of_nil.
    + intros (ks & -> & Hf & _). apply Forall2_nil_inv_l in Hf as ->.
      by rewrite app_nil_r.
  - destruct node as [| | | | |d];
      try (split; [done|];
           intros (ks & _ & Hf & _); apply Forall2_cons_inv_l in Hf
             as (k & ks' & (d & nid & Hd & _) & _); done).
    destruct (find (fun field => negb (dict_in field d))
                ["id"; "name"; "agent_type"]) as [field|] eqn:Hfind.
    { split; [done|]. intros (ks & _ & Hf & _).
      apply Forall2_cons_inv_l in Hf
        as (k & ks' & (d' & nid & [= <-] & Hid & Hn & Ha & _) & _).
      assert (Hnone : find (fun field => negb (dict_in field d))
                        ["id"; "name"; "agent_type"] = None).
      { apply required_fields_present. rewrite Hid. eauto. }
      congruence. }
    apply required_fields_present in Hfind as ([nid Hid] & Hname & Hagent).
    rewrite Hid. simpl.
    destruct (py_hash nid) as [k|] eqn:Hk.
    2:{ split; [done|]. intros (ks & _ & Hf & _).
        apply Forall2_cons_inv_l in Hf
          as (k & ks' & (d' & nid' & [= <-] & Hid' & _ & _ & Hh & _) & _).
        congruence. }
    case_bool_decide as Hdup.
    { split; [done|]. intros (ks & _ & Hf & _ & Hfresh).
      apply Forall2_cons_inv_l in Hf
        as (k' & ks' & (d' & nid' & [= <-] & Hid' & _ & _ & Hh & _) & _ & ->).
      assert (k' = k) as -> by congruence.
      destruct (Hfresh k); [left|done]. }
    destruct (get_dependencies d) as [| | | |l|] eqn:Hdeps;
      try (split; [done|]; intros (ks & _ & Hf & _);
           apply Forall2_cons_inv_l in Hf
             as (k' & ks' & (d' & nid' & [= <-] & _ & _ & _ & _ & l' & Hl) & _);
           congruence).
    rewrite IH. split.
    + intros (ks & -> & Hf & Hnd & Hfresh).
      exists (k :: ks). rewrite <- app_assoc. split; [done|].
      split; [|split].
      * constructor; [|done]. exists d, nid. eauto 10.
      * apply NoDup_cons. split; [|done]. intros Hin.
        apply (Hfresh k Hin). apply elem_of_app. right. left.
      * intros k' [->|Hin]%elem_of_cons; [done|].
        intros Hacc. apply (Hfresh k' Hin). apply elem_of_app. by left.
    + intros (ks & -> & Hf & Hnd & Hfresh).
      apply Forall2_cons_inv_l in Hf
        as (k' & ks' & (d' & nid' & [= <-] & Hid' & _ & _ & Hh & _) & Hf & ->).
      assert (k' = k) as -> by congruence.
      apply NoDup_cons in Hnd as [Hk' Hnd].
      exists ks'. rewrite <- app_assoc. split; [done|]. split; [done|].
      split; [done|].
      intros x Hx [Hacc|Hx']%elem_of_app.
      * apply (Hfresh x); [by right|done].
      * apply list_elem_of_singleton in Hx' as ->. done.
Qed.

(** A node that passes both loops, with the key of its id and the keys of
    its dependencies. *)
Definition node_shape (node : pyval) (v : hkey * list hkey) : Prop :=
  exists d node_id l,
    node = PDict d
    /\ dict_get "id" d = Some node_id
    /\ is_Some (dict_get "name" d)
    /\ is_Some (dict_get "agent_type" d)
    /\ py_hash node_id = Some v.1
    /\ get_dependencies d = PList l
    /\ mapM py_hash l = Some v.2.

Lemma node_shape_view node v : node_shape node v -> node_view node = Some v.
Proof.
  intros (d & nid & l & -> & Hid & _ & _ & Hk & Hl & Hdeps).
  unfold node_view. rewrite Hid, Hl, Hk, Hdeps. by destruct v.
Qed.

Lemma check_deps_None node_id kid ids l :
  py_hash node_id = Some kid ->
  check_deps node_id ids l = None <->
  exists deps, mapM py_hash l = Some deps
               /\ forall d, d ∈ deps -> d ∈ ids /\ d <> kid.
Proof.
  intros Hkid. induction l as [|dep l IH]; simpl.
  - split; [|done]. intros _. exists []. split; [done|]. by intros d ?%elem_of_nil.
  - destruct (py_hash dep) as [k|] eqn:Hk; simpl.
    2:{ split; [done|]. by intros (deps & ? & _). }
    case_bool_decide as Hin; simpl.
    2:{ split; [done|]. intros (deps & Hm & Hall).
        destruct (mapM py_hash l) as [deps'|]; simpl in Hm; [|done].
        injection Hm as <-. destruct Hin. apply Hall. left. }
    destruct (py_eq dep node_id) eqn:Heq.
    { split; [done|]. intros (deps & Hm & Hall).
      destruct (mapM py_hash l) as [deps'|]; simpl in Hm; [|done].
      injection Hm as <-. apply (py_eq_hash _ _ _ _ Hk Hkid) in Heq.
      destruct (Hall k); [left|done]. }
    assert (Hne : k <> kid).
    { intros Hkk. apply (py_eq_hash _ _ _ _ Hk Hkid) in Hkk. congruence. }
    rewrite IH. split.
    + intros (deps & -> & Hall). exists (k :: deps). split; [done|].
      intros d [->|Hd]%elem_of_cons; [done|by apply Hall].
    + intros (deps & Hm & Hall).
      destruct (mapM py_hash l) as [deps'|]; simpl in Hm; [|done].
      injection Hm as <-. exists deps'. split; [done|].
      intros d Hd. apply Hall. by right.
Qed.

Lemma check_references_None nodes ks ids :
  Forall2 node_ok nodes ks ->
  check_references nodes ids = None <->
  exists views, map fst views = ks
                /\ Forall2 node_shape nodes views
                /\ forall v d, v ∈ views -> d ∈ v.2 -> d ∈ ids /\ d <> v.1.
Proof.
  induction 1 as [|node k nodes ks (d & nid & -> & Hid & Hn & Ha & Hk & l & Hl) _ IH];
    simpl.
  - split; [|done]. intros _. exists []. split; [done|]. split; [constructor|].
    by intros v d' ?%elem_of_nil.
  - rewrite Hl, Hid. simpl.
    destruct (check_deps nid ids l) as [e|] eqn:Hdeps.
    + split; [done|]. intros (views & Hks & Hf & Hall).
      apply Forall2_cons_inv_l in Hf
        as ([k' deps] & views' & (d' & nid' & l' & [= <-] & Hid' & _ & _ & Hk'
                                  & Hl' & Hm) & _ & ->).
      simpl in *. assert (nid' = nid) as -> by congruence.
      assert (l' = l) as -> by congruence.
      assert (check_deps nid ids l = None); [|congruence].
      apply (check_deps_None nid k' ids l Hk'). exists deps. split; [done|].
      intros x Hx. apply (Hall (k', deps) x); [left|done].
    + apply (check_deps_None nid k ids l Hk) in Hdeps as (deps & Hm & Hall).
      rewrite IH. split.
      * intros (views & <- & Hf & Hall'). exists ((k, deps) :: views).
        split; [done|]. split.
        -- constructor; [|done]. exists d, nid, l. eauto 10.
        -- intros v x [->|Hv]%elem_of_cons Hx; [by apply Hall|by eapply Hall'].
      * intros (views & Hks & Hf & Hall').
        apply Forall2_cons_inv_l in Hf as (v & views' & _ & Hf & ->).
        simpl in Hks. injection Hks as _ <-.
        exists views'. split; [done|]. split; [done|].
        intros v' x Hv' Hx. apply (Hall' v' x); [by right|done].
Qed.

Lemma dict_set_notin {V : Type} (k : hkey) (v : V) (d : list (hkey * V)) :
  k ∉ dict_keys d -> dict_set k v d = d ++ [(k, v)].
Proof.
  induction d as [|[k' v'] d IH]; simpl; [done|].
  intros [Hne Hnin]%not_elem_of_cons.
  rewrite decide_False by done. by rewrite IH.
Qed.

Lemma build_graph_unique views :
  NoDup (dict_keys views) ->
  build_graph views = (views, initial_in_degree views).
Proof.
  unfold build_graph, initial_in_degree.
  assert (Hgen : forall g deg,
            dict_keys deg = dict_keys g ->
            NoDup (dict_keys g ++ dict_keys views) ->
            fold_left
              (fun acc v =>
                 (dict_set v.1 v.2 acc.1,
                  dict_set v.1 (Z.of_nat (length v.2)) acc.2))
              views (g, deg)
            = (g ++ views,
               deg ++ map (fun e => (e.1, Z.of_nat (length e.2))) views)).
  { induction views as [|[k deps] views IH]; intros g deg Hkeys Hnd; simpl.
    - by rewrite !app_nil_r.
    - assert (Hk : k ∉ dict_keys g).
      { apply NoDup_app in Hnd as (_ & Hdisj & _). intros Hin.
        apply (Hdisj k Hin). left. }
      rewrite !dict_set_notin by (by rewrite ?Hkeys).
      rewrite IH.
      + by rewrite <- !app_assoc.
      + unfold dict_keys in *. by rewrite !map_app, Hkeys.
      + unfold dict_keys in *. rewrite map_app. simpl. rewrite <- app_assoc.
        exact Hnd. }
  intros Hnd. by rewrite (Hgen [] []).
Qed.

(** The verdict of [_has_circular_dependency] on a graph with distinct
    ids, duplicate-free dependency lists and declared dependencies. *)
Lemma has_cycle_false views :
  NoDup (dict_keys views) ->
  (forall v, v ∈ views -> NoDup v.2) ->
  (forall v d, v ∈ views -> d ∈ v.2 -> d ∈ dict_keys views) ->
  has_cycle views = false <-> no_cycle (graph_deps views).
Proof.
  intros Hnd Hdeps Hdecl. unfold has_cycle.
  rewrite build_graph_unique by done.
  rewrite negb_false_iff, bool_decide_eq_true.
  apply kahn_loop_acyclic; [done| |].
  - intros v deps Hv%dict_get_elem. by apply (Hdeps (v, deps)).
  - intros v deps d Hv%dict_get_elem Hd. by apply (Hdecl (v, deps) d).
Qed.

(** The return value of [_has_circular_dependency] in terms of the count
    of the loop. *)
Lemma has_cycle_processed views :
  NoDup (dict_keys views) ->
  (Kahn.kahn_loop views (initial_in_degree views)
     (Kahn.initial_queue (initial_in_degree views)) 0 <= length views)%nat
  /\ (has_cycle views = true <->
      (Kahn.kahn_loop views (initial_in_degree views)
         (Kahn.initial_queue (initial_in_degree views)) 0 < length views)%nat).
Proof.
  intros Hnd. pose proof (kahn_loop_le views Hnd) as Hle.
  split; [done|].
  unfold has_cycle. rewrite build_graph_unique by done.
  rewrite negb_true_iff, bool_decide_eq_false. lia.
Qed.

(** A node that lists a dependency twice is reported as a cycle. *)
Lemma has_cycle_repeated views v :
  NoDup (dict_keys views) -> v ∈ views -> ~ NoDup v.2 ->
  has_cycle views = true.
Proof.
  intros Hnd Hv Hrep. apply has_cycle_processed; [done|].
  apply (kahn_loop_repeated views Hnd v.1).
  - apply list_elem_of_fmap. by exists v.
  - destruct v as [k deps]. simpl in *.
    by rewrite (graph_entry_deps views Hnd k deps Hv).
Qed.

(** A definition that passes the checks on its form: a dictionary whose
    [nodes] entry is a non-empty list of nodes of the form above; [views]
    gives, node by node, the key of the id and the keys of the
    dependencies. *)
Definition definition_shape (dag_definition : pyval)
    (views : list (hkey * list hkey)) : Prop :=
  exists fields nodes,
    dag_definition = PDict fields
    /\ dict_get "nodes" fields = Some (PList nodes)
    /\ nodes <> []
    /\ Forall2 node_shape nodes views.

(** The number of the check that produces an error. *)
Definition error_kind (e : verror) : nat :=
  match e with
  | NotADictionary => 0
  | NodesNotAList => 1
  | NoNodes => 2
  | NodeNotADictionary _ => 3
  | MissingField _ _ => 4
  | DuplicateNodeID _ => 5
  | DependenciesNotAList _ => 6
  | NonExistentDependency _ _ => 7
  | SelfDependency _ => 8
  | CircularDependencies => 9
  | ValidationError _ => 10
  end.

(** The errors whose message holds no index, id or other value. *)
Definition constant_message (e : verror) : Prop :=
  match e with
  | NotADictionary | NodesNotAList | NoNodes | CircularDependencies => True
  | _ => False
  end.

(** A message without a value is the message of one check only. *)
Lemma constant_message_unique (w : World) e e' :
  constant_message e -> error_message w e = error_message w e' -> e' = e.
Proof.
  destruct e; try done; intros _; destruct e'; simpl; intros Heq;
    try reflexivity; discriminate Heq.
Qed.

(** No dependency list of the definition names a node twice. *)
Definition no_repeated_dependency (dag_definition : pyval) : Prop :=
  forall fields nodes node v,
    dag_definition = PDict fields ->
    dict_get "nodes" fields = Some (PList nodes) ->
    node ∈ nodes ->
    node_view node = Some v ->
    NoDup v.2.

Lemma Forall2_shape_unique nodes views views' :
  Forall2 node_shape nodes views -> Forall2 node_shape nodes views' ->
  views = views'.
Proof.
  intros Hf. revert views'.
  induction Hf as [|node v nodes views Hv _ IH]; intros views' Hf'.
  - by apply Forall2_nil_inv_l in Hf'.
  - apply Forall2_cons_inv_l in Hf' as (v' & vs' & Hv' & Hf' & ->).
    f_equal; [|by apply IH].
    apply node_shape_view in Hv, Hv'. congruence.
Qed.

Lemma validate_dag_Valid dag_definition :
  validate_dag dag_definition = Valid <->
  exists views,
    definition_shape dag_definition views
    /\ NoDup (map fst views)
    /\ (forall v d, v ∈ views -> d ∈ v.2 -> d ∈ map fst views /\ d <> v.1)
    /\ has_cycle views = false.
Proof.
  unfold validate_dag. split.
  - destruct dag_definition as [| | | | |fields]; try done.
    destruct (dict_get "nodes" fields) as [[| | | |ns|]|] eqn:Hnodes;
      simpl; try done.
    destruct ns as [|node rest] eqn:Hn; [done|]. rewrite <- Hn in Hnodes |- *.
    destruct (check_nodes 0 ns []) as [e|ids] eqn:Hcheck; [done|].
    apply check_nodes_inr in Hcheck as (ks & -> & Hok & Hnd & _).
    simpl.
    destruct (check_references ns ks) as [e|] eqn:Href; [done|].
    apply (check_references_None _ _ _ Hok) in Href
      as (views & <- & Hshape & Hall).
    unfold _has_circular_dependency.
    assert (Hviews : mapM node_view ns = Some views).
    { apply mapM_Some. eapply Forall2_impl; [exact Hshape|].
      intros ? ?. apply node_shape_view. }
    rewrite Hviews. destruct (has_cycle views) eqn:Hcyc; [done|].
    intros _. exists views. split; [|done].
    exists fields, ns. split; [done|]. split; [done|].
    split; [by rewrite Hn|done].
  - intros (views & (fields & ns & -> & Hnodes & Hne & Hshape) & Hnd & Hall & Hcyc).
    rewrite Hnodes. simpl. destruct ns as [|node rest] eqn:Hn; [done|].
    rewrite <- Hn in *.
    assert (Hcheck : check_nodes 0 ns [] = inr (map fst views)).
    { apply check_nodes_inr. exists (map fst views). split; [done|].
      split; [|split; [done|by intros k _ ?%elem_of_nil]].
      apply Forall2_fmap_r. eapply Forall2_impl; [exact Hshape|].
      intros x v (d & nid & l & -> & ? & ? & ? & ? & ? & ?). exists d, nid. eauto 10. }
    rewrite Hcheck.
    assert (Hok : Forall2 node_ok ns (map fst views)).
    { apply Forall2_fmap_r. eapply Forall2_impl; [exact Hshape|].
      intros x v (d & nid & l & -> & ? & ? & ? & ? & ? & ?). exists d, nid. eauto 10. }
    assert (Href : check_references ns (map fst views) = None).
    { apply (check_references_None _ _ _ Hok). by exists views. }
    rewrite Href. unfold _has_circular_dependency.
    assert (Hviews : mapM node_view ns = Some views).
    { apply mapM_Some. eapply Forall2_impl; [exact Hshape|].
      intros ? ?. apply node_shape_view. }
    by rewrite Hviews, Hcyc.
Qed.

(** C7, as amended.  Of a DAG definition in which no dependency list
    names a node twice, [validate_dag] accepts the definition if and only
    if it is a dictionary whose [nodes] entry is a non-empty list of
    dictionaries, each with the keys [id], [name] and [agent_type] (their
    values are not inspected, except that the id is hashable) and with a
    list under [dependencies] when that key is present; the ids are
    distinct; every dependency is the id of a declared node and not the id
    of its own node; and the dependency graph has no cycle.  Cycle
    detection is Kahn's loop: it processes at most as many nodes as there
    are, it reports a cycle exactly when it has processed fewer, and on
    these definitions it processes fewer exactly when the graph has a
    cycle.  Every check has a message of its own text; a message that
    holds no value is the message of one check only, while the ids are
    formatted into the other messages, so that two different checks can
    return the same message. *)
Theorem validate_dag_accepts (w : World) dag_definition :
  no_repeated_dependency dag_definition ->
  (validate_dag dag_definition = Valid <->
   exists views,
     definition_shape dag_definition views
     /\ NoDup (map fst views)
     /\ (forall v d, v ∈ views -> d ∈ v.2 -> d ∈ map fst views)
     /\ (forall v, v ∈ views -> v.1 ∉ v.2)
     /\ no_cycle (graph_deps views))
  /\ (forall views,
        definition_shape dag_definition views ->
        NoDup (map fst views) ->
        (forall v d, v ∈ views -> d ∈ v.2 -> d ∈ map fst views) ->
        let processed :=
          Kahn.kahn_loop views (initial_in_degree views)
            (Kahn.initial_queue (initial_in_degree views)) 0 in
        (processed <= length views)%nat
        /\ (has_cycle views = true <-> (processed < length views)%nat)
        /\ ((processed < length views)%nat <-> ~ no_cycle (graph_deps views)))
  /\ (returned w (validate_dag dag_definition) = (true, "")
      <-> validate_dag dag_definition = Valid)
  /\ (forall e e', constant_message e ->
                   error_message w e = error_message w e' -> e' = e)
  /\ (exists d1 d2 e1 e2,
        validate_dag d1 = Invalid e1 /\ validate_dag d2 = Invalid e2
        /\ error_kind e1 <> error_kind e2
        /\ error_message w e1 = error_message w e2).
Proof.
  intros Hrep.
  assert (Hviews : forall views,
            definition_shape dag_definition views ->
            forall v, v ∈ views -> NoDup v.2).
  { intros views (fields & nodes & Hd & Hnodes & _ & Hshape) v Hv.
    apply list_elem_of_lookup in Hv as [i Hi].
    destruct (Forall2_lookup_r _ _ _ _ _ Hshape Hi) as (node & Hnode & Hsh).
    apply (Hrep fields nodes node v Hd Hnodes);
      [by eapply list_elem_of_lookup_2|by apply node_shape_view]. }
  split; [|split; [|split; [|split]]].
  - rewrite validate_dag_Valid. split.
    + intros (views & Hshape & Hnd & Hall & Hcyc).
      assert (Hdecl : forall v d, v ∈ views -> d ∈ v.2 -> d ∈ map fst views).
      { intros v d Hv Hd. by apply (Hall v d). }
      apply (has_cycle_false views Hnd (Hviews views Hshape) Hdecl) in Hcyc.
      exists views. split; [done|]. split; [done|]. split; [done|].
      split; [intros v Hv Hin; by destruct (Hall v v.1 Hv Hin)|done].
    + intros (views & Hshape & Hnd & Hdecl & Hself & Hac).
      exists views. split; [done|]. split; [done|]. split.
      * intros v d Hv Hd. split; [by eapply Hdecl|]. intros ->. by apply (Hself v).
      * by apply (has_cycle_false views Hnd (Hviews views Hshape) Hdecl).
  - intros views Hshape Hnd Hdecl processed.
    destruct (has_cycle_processed views Hnd) as [Hle Hcyc].
    split; [done|]. split; [done|].
    unfold processed. rewrite <- Hcyc.
    pose proof (has_cycle_false views Hnd (Hviews views Hshape) Hdecl) as Hfalse.
    destruct (has_cycle views); split; try done.
    + intros _ Hac. by assert (true = false) by (by apply Hfalse).
    + intros Hcy. destruct Hcy. by apply Hfalse.
  - destruct (validate_dag dag_definition); simpl; split; done.
  - intros e e'. apply constant_message_unique.
  - exists (PDict [("nodes",
              PList [PDict [("id", PStr "a"); ("name", PStr "n");
                            ("agent_type", PStr "t");
                            ("dependencies",
                             PList [PStr "b cannot depend on itself"])]])]),
           (PDict [("nodes",
              PList [PDict [("id", PStr "a depends on non-existent node: b");
                            ("name", PStr "n"); ("agent_type", PStr "t");
                            ("dependencies",
                             PList [PStr "a depends on non-existent node: b"])]])]),
           (NonExistentDependency (PStr "a") (PStr "b cannot depend on itself")),
           (SelfDependency (PStr "a depends on non-existent node: b")).
    split; [reflexivity|]. split; [reflexivity|]. split; [done|]. reflexivity.
Qed.

(** The three checks on the top level, in their order. *)
Lemma validate_dag_top_level dag_definition :
  ((forall fields, dag_definition <> PDict fields) ->
   validate_dag dag_definition = Invalid NotADictionary)
  /\ (forall fields nodes,
        dag_definition = PDict fields ->
        dict_get "nodes" fields = Some nodes ->
        (forall l, nodes <> PList l) ->
        validate_dag dag_definition = Invalid NodesNotAList)
  /\ (forall fields,
        dag_definition = PDict fields ->
        dict_get "nodes" fields = None
        \/ dict_get "nodes" fields = Some (PList []) ->
        validate_dag dag_definition = Invalid NoNodes).
Proof.
  split; [|split].
  - intros Hn. destruct dag_definition as [| | | | |fields]; try done.
    by destruct (Hn fields).
  - intros fields nodes -> Hn Hl. simpl. rewrite Hn. simpl.
    destruct nodes; try done. by destruct (Hl l).
  - intros fields -> [Hn|Hn]; simpl; by rewrite Hn.
Qed.
End ValidatorProperties.

Section ValidatorExamples.
Import Validators.

(** A node of a DAG definition, as the JSON format has it. *)
Definition json_node (id name agent_type : string) (dependencies : list string)
    : pyval :=
  PDict [("id", PStr id); ("name", PStr name); ("agent_type", PStr agent_type);
         ("dependencies", PList (map PStr dependencies))].

Definition json_dag (nodes : list pyval) : pyval :=
  PDict [("nodes", PList nodes)].

(** The diamond A -> B, A -> C, B -> D, C -> D as a definition. *)
Definition diamond_definition : pyval :=
  json_dag [json_node "A" "first" "echo" [];
            json_node "B" "left" "echo" ["A"];
            json_node "C" "right" "echo" ["A"];
            json_node "D" "last" "echo" ["B"; "C"]].

(** A node whose three required fields are empty strings. *)
Definition blank_definition : pyval := json_dag [json_node "" "" "" []].

(** B lists its only dependency twice; there is no cycle. *)
Definition repeated_definition : pyval :=
  json_dag [json_node "A" "first" "echo" [];
            json_node "B" "second" "echo" ["A"; "A"]].

(** A and B depend on each other. *)
Definition cyclic_definition : pyval :=
  json_dag [json_node "A" "first" "echo" ["B"];
            json_node "B" "second" "echo" ["A"]].

Example diamond_definition_valid : validate_dag diamond_definition = Valid.
Proof. vm_compute. reflexivity. Qed.

Example blank_definition_valid : validate_dag blank_definition = Valid.
Proof. vm_compute. reflexivity. Qed.

Example cyclic_definition_rejected :
  validate_dag cyclic_definition = Invalid CircularDependencies.
Proof. vm_compute. reflexivity. Qed.

Example repeated_definition_rejected :
  validate_dag repeated_definition = Invalid CircularDependencies.
Proof. vm_compute. reflexivity. Qed.

Example missing_field_rejected :
  validate_dag (json_dag [PDict [("id", PStr "A"); ("name", PStr "first")]])
  = Invalid (MissingField 0 "agent_type").
Proof. vm_compute. reflexivity. Qed.

Example self_dependency_rejected :
  validate_dag (json_dag [json_node "A" "first" "echo" ["A"]])
  = Invalid (SelfDependency (PStr "A")).
Proof. vm_compute. reflexivity. Qed.

(** A required field as the specification describes it: a non-empty
    string. *)
Definition nonempty_string_field (field : string) (node : pydict) : Prop :=
  exists s, dict_get field node = Some (PStr s) /\ s <> "".

(** A node as the specification describes it, with its id and the ids of
    its dependencies. *)
Definition stated_node (node : pyval) (v : hkey * list hkey) : Prop :=
  exists d,
    node = PDict d
    /\ nonempty_string_field "id" d
    /\ nonempty_string_field "name" d
    /\ nonempty_string_field "agent_type" d
    /\ node_view node = Some v.

(** The conditions of C7 as the specification lists them. *)
Definition stated_validity (dag_definition : pyval) : Prop :=
  exists fields nodes views,
    dag_definition = PDict fields
    /\ dict_get "nodes" fields = Some (PList nodes)
    /\ nodes <> []
    /\ Forall2 stated_node nodes views
    /\ NoDup (map fst views)
    /\ (forall v d, v ∈ views -> d ∈ v.2 -> d ∈ map fst views)
    /\ (forall v, v ∈ views -> v.1 ∉ v.2)
    /\ no_cycle (graph_deps views).

(** C7 as the specification states it. *)
Definition validate_dag_as_stated : Prop :=
  forall dag_definition,
    validate_dag dag_definition = Valid <-> stated_validity dag_definition.

(** Counterexample to C7: the three required fields are present and
    empty, and the definition is accepted. *)
Lemma validate_dag_as_stated_fails : ~ validate_dag_as_stated.
Proof.
  intros H.
  destruct (proj1 (H blank_definition) blank_definition_valid)
    as (fields & nodes & views & Hdef & Hnodes & _ & Hshape & _).
  injection Hdef as <-. injection Hnodes as <-.
  apply Forall2_cons_inv_l in Hshape as (v & vs & Hnode & _ & _).
  destruct Hnode as (d & Hd & (s & Hid & Hs) & _).
  injection Hd as <-. injection Hid as <-. by apply Hs.
Qed.

(** The stated conditions hold also of the definition with the repeated
    dependency, which has no cycle and which the code reports as
    circular. *)
Example repeated_definition_stated_valid : stated_validity repeated_definition.
Proof.
  exists [("nodes", PList [json_node "A" "first" "echo" [];
                           json_node "B" "second" "echo" ["A"; "A"]])],
         [json_node "A" "first" "echo" [];
          json_node "B" "second" "echo" ["A"; "A"]],
         [(KStr "A", []); (KStr "B", [KStr "A"; KStr "A"])].
  split; [done|]. split; [done|]. split; [done|]. split.
  { repeat constructor; eexists; (split; [reflexivity|]);
      repeat (split; [by eexists|]); reflexivity. }
  split; [by apply NoDup_ListNoDup; repeat constructor; simpl; intuition congruence|].
  split.
  { intros v d Hv Hd. simpl.
    repeat (apply elem_of_cons in Hv as [->|Hv]); simpl in Hd;
      [by apply elem_of_nil in Hd| |by apply elem_of_nil in Hv].
    repeat (apply elem_of_cons in Hd as [->|Hd]);
      [left|left|by apply elem_of_nil in Hd]. }
  split.
  { intros v Hv. repeat (apply elem_of_cons in Hv as [->|Hv]); simpl;
      [apply not_elem_of_nil| |by apply elem_of_nil in Hv].
    intros Hin. repeat (apply elem_of_cons in Hin as [[=]|Hin]).
    by apply elem_of_nil in Hin. }
  apply (ranked_no_cycle _ (fun k => if decide (k = KStr "B") then 1 else 0)%nat).
  intros x y Hy. unfold graph_deps in Hy. simpl in Hy.
  destruct (decide (x = KStr "A")) as [->|?]; simpl in Hy;
    [by apply elem_of_nil in Hy|].
  destruct (decide (x = KStr "B")) as [->|?]; simpl in Hy;
    [|by apply elem_of_nil in Hy].
  repeat (apply elem_of_cons in Hy as [->|Hy]);
    [..|by apply elem_of_nil in Hy]; vm_compute; lia.
Qed.

(** Witness of the amended C7: no dependency list of the diamond names a
    node twice; the diamond is accepted, so it has the form, the distinct
    ids, the declared dependencies and the acyclic graph of the theorem. *)
Lemma validate_dag_accepts_witness :
  no_repeated_dependency diamond_definition
  /\ validate_dag diamond_definition = Valid
  /\ exists views,
       definition_shape diamond_definition views
       /\ NoDup (map fst views)
       /\ (forall v d, v ∈ views -> d ∈ v.2 -> d ∈ map fst views)
       /\ (forall v, v ∈ views -> v.1 ∉ v.2)
       /\ no_cycle (graph_deps views).
Proof.
  assert (Hrep : no_repeated_dependency diamond_definition).
  { intros fields nodes node v [= <-] [= <-] Hin Hv.
    repeat (apply elem_of_cons in Hin as [->|Hin]);
      [..|by apply elem_of_nil in Hin];
      injection Hv as <-; apply NoDup_ListNoDup;
      repeat constructor; simpl; intuition congruence. }
  assert (H : validate_dag diamond_definition = Valid).
  { vm_compute. reflexivity. }
  split; [exact Hrep|]. split; [exact H|].
  exact (proj1 (proj1 (validate_dag_accepts Examples.fast_world
                         diamond_definition Hrep)) H).
Defined.
End ValidatorExamples.

(** ** [WorkflowDAG.validate] *)

Section DictExtensionality.
Context {K V : Type} `{EqDecision K}.

(** Two dictionaries with the same keys in the same order and the same
    value under every key are the same dictionary. *)
Lemma dict_ext (d1 d2 : list (K * V)) :
  dict_keys d1 = dict_keys d2 ->
  NoDup (dict_keys d1) ->
  (forall k, k ∈ dict_keys d1 -> dict_get k d1 = dict_get k d2) ->
  d1 = d2.
Proof.
  revert d2. induction d1 as [|[k v] d1 IH]; intros [|[k' v'] d2]; simpl;
    try done.
  intros [= <- Hk] [Hnk Hnd]%NoDup_cons Hget.
  pose proof (Hget k ltac:(left)) as Hkk. simpl in Hkk.
  rewrite !decide_True in Hkk by done. injection Hkk as <-.
  f_equal. apply IH; [done|done|].
  intros j Hj. specialize (Hget j ltac:(by right)). simpl in Hget.
  rewrite !decide_False in Hget by (by intros ->). done.
Qed.
End DictExtensionality.

Section ValidateProperties.
Import Dag.

Lemma dict_adjust_id {K V : Type} `{EqDecision K} (f : V -> V) (k : K)
    (d : list (K * V)) :
  (forall v, f v = v) -> dict_adjust f k d = d.
Proof.
  intros Hf. induction d as [|[k' v] d IH]; simpl; [done|].
  case_decide; [by rewrite Hf|by rewrite IH].
Qed.

Lemma dict_adjust_compose {K V : Type} `{EqDecision K} (f g : V -> V) (k : K)
    (d : list (K * V)) :
  dict_adjust g k (dict_adjust f k d) = dict_adjust (fun v => g (f v)) k d.
Proof.
  induction d as [|[k' v] d IH]; simpl; [done|].
  case_decide; simpl.
  - by rewrite decide_True.
  - rewrite decide_False by done. by rewrite IH.
Qed.

Lemma dict_adjust_ext {K V : Type} `{EqDecision K} (f g : V -> V) (k : K)
    (d : list (K * V)) :
  (forall v, f v = g v) -> dict_adjust f k d = dict_adjust g k d.
Proof.
  intros Hfg. induction d as [|[k' v] d IH]; simpl; [done|].
  case_decide; [by rewrite Hfg|by rewrite IH].
Qed.

(** The inner loop of the in-degree count adds one for every dependency
    that is a declared node. *)
Lemma count_deps_declared (node_id : string) (deps : list string)
    (in_degree : list (string * Z)) :
  (forall d, d ∈ deps -> d ∈ dict_keys in_degree) ->
  fold_left
    (fun in_degree dep =>
       if dict_in dep in_degree
       then dict_adjust (fun d => d + 1) node_id in_degree
       else in_degree)
    deps in_degree
  = dict_adjust (fun d => d + Z.of_nat (length deps)) node_id in_degree.
Proof.
  revert in_degree. induction deps as [|dep deps IH]; intros in_degree Hdecl.
  - simpl. rewrite dict_adjust_id; [done|]. intros v. lia.
  - cbn [fold_left].
    assert (Hin : dict_in dep in_degree = true).
    { unfold dict_in.
      destruct (dict_keys_get dep in_degree) as [z ->]; [|done].
      apply Hdecl. left. }
    rewrite Hin, IH.
    + rewrite dict_adjust_compose. apply dict_adjust_ext.
      intros v. cbn [length]. rewrite Nat2Z.inj_succ. lia.
    + intros d Hd. rewrite dict_keys_adjust. apply Hdecl. by right.
Qed.

(** The in-degree table of a DAG whose dependencies are all declared:
    the length of each dependency list. *)
Lemma count_in_degree_declared g :
  consistent g ->
  dependencies_declared g ->
  count_in_degree g = initial_in_degree (edges g).
Proof.
  intros [Hnd Hid Hek Hed] Hdecl. unfold count_in_degree.
  assert (Hdecl' : forall k deps d,
            (k, deps) ∈ edges g -> d ∈ deps -> d ∈ dict_keys (edges g)).
  { intros k deps d Hin Hd. rewrite Hek. apply (Hdecl k).
    assert (Hk : k ∈ dict_keys (nodes g)).
    { rewrite <- Hek. apply list_elem_of_fmap. by exists (k, deps). }
    destruct (dict_keys_get k (nodes g) Hk) as [n Hn].
    unfold deps_of. rewrite Hn.
    assert (Hnd' : NoDup (dict_keys (edges g))) by by rewrite Hek.
    rewrite <- (graph_entry_deps (edges g) Hnd' k deps Hin) in Hd.
    unfold graph_deps in Hd. by rewrite (Hed k n Hn) in Hd. }
  assert (Hgen : forall (es : list (string * list string))
                         (acc : list (string * Z)),
            NoDup (dict_keys es) ->
            (forall k deps d, (k, deps) ∈ es -> d ∈ deps -> d ∈ dict_keys acc) ->
            dict_keys
              (fold_left
                 (fun in_degree '(node_id, dependencies) =>
                    fold_left
                      (fun in_degree dep =>
                         if dict_in dep in_degree
                         then dict_adjust (fun d => d + 1) node_id in_degree
                         else in_degree)
                      dependencies in_degree) es acc) = dict_keys acc
            /\ forall k,
                 dict_get k
                   (fold_left
                      (fun in_degree '(node_id, dependencies) =>
                         fold_left
                           (fun in_degree dep =>
                              if dict_in dep in_degree
                              then dict_adjust (fun d => d + 1) node_id in_degree
                              else in_degree)
                           dependencies in_degree) es acc)
                 = match dict_get k es with
                   | Some deps =>
                       (fun z => z + Z.of_nat (length deps)) <$> dict_get k acc
                   | None => dict_get k acc
                   end).
  { induction es as [|[v deps] es IH]; intros acc Hnd' Hd; [done|].
    cbn [fold_left]. apply NoDup_cons in Hnd' as [Hv Hnd'].
    rewrite count_deps_declared by (intros d; apply (Hd v deps); left).
    destruct (IH (dict_adjust (fun d => d + Z.of_nat (length deps)) v acc) Hnd')
      as [Hk Hg].
    { intros k ds d Hin Hdd. rewrite dict_keys_adjust.
      apply (Hd k ds d); [by right|done]. }
    split; [by rewrite Hk, dict_keys_adjust|].
    intros k. rewrite Hg. simpl.
    destruct (decide (k = v)) as [->|Hne].
    - assert (dict_get v es = None) as -> by (by apply dict_get_None_keys).
      by rewrite dict_get_adjust_eq.
    - rewrite dict_get_adjust_ne by done. done. }
  destruct (Hgen (edges g) (map (fun e => (e.1, 0)) (nodes g))) as [Hk Hg].
  { by rewrite Hek. }
  { intros k deps d Hin Hd.
    assert (dict_keys (map (fun e : string * DAGNode => (e.1, 0)) (nodes g))
            = dict_keys (nodes g)) as ->.
    { unfold dict_keys. rewrite map_map. done. }
    rewrite <- Hek. by eapply Hdecl'. }
  assert (Hk0 : dict_keys (map (fun e : string * DAGNode => (e.1, 0)) (nodes g))
                = dict_keys (nodes g)).
  { unfold dict_keys. rewrite map_map. done. }
  assert (Hki : dict_keys (initial_in_degree (edges g)) = dict_keys (edges g)).
  { unfold initial_in_degree, dict_keys. rewrite map_map. done. }
  apply dict_ext.
  - by rewrite Hk, Hk0, Hki, Hek.
  - by rewrite Hk, Hk0.
  - intros k Hkin. rewrite Hk, Hk0 in Hkin. rewrite Hg.
    assert (Hke : k ∈ dict_keys (edges g)) by by rewrite Hek.
    rewrite (initial_in_degree_get (edges g) k Hke).
    destruct (dict_keys_get k (edges g) Hke) as [deps Hdeps].
    unfold graph_deps. rewrite Hdeps. simpl.
    assert (dict_get k (map (fun e : string * DAGNode => (e.1, 0)) (nodes g))
            = Some 0) as ->; [|done].
    clear -Hkin. induction (nodes g) as [|[k' n] l IH]; simpl;
      [by apply elem_of_nil in Hkin|].
    case_decide; [done|]. apply IH.
    apply elem_of_cons in Hkin as [?|?]; done.
Qed.

Lemma no_cycle_ext {A : Type} (E E' : A -> list A) :
  (forall x, E x = E' x) -> no_cycle E -> no_cycle E'.
Proof.
  intros Heq Hac x Hx. apply (Hac x).
  assert (Htc : forall a b, tc (edge E') a b -> tc (edge E) a b).
  { induction 1 as [a b Hab|a b c Hab _ IH].
    - apply tc_once. unfold edge in *. by rewrite Heq.
    - eapply tc_l; [|exact IH]. unfold edge in *. by rewrite Heq. }
  by apply Htc.
Qed.

(** The [edges] table of a consistent DAG gives the dependency list of
    every node. *)
Lemma graph_deps_edges g k : consistent g -> graph_deps (edges g) k = deps_of g k.
Proof.
  intros [Hnd Hid Hek Hed]. unfold graph_deps, deps_of.
  destruct (dict_get k (nodes g)) as [n|] eqn:Hn.
  - by rewrite (Hed k n Hn).
  - assert (dict_get k (edges g) = None) as ->; [|done].
    apply dict_get_None_keys. rewrite Hek. by apply dict_get_None_keys.
Qed.

Lemma validate_true_iff g :
  consistent g ->
  dependencies_declared g ->
  validate g = true <->
  acyclic g /\ forall k n, dict_get k (nodes g) = Some n -> NoDup (dependencies n).
Proof.
  intros Hg Hdecl. pose proof Hg as [Hnd Hid Hek Hed].
  unfold validate. rewrite (count_in_degree_declared g Hg Hdecl).
  rewrite bool_decide_eq_true.
  assert (Hlen : length (nodes g) = length (edges g)).
  { rewrite <- (length_map fst (nodes g)), <- (length_map fst (edges g)).
    fold (dict_keys (nodes g)). fold (dict_keys (edges g)). by rewrite Hek. }
  rewrite Hlen.
  assert (Hnd' : NoDup (dict_keys (edges g))) by by rewrite Hek.
  assert (Hentry : forall k deps, dict_get k (edges g) = Some deps ->
            exists n, dict_get k (nodes g) = Some n /\ dependencies n = deps).
  { intros k deps Hk.
    destruct (dict_keys_get k (nodes g)) as [n Hn].
    { rewrite <- Hek. by eapply dict_get_Some_keys. }
    exists n. split; [done|]. rewrite (Hed k n Hn) in Hk. congruence. }
  destruct (decide (Forall (fun e : string * list string => NoDup e.2) (edges g)))
    as [Hall|Hsome].
  - rewrite Forall_forall in Hall.
    rewrite (kahn_loop_acyclic (edges g) Hnd').
    + split.
      * intros Hac. split.
        -- eapply no_cycle_ext; [|exact Hac].
           intros x. by apply graph_deps_edges.
        -- intros k n Hn. apply (Hall (k, dependencies n)).
           apply dict_get_elem. by apply Hed.
      * intros [Hac _]. eapply no_cycle_ext; [|exact Hac].
        intros x. symmetry. by apply graph_deps_edges.
    + intros v deps Hv%dict_get_elem. by apply (Hall (v, deps)).
    + intros v deps d Hv Hd. rewrite Hek.
      destruct (Hentry v deps Hv) as (n & Hn & <-).
      apply (Hdecl v). unfold deps_of. by rewrite Hn.
  - apply not_Forall_Exists in Hsome; [|intros e; apply _].
    apply Exists_exists in Hsome as ([k deps] & Hin & Hrep). simpl in Hrep.
    assert (Hk : k ∈ dict_keys (edges g)).
    { apply list_elem_of_fmap. by exists (k, deps). }
    pose proof (kahn_loop_repeated (edges g) Hnd' k Hk) as Hlt.
    rewrite (graph_entry_deps (edges g) Hnd' k deps Hin) in Hlt.
    specialize (Hlt Hrep). split; [lia|].
    intros [_ Hall]. destruct Hrep.
    assert (Hget : dict_get k (edges g) = Some deps).
    { rewrite <- (graph_entry_deps (edges g) Hnd' k deps Hin).
      unfold graph_deps. destruct (dict_keys_get k (edges g) Hk) as [ds ->]. done. }
    destruct (Hentry k deps Hget) as (n & Hn & <-). by eapply Hall.
Qed.

(** [validate] accepts a DAG whose dependencies are all declared exactly
    when its dependency graph has no cycle and no dependency list names a
    node twice. *)
Theorem validate_acyclic g :
  consistent g ->
  dependencies_declared g ->
  validate g = true <->
  acyclic g /\ forall k n, dict_get k (nodes g) = Some n -> NoDup (dependencies n).
Proof. intros Hg Hdecl. exact (validate_true_iff g Hg Hdecl). Qed.
End ValidateProperties.

(** ** When [get_execution_order] returns a plan *)

Section ExecutionOrderReturns.
Import Dag.
Variable ord : SetOrder.

Lemma concat_level_unique {A : Type} (levels : list (list A)) i j l1 l2 x :
  NoDup (concat levels) ->
  levels !! i = Some l1 -> levels !! j = Some l2 ->
  x ∈ l1 -> x ∈ l2 -> i = j.
Proof.
  revert i j. induction levels as [|l ls IH]; intros i j Hnd Hi Hj H1 H2; [done|].
  simpl in Hnd. apply NoDup_app in Hnd as (_ & Hdisj & Hnd').
  assert (Hin : forall n l', ls !! n = Some l' -> x ∈ l' -> x ∈ concat ls).
  { intros n l' Hn Hx. apply list_elem_of_In, in_concat. exists l'.
    split; apply list_elem_of_In; [by eapply list_elem_of_lookup_2|done]. }
  destruct i as [|i], j as [|j]; simpl in *; try done.
  - injection Hi as ->. destruct (Hdisj x H1). by eapply Hin.
  - injection Hj as ->. destruct (Hdisj x H2). by eapply Hin.
  - f_equal. by apply IH.
Qed.

(** What a plan tells about the DAG it was computed for. *)
Lemma execution_order_sound g levels :
  NoDup (dict_keys (nodes g)) ->
  get_execution_order ord g = Ret levels ->
  validate g = true
  /\ NoDup (concat levels)
  /\ concat levels ≡ₚ dict_keys (nodes g)
  /\ (forall k n, dict_get k (nodes g) = Some n -> status n = PENDING)
  /\ (forall i level k d,
        levels !! i = Some level -> k ∈ level -> d ∈ deps_of g k ->
        exists j earlier, (j < i)%nat /\ levels !! j = Some earlier /\ d ∈ earlier).
Proof.
  intros Hnd Hl. unfold get_execution_order in Hl.
  destruct (validate g) eqn:Hval; [|done]. simpl in Hl.
  apply levels_loop_levels_of in Hl.
  destruct (levels_of_NoDup _ _ _ _ Hl Hnd) as [_ Hperm].
  assert (Hlevel : forall k, k ∈ dict_keys (nodes g) ->
            exists i level, levels !! i = Some level /\ k ∈ level).
  { intros k Hk. rewrite <- Hperm in Hk.
    apply list_elem_of_In, in_concat in Hk as (level & Hlevel & Hk).
    apply list_elem_of_In in Hlevel, Hk.
    apply list_elem_of_lookup in Hlevel as [i Hi]. eauto. }
  split; [done|]. split; [by rewrite Hperm|]. split; [done|]. split.
  - intros k n Hn.
    destruct (Hlevel k) as (i & level & Hi & Hk); [by eapply dict_get_Some_keys|].
    destruct (levels_of_ready _ _ _ _ _ _ _ Hl Hi Hk) as [_ Hr].
    apply node_ready_spec in Hr as (n' & Hn' & Hs & _). congruence.
  - intros i level k d Hi Hk Hd.
    destruct (levels_of_ready _ _ _ _ _ _ _ Hl Hi Hk) as [_ Hr].
    apply node_ready_spec in Hr as (n & Hn & _ & Hall).
    unfold deps_of in Hd. rewrite Hn in Hd.
    specialize (Hall d Hd). rewrite union_empty_l_L in Hall.
    apply elem_of_list_to_set, list_elem_of_In, in_concat in Hall
      as (earlier & He & Hde).
    apply list_elem_of_In, list_elem_of_lookup in He as [j Hj].
    apply lookup_take_Some in Hj as [Hj Hlt].
    exists j, earlier. split; [done|]. split; [done|]. by apply list_elem_of_In.
Qed.

(** [get_execution_order] returns a plan exactly for the DAGs whose nodes
    are all [PENDING], whose dependencies are all declared nodes, whose
    dependency lists have no repeated entry and whose dependency graph has
    no cycle; for every other DAG it raises [ValueError]. *)
Theorem execution_order_returns_iff g :
  consistent g ->
  (exists levels, get_execution_order ord g = Ret levels) <->
  (forall k n, dict_get k (nodes g) = Some n -> status n = PENDING)
  /\ dependencies_declared g
  /\ acyclic g
  /\ (forall k n, dict_get k (nodes g) = Some n -> NoDup (dependencies n)).
Proof.
  intros Hg. pose proof (keys_NoDup _ Hg) as Hnd. split.
  - intros [levels Hl].
    destruct (execution_order_sound g levels Hnd Hl)
      as (Hval & Hndl & Hperm & Hpend & Hearlier).
    assert (Hlevel : forall k, k ∈ dict_keys (nodes g) ->
              exists i level, levels !! i = Some level /\ k ∈ level).
    { intros k Hk. rewrite <- Hperm in Hk.
      apply list_elem_of_In, in_concat in Hk as (level & Hlevel & Hk).
      apply list_elem_of_In in Hlevel, Hk.
      apply list_elem_of_lookup in Hlevel as [i Hi]. eauto. }
    assert (Hkey : forall k d, d ∈ deps_of g k -> k ∈ dict_keys (nodes g)).
    { intros k d Hd. unfold deps_of in Hd.
      destruct (dict_get k (nodes g)) as [n|] eqn:Hn;
        [by eapply dict_get_Some_keys|by apply elem_of_nil in Hd]. }
    assert (Hdecl : dependencies_declared g).
    { intros k d Hd.
      destruct (Hlevel k (Hkey k d Hd)) as (i & level & Hi & Hk).
      destruct (Hearlier i level k d Hi Hk Hd) as (j & earlier & _ & Hj & Hde).
      rewrite <- Hperm. apply list_elem_of_In, in_concat. exists earlier.
      split; apply list_elem_of_In; [by eapply list_elem_of_lookup_2|done]. }
    assert (Hac : acyclic g).
    { assert (Htc : forall a b, tc (edge (deps_of g)) a b ->
                forall i level, levels !! i = Some level -> a ∈ level ->
                  exists j earlier, (j < i)%nat /\ levels !! j = Some earlier
                                    /\ b ∈ earlier).
      { induction 1 as [a b Hab|a b c Hab _ IH]; intros i level Hi Ha.
        - by eapply Hearlier.
        - destruct (Hearlier i level a b Hi Ha Hab) as (j & l' & Hj & Hl' & Hb).
          destruct (IH j l' Hl' Hb) as (j' & l'' & Hj' & Hl'' & Hc).
          exists j', l''. split; [lia|done]. }
      intros x Hx.
      assert (Hxk : x ∈ dict_keys (nodes g)).
      { assert (Hfirst : forall a b, tc (edge (deps_of g)) a b ->
                  exists y, edge (deps_of g) a y) by (destruct 1; eauto).
        destruct (Hfirst x x Hx) as [y Hy]. by eapply Hkey. }
      destruct (Hlevel x Hxk) as (i & level & Hi & Hxl).
      destruct (Htc x x Hx i level Hi Hxl) as (j & earlier & Hj & He & Hxe).
      assert (i = j) by (by eapply (concat_level_unique levels i j)). lia. }
    split; [done|]. split; [done|]. split; [done|].
    by apply (validate_true_iff g Hg Hdecl).
  - intros (Hpend & Hdecl & Hac & Hrep).
    assert (Hval : validate g = true) by (by apply validate_true_iff).
    unfold get_execution_order. rewrite Hval. simpl.
    pose proof (levels_loop_total ord g Hpend Hac Hdecl (dict_keys (nodes g)) ∅)
      as Hret.
    destruct (levels_loop ord g (dict_keys (nodes g)) ∅) as [levels|];
      [by eexists|].
    destruct Hret; [done|by left].
Qed.
End ExecutionOrderReturns.

(** ** The order in which [_execute_dag] runs the nodes *)

Section EngineSchedule.
Import Dag Executor Engine.
Variable w : World.

Lemma before_in_prefix {A : Type} (front back l1 l2 : list A) (k : A) :
  NoDup (front ++ back) ->
  front ++ back = l1 ++ k :: l2 ->
  k ∈ back ->
  forall d, d ∈ front -> d ∈ l1.
Proof.
  revert l1. induction front as [|a front IH]; intros l1 Hnd Heq Hk d Hd;
    [by apply elem_of_nil in Hd|].
  simpl in Hnd. apply NoDup_cons in Hnd as [Ha Hnd].
  destruct l1 as [|b l1]; simpl in Heq.
  - injection Heq as -> _. destruct Ha. apply elem_of_app. by right.
  - injection Heq as -> Heq.
    apply elem_of_cons in Hd as [->|Hd]; [left|].
    right. by eapply IH.
Qed.

(** While no node of the remaining levels has been launched, every level
    is launched in full. *)
Lemma run_levels_launched g0 ctx0 levels : forall s,
  consistent g0 ->
  (forall k n, dict_get k (nodes g0) = Some n -> status n = PENDING) ->
  engine_inv w g0 ctx0 s ->
  NoDup (launched s ++ concat levels) ->
  (forall k, k ∈ concat levels -> k ∈ dict_keys (nodes g0)) ->
  launched (fold_left (run_level w) levels s) = launched s ++ concat levels.
Proof.
  induction levels as [|level levels IH]; intros s Hg0 Hpend Hinv Hnd Hkeys.
  - simpl. by rewrite app_nil_r.
  - cbn [fold_left concat] in *.
    assert (Hlevel : NoDup level).
    { apply NoDup_app in Hnd as (_ & _ & Hnd).
      by apply NoDup_app in Hnd as (? & _). }
    assert (Hall : level_nodes (dag s) level = level).
    { unfold level_nodes. induction level as [|k level IHl]; [done|].
      rewrite filter_cons.
      assert (Hk : k ∉ launched s).
      { apply NoDup_app in Hnd as (_ & Hdisj & _). intros Hin.
        apply (Hdisj k Hin). left. }
      destruct (dict_keys_get k (nodes g0)) as [n Hn].
      { apply Hkeys. left. }
      assert (Hp : is_pending (dag s) k = true).
      { apply is_pending_spec. exists n.
        split; [by rewrite (inv_untouched _ _ _ _ Hinv k Hk)|by eapply Hpend]. }
      rewrite Hp. rewrite decide_True by done. f_equal.
      apply IHl.
      - apply NoDup_app in Hnd as (H1 & H2 & H3). apply NoDup_app.
        split; [done|]. split.
        + intros x Hx Hx'. apply (H2 x Hx). simpl in *. by right.
        + simpl in H3. by apply NoDup_cons in H3 as [_ ?].
      - intros x Hx. apply Hkeys. simpl. by right.
      - by apply NoDup_cons in Hlevel as [_ ?]. }
    rewrite IH; try done.
    + simpl. by rewrite Hall, app_assoc.
    + by apply run_level_inv.
    + simpl. by rewrite Hall, <- app_assoc.
    + intros k Hk. apply Hkeys. apply elem_of_app. by right.
Qed.

(** A run that gets its plan creates one task for every node of the DAG,
    level by level in the order of the plan, whatever the tasks return:
    every node is launched exactly once and after all the nodes it depends
    on; when the run ends every node is [COMPLETED], [SKIPPED] or
    [FAILED], and it is in exactly one of [completed_nodes] and
    [failed_nodes]. *)
Theorem execute_dag_schedule g ctx s b :
  consistent g ->
  _execute_dag w g ctx = (s, Ret b) ->
  exists levels,
    get_execution_order (set_order w) g = Ret levels
    /\ launched s = concat levels
    /\ launched s ≡ₚ dict_keys (nodes g)
    /\ (forall l1 k l2 d,
          launched s = l1 ++ k :: l2 -> d ∈ deps_of g k -> d ∈ l1)
    /\ (forall k n, dict_get k (nodes (dag s)) = Some n ->
          status n = COMPLETED \/ status n = SKIPPED \/ status n = FAILED)
    /\ (forall k, k ∈ dict_keys (nodes g) ->
          (k ∈ completed_nodes s <-> k ∉ failed_nodes s)).
Proof.
  intros Hg Hrun. pose proof (keys_NoDup _ Hg) as Hnd.
  unfold _execute_dag in Hrun.
  destruct (get_execution_order (set_order w) g) as [levels|] eqn:Hl; [|done].
  injection Hrun as <- _.
  destruct (execution_order_sound (set_order w) g levels Hnd Hl)
    as (_ & Hndl & Hperm & Hpend & Hearlier).
  assert (Hlevels : Forall (fun level => NoDup level) levels).
  { clear -Hndl. induction levels as [|l ls IH]; [done|].
    simpl in Hndl. apply NoDup_app in Hndl as (? & _ & ?).
    constructor; auto. }
  set (s0 := mkEngineState g (mkExecState ctx 0 []) ∅ ∅ []).
  assert (Hinv : engine_inv w g ctx (fold_left (run_level w) levels s0)).
  { apply run_levels_inv; [done|done|apply engine_inv_initial]. }
  assert (Hlaunched : launched (fold_left (run_level w) levels s0) = concat levels).
  { rewrite (run_levels_launched g ctx levels s0); try done.
    - apply engine_inv_initial.
    - intros k. by rewrite Hperm. }
  set (s := fold_left (run_level w) levels s0) in *.
  destruct Hinv as [Hsame Hun Hndla Hterm Hfail Hcomp _ _ _ _ _].
  assert (Hall : forall k, k ∈ dict_keys (nodes g) -> k ∈ launched s).
  { intros k. by rewrite Hlaunched, Hperm. }
  exists levels. split; [done|]. split; [done|].
  split; [by rewrite Hlaunched|]. split; [|split].
  - intros l1 k l2 d Heq Hd.
    assert (Hk : k ∈ concat levels).
    { rewrite <- Hlaunched, Heq. apply elem_of_app. right. left. }
    apply list_elem_of_In, in_concat in Hk as (level & Hlevel & Hk).
    apply list_elem_of_In in Hlevel, Hk.
    apply list_elem_of_lookup in Hlevel as [i Hi].
    destruct (Hearlier i level k d Hi Hk Hd) as (j & earlier & Hj & He & Hde).
    assert (Hsplit : concat levels
                     = concat (take i levels) ++ concat (drop i levels)).
    { by rewrite <- concat_app, take_drop. }
    apply (before_in_prefix (concat (take i levels)) (concat (drop i levels))
             l1 l2 k).
    + by rewrite <- Hsplit.
    + by rewrite <- Hsplit, <- Hlaunched.
    + apply list_elem_of_In, in_concat. exists level.
      split; apply list_elem_of_In; [|done].
      apply list_elem_of_lookup. exists 0%nat.
      rewrite lookup_drop. by rewrite Nat.add_0_r.
    + apply list_elem_of_In, in_concat. exists earlier.
      split; apply list_elem_of_In; [|done].
      apply list_elem_of_lookup. exists j.
      by rewrite lookup_take_lt.
  - intros k n Hn. eapply (Hterm k); [|done].
    apply Hall. destruct Hsame as [<- _]. by eapply dict_get_Some_keys.
  - intros k Hk. rewrite Hcomp, Hfail.
    pose proof (Hall k Hk) as Hkl.
    destruct (dict_keys_get k (nodes (dag s))) as [n Hn].
    { by destruct Hsame as [-> _]. }
    destruct (Hterm k n Hkl Hn) as [Hs|[Hs|Hs]].
    + split; [|eauto]. intros _ (_ & n' & Hn' & Hs'). congruence.
    + split; [|eauto]. intros _ (_ & n' & Hn' & Hs'). congruence.
    + split.
      * intros (_ & n' & Hn' & [Hs'|Hs']); congruence.
      * intros Hnot. destruct Hnot. eauto.
Qed.
End EngineSchedule.

(** ** Retries of [execute_node] *)

Section RetryProperties.
Import Dag Executor.
Variable w : World.






End RetryProperties.

(** ** Templates and the input of a node *)

Section PyvalInduction.

(** Induction on values, with the hypothesis for every element of a list
    and every value of a dictionary. *)
Lemma pyval_nested_ind (P : pyval -> Prop) :
  P PNone ->
  (forall b, P (PBool b)) ->
  (forall n, P (PInt n)) ->
  (forall s, P (PStr s)) ->
  (forall l, Forall P l -> P (PList l)) ->
  (forall d, Forall (fun kv : string * pyval => P kv.2) d -> P (PDict d)) ->
  forall v, P v.
Proof.
  intros HNone HBool HInt HStr HList HDict.
  fix IH 1. intros [|b|n|s|l|d].
  - exact HNone.
  - apply HBool.
  - apply HInt.
  - apply HStr.
  - apply HList. induction l as [|x l IHl]; constructor; [apply IH|exact IHl].
  - apply HDict. induction d as [|[k x] d IHd]; constructor; [apply IH|exact IHd].
Qed.
End PyvalInduction.

Section PrepareProperties.
Import Dag Executor.
Variable w : World.

(** A context none of whose keys can be the KEY of a placeholder (the
    empty context, for one) leaves every text as it is. *)
Lemma re_sub_unbound (context : gmap string pyval) (s : string) :
  (forall key, valid_key key -> context !! key = None) ->
  re_sub w context s = s.
Proof.
  intros Hctx. remember (String.length s) as n eqn:Hn. revert s Hn.
  induction (lt_wf n) as [n _ IH]; intros s ->.
  destruct s as [|c t]; [by rewrite re_sub_body|].
  destruct (match_placeholder (String c t)) as [[key rest]|] eqn:Hm.
  - rewrite (re_sub_match w context _ key rest Hm).
    pose proof (match_placeholder_shorter _ _ _ Hm) as Hlt.
    apply match_placeholder_elim in Hm as [Hkey Hs].
    rewrite (IH (String.length rest) Hlt rest eq_refl).
    unfold substitute. rewrite (Hctx key Hkey). by rewrite Hs.
  - rewrite (re_sub_no_match w context c t Hm). f_equal.
    apply (IH (String.length t)); [simpl; lia|done].
Qed.

(** Template resolution changes nothing when the context binds no KEY:
    no key at all, or only keys that are empty or contain a closing
    brace, which no placeholder can name. *)
Theorem resolve_template_variables_unbound (context : gmap string pyval)
    (data : pyval) :
  (forall key, valid_key key -> context !! key = None) ->
  _resolve_template_variables w data context = data.
Proof.
  intros Hctx. induction data as [|b|n|s|l IH|d IH] using pyval_nested_ind;
    simpl; try done.
  - by rewrite re_sub_unbound.
  - f_equal. induction IH as [|x l Hx _ IHl]; simpl; [done|].
    by rewrite Hx, IHl.
  - f_equal. induction IH as [|[k x] d Hx _ IHd]; simpl; [done|].
    simpl in Hx. by rewrite Hx, IHd.
Qed.
Lemma dict_get_map_values {V V' : Type} (f : V -> V') (k : string)
    (d : list (string * V)) :
  dict_get k (map (fun kv => (kv.1, f kv.2)) d) = f <$> dict_get k d.
Proof.
  induction d as [|[k' v] d IH]; simpl; [done|]. by case_decide.
Qed.

(** The first loop of [_prepare_input_data], from any [input_data]. *)
Definition inject_dependencies (context : gmap string pyval)
    (deps : list string) (input_data : pydict) : pydict :=
  fold_left
    (fun input_data dep_id =>
       match context !! output_key dep_id with
       | Some v => dict_set ("dependency_" +:+ dep_id) v input_data
       | None => input_data
       end)
    deps input_data.

Lemma inject_dependencies_other context deps : forall input key,
  (forall d, d ∈ deps -> is_Some (context !! output_key d) ->
             key <> "dependency_" +:+ d) ->
  dict_get key (inject_dependencies context deps input) = dict_get key input.
Proof.
  unfold inject_dependencies.
  induction deps as [|x deps IH]; intros input key Hkey; [done|].
  cbn [fold_left]. rewrite IH.
  - destruct (context !! output_key x) as [v|] eqn:Hx; [|done].
    rewrite dict_get_set_ne; [done|].
    intros Heq. apply (Hkey x); [left|by rewrite Hx|done].
  - intros d Hd. apply Hkey. by right.
Qed.

Lemma inject_dependencies_output context deps : forall input d v,
  d ∈ deps -> context !! output_key d = Some v ->
  dict_get ("dependency_" +:+ d) (inject_dependencies context deps input)
  = Some v.
Proof.
  induction deps as [|x deps IH]; intros input d v Hd Hv;
    [by apply elem_of_nil in Hd|].
  destruct (decide (d ∈ deps)) as [Hin|Hnin].
  - unfold inject_dependencies. cbn [fold_left]. by apply IH.
  - apply elem_of_cons in Hd as [->|Hd]; [|done].
    unfold inject_dependencies. cbn [fold_left]. rewrite Hv.
    fold (inject_dependencies context deps
            (dict_set ("dependency_" +:+ x) v input)).
    rewrite inject_dependencies_other; [by rewrite dict_get_set_eq|].
    intros d Hd _ Heq. apply String.app_inj in Heq. by subst.
Qed.

(** The input that [_prepare_input_data] builds for a node.  For every
    dependency whose output is in the context, the key [dependency_<id>]
    holds that output, template-resolved, whether or not the node's own
    [input_data] has such a key; every other key holds the node's own
    input value, template-resolved, and is missing if the node has none. *)
Theorem prepare_input_data_lookup (node : DAGNode)
    (context : gmap string pyval) :
  (forall d v,
     d ∈ dependencies node -> context !! output_key d = Some v ->
     dict_get ("dependency_" +:+ d) (_prepare_input_data w node context)
     = Some (_resolve_template_variables w v context))
  /\ (forall key,
        (forall d, d ∈ dependencies node ->
                   is_Some (context !! output_key d) ->
                   key <> "dependency_" +:+ d) ->
        dict_get key (_prepare_input_data w node context)
        = (fun v => _resolve_template_variables w v context)
            <$> dict_get key (input_data node)).
Proof.
  set (f := fun v => _resolve_template_variables w v context).
  assert (Heq : _prepare_input_data w node context
                = map (fun kv => (kv.1, f kv.2))
                    (inject_dependencies context (dependencies node)
                       (input_data node))) by reflexivity.
  rewrite Heq. split.
  - intros d v Hd Hv. rewrite dict_get_map_values.
    by rewrite (inject_dependencies_output context _ _ d v Hd Hv).
  - intros key Hkey. rewrite dict_get_map_values.
    by rewrite inject_dependencies_other.
Qed.
End PrepareProperties.

(** ** Editing a DAG: [remove_node] and [add_dependency] *)

Section DictDelete.
Context {K V : Type} `{EqDecision K}.

Lemma dict_get_del_ne (k k' : K) (d : list (K * V)) :
  k <> k' -> dict_get k' (dict_del k d) = dict_get k' d.
Proof.
  intros Hne. induction d as [|[j v] d IH]; simpl; [done|].
  destruct (decide (k = j)) as [->|Hkj]; simpl.
  - by rewrite decide_False by (by intros ->).
  - by rewrite IH.
Qed.

Lemma dict_keys_del (k : K) (d : list (K * V)) :
  NoDup (dict_keys d) ->
  dict_keys (dict_del k d) = filter (fun j => j <> k) (dict_keys d).
Proof.
  induction d as [|[j v] d IH]; simpl; [done|].
  intros [Hj Hnd]%NoDup_cons. rewrite filter_cons. simpl.
  destruct (decide (k = j)) as [->|Hkj].
  - rewrite decide_False by (by intros Hn; apply Hn).
    symmetry. clear IH Hnd. induction d as [|[i u] d IH]; simpl; [done|].
    simpl in Hj. apply not_elem_of_cons in Hj as [Hji Hj].
    rewrite filter_cons. simpl. rewrite decide_True by (by intros ->).
    f_equal. by apply IH.
  - rewrite decide_True by (by intros ->). simpl. f_equal. by apply IH.
Qed.

Lemma dict_get_del_eq (k : K) (d : list (K * V)) :
  NoDup (dict_keys d) -> dict_get k (dict_del k d) = None.
Proof.
  intros Hnd. apply dict_get_None_keys. rewrite dict_keys_del by done.
  intros [Hne _]%list_elem_of_filter. by apply Hne.
Qed.

Lemma dict_del_notin (k : K) (d : list (K * V)) :
  k ∉ dict_keys d -> dict_del k d = d.
Proof.
  induction d as [|[j v] d IH]; simpl; [done|].
  intros [Hne Hnin]%not_elem_of_cons. rewrite decide_False by done.
  by rewrite IH.
Qed.

Lemma dict_set_append (k : K) (v : V) (d : list (K * V)) :
  k ∉ dict_keys d -> dict_set k v d = d ++ [(k, v)].
Proof.
  induction d as [|[k' v'] d IH]; simpl; [done|].
  intros [Hne Hnin]%not_elem_of_cons.
  rewrite decide_False by done. by rewrite IH.
Qed.

Lemma dict_in_keys (k : K) (d : list (K * V)) :
  dict_in k d = true <-> k ∈ dict_keys d.
Proof.
  unfold dict_in. destruct (dict_get k d) as [v|] eqn:Hk.
  - split; [intros _; by eapply dict_get_Some_keys|done].
  - split; [done|]. intros Hin. by apply dict_get_None_keys in Hk.
Qed.
End DictDelete.

Section EditProperties.
Import Dag.

Lemma list_remove_notin x l : x ∉ l -> list_remove x l = l.
Proof.
  induction l as [|y l IH]; simpl; [done|].
  intros [Hne Hnin]%not_elem_of_cons. rewrite decide_False by done.
  by rewrite IH.
Qed.

Lemma list_remove_NoDup x l : NoDup l -> x ∉ list_remove x l.
Proof.
  induction l as [|y l IH]; simpl; [intros _; apply not_elem_of_nil|].
  intros [Hy Hnd]%NoDup_cons. destruct (decide (x = y)) as [->|Hne]; [done|].
  apply not_elem_of_cons. split; [done|by apply IH].
Qed.

(** The entry of [edges] after the loop over [self.edges.values()]. *)
Lemma remove_edges_get r k (es : list (string * list string)) :
  dict_get k
    (map (fun e => (e.1, if bool_decide (r ∈ e.2)
                         then list_remove r e.2 else e.2)) es)
  = list_remove r <$> dict_get k es.
Proof.
  induction es as [|[j deps] es IH]; simpl; [done|].
  case_decide; [|done]. simpl. f_equal.
  case_bool_decide; [done|]. by rewrite list_remove_notin.
Qed.

Lemma remove_node_nodes g r : nodes (remove_node g r) = dict_del r (nodes g).
Proof.
  unfold remove_node; simpl. destruct (dict_in r (nodes g)) eqn:Hin; [done|].
  symmetry. apply dict_del_notin. rewrite <- dict_in_keys. by rewrite Hin.
Qed.

(** [remove_node] deletes the node and its entry of [edges], and takes
    the first occurrence of its id out of every other entry of [edges].
    The other nodes stay as they are, their [dependencies] included. *)
Theorem remove_node_lookup g r :
  consistent g ->
  dict_get r (nodes (remove_node g r)) = None
  /\ dict_get r (edges (remove_node g r)) = None
  /\ (forall k, k <> r ->
        dict_get k (nodes (remove_node g r)) = dict_get k (nodes g))
  /\ (forall k, k <> r ->
        dict_get k (edges (remove_node g r))
        = list_remove r <$> dict_get k (edges g))
  /\ dict_keys (nodes (remove_node g r))
     = filter (fun k => k <> r) (dict_keys (nodes g)).
Proof.
  intros [Hnd Hid Hek Hed].
  assert (Hnd' : NoDup (dict_keys (edges g))) by by rewrite Hek.
  pose proof (remove_node_nodes g r) as Hn.
  assert (He : edges (remove_node g r)
               = map (fun e => (e.1, if bool_decide (r ∈ e.2)
                                     then list_remove r e.2 else e.2))
                   (dict_del r (edges g))).
  { unfold remove_node; simpl. destruct (dict_in r (edges g)) eqn:Hin; [done|].
    rewrite dict_del_notin; [done|]. rewrite <- dict_in_keys. by rewrite Hin. }
  rewrite Hn, He. split; [by apply dict_get_del_eq|]. split.
  { rewrite remove_edges_get. by rewrite dict_get_del_eq. }
  split; [intros k Hk; by apply dict_get_del_ne|]. split.
  - intros k Hk. rewrite remove_edges_get. by rewrite dict_get_del_ne.
  - by apply dict_keys_del.
Qed.
(** A node that depended on the removed node still names it in its
    [dependencies], which [can_execute] reads: no plan can be computed
    for the DAG any more. *)
Theorem remove_node_breaks_plan (ord : SetOrder) g r k n :
  consistent g ->
  dict_get k (nodes g) = Some n ->
  k <> r ->
  r ∈ dependencies n ->
  dict_get k (nodes (remove_node g r)) = Some n
  /\ exists msg, get_execution_order ord (remove_node g r) = Raise msg.
Proof.
  intros Hg Hn Hne Hr. pose proof (keys_NoDup _ Hg) as Hnd0.
  assert (Hgone : dict_get r (nodes (remove_node g r)) = None).
  { rewrite remove_node_nodes. by apply dict_get_del_eq. }
  assert (Hkeys : dict_keys (nodes (remove_node g r))
                  = filter (fun k => k <> r) (dict_keys (nodes g))).
  { rewrite remove_node_nodes. by apply dict_keys_del. }
  assert (Hn' : dict_get k (nodes (remove_node g r)) = Some n).
  { rewrite remove_node_nodes. rewrite dict_get_del_ne by done. done. }
  split; [done|].
  destruct (get_execution_order ord (remove_node g r)) as [levels|msg] eqn:Hl;
    [exfalso|by eexists].
  assert (Hnd : NoDup (dict_keys (nodes (remove_node g r)))).
  { rewrite Hkeys. by apply NoDup_filter. }
  destruct (execution_order_sound ord _ levels Hnd Hl)
    as (_ & _ & Hperm & _ & Hearlier).
  assert (Hk : k ∈ concat levels).
  { rewrite Hperm. by eapply dict_get_Some_keys. }
  apply list_elem_of_In, in_concat in Hk as (level & Hlevel & Hk).
  apply list_elem_of_In in Hlevel, Hk.
  apply list_elem_of_lookup in Hlevel as [i Hi].
  destruct (Hearlier i level k r Hi Hk) as (j & earlier & _ & Hj & Hre).
  { unfold deps_of. by rewrite Hn'. }
  assert (Hrk : r ∈ dict_keys (nodes (remove_node g r))).
  { rewrite <- Hperm. apply list_elem_of_In, in_concat. exists earlier.
    split; apply list_elem_of_In; [by eapply list_elem_of_lookup_2|done]. }
  by apply dict_get_None_keys in Hgone.
Qed.

End EditProperties.

(** ** [to_dict] and [from_dict] *)

Section SerializationProperties.
Import Dag.

(** A node as it comes back from its dictionary: the run-time fields have
    their initial values. *)
Definition reset_node (n : DAGNode) : DAGNode :=
  mkDAGNode (id n) (name n) (agent_type n) (agent_config n) (input_data n)
    (dependencies n) (conditions n) 0 (max_retries n) (timeout_seconds n)
    PENDING None None.

Lemma mapM_str_field l : mapM str_field (map PStr l) = Some l.
Proof. induction l as [|s l IH]; simpl; [done|]. by rewrite IH. Qed.

Lemma node_of_dict_to_dict n : node_of_dict (node_to_dict n) = Built (reset_node n).
Proof.
  destruct n as [i nm a config input deps conds rc mr ts st res err].
  unfold reset_node, node_of_dict, node_to_dict. cbn [id name agent_type
    agent_config input_data dependencies conditions max_retries
    timeout_seconds].
  generalize (mapM_str_field deps). generalize (map PStr deps). intros l Hm.
  lazy in Hm |- *. by rewrite Hm.
Qed.

Lemma load_nodes_to_dict ns : forall acc,
  load_nodes (map node_to_dict ns) true acc = Built (acc ++ map reset_node ns).
Proof.
  induction ns as [|n ns IH]; intros acc; cbn [map load_nodes].
  - by rewrite app_nil_r.
  - rewrite node_of_dict_to_dict, IH. by rewrite <- app_assoc.
Qed.

Lemma dict_elem_get {K V : Type} `{EqDecision K} (k : K) (v : V) d :
  NoDup (dict_keys d) -> (k, v) ∈ d -> dict_get k d = Some v.
Proof.
  induction d as [|[k' v'] d IH]; [by intros _ ?%elem_of_nil|].
  simpl. intros [Hk Hnd]%NoDup_cons [[= -> ->]|Hin]%elem_of_cons.
  - by rewrite decide_True.
  - rewrite decide_False; [by apply IH|].
    intros ->. apply Hk. apply list_elem_of_fmap. by exists (k', v).
Qed.

(** The constructor on nodes with distinct ids: the nodes in their
    order. *)
Lemma WorkflowDAG_init_distinct ns :
  NoDup (map id ns) ->
  WorkflowDAG_init ns
  = mkWorkflowDAG (map (fun n => (id n, n)) ns)
                  (map (fun n => (id n, dependencies n)) ns).
Proof.
  unfold WorkflowDAG_init.
  assert (Hgen : forall g,
            NoDup (dict_keys (nodes g) ++ map id ns) ->
            dict_keys (edges g) = dict_keys (nodes g) ->
            fold_left add_node ns g
            = mkWorkflowDAG (nodes g ++ map (fun n => (id n, n)) ns)
                (edges g ++ map (fun n => (id n, dependencies n)) ns)).
  { induction ns as [|n ns IH]; intros g Hnd Hek; simpl.
    - rewrite !app_nil_r. by destruct g.
    - assert (Hn : id n ∉ dict_keys (nodes g)).
      { apply NoDup_app in Hnd as (_ & Hdisj & _). intros Hin.
        apply (Hdisj _ Hin). left. }
      rewrite IH.
      + simpl. rewrite !dict_set_append by (by rewrite ?Hek).
        by rewrite <- !app_assoc.
      + simpl. rewrite dict_set_append by done.
        unfold dict_keys. rewrite map_app. simpl. rewrite <- app_assoc. done.
      + simpl. rewrite !dict_set_append by (by rewrite ?Hek).
        unfold dict_keys in *. rewrite !map_app. simpl. by rewrite Hek. }
  intros Hnd. by rewrite Hgen.
Qed.

Lemma from_dict_nodes l :
  from_dict (PDict [("nodes", PList l)])
  = match load_nodes l true [] with
    | Built ns => Built (WorkflowDAG_init ns)
    | Failed msg => Failed msg
    | Untyped => Untyped
    end.
Proof. reflexivity. Qed.

(** [from_dict(dag.to_dict())] is the DAG itself with every node in its
    initial state: the same nodes in the same order and the same edges,
    with [status] [PENDING], [retry_count] 0 and neither result nor
    error; serialising it again gives the dictionary back. *)
Theorem from_dict_to_dict g :
  consistent g ->
  exists g',
    from_dict (to_dict g) = Built g'
    /\ nodes g' = map (fun e => (e.1, reset_node e.2)) (nodes g)
    /\ edges g' = edges g
    /\ consistent g'
    /\ to_dict g' = to_dict g.
Proof.
  intros [Hnd Hid Hek Hed].
  assert (Hkey : forall e, e ∈ nodes g -> id e.2 = e.1).
  { intros [k n] Hin. simpl. apply Hid. by apply dict_elem_get. }
  assert (Hids : map id (map reset_node (map snd (nodes g)))
                 = dict_keys (nodes g)).
  { unfold dict_keys. rewrite !map_map. apply map_ext_in.
    intros e He%list_elem_of_In. simpl. by apply Hkey. }
  assert (Hload : from_dict (to_dict g)
                  = Built (WorkflowDAG_init (map reset_node (map snd (nodes g))))).
  { unfold to_dict. rewrite from_dict_nodes.
    assert (map (fun e : string * DAGNode => node_to_dict e.2) (nodes g)
            = map node_to_dict (map snd (nodes g))) as ->.
    { by rewrite map_map. }
    by rewrite load_nodes_to_dict. }
  rewrite WorkflowDAG_init_distinct in Hload by (by rewrite Hids).
  eexists. split; [exact Hload|].
  assert (Hnodes : map (fun n => (id n, n)) (map reset_node (map snd (nodes g)))
                   = map (fun e => (e.1, reset_node e.2)) (nodes g)).
  { rewrite !map_map. apply map_ext_in. intros e He%list_elem_of_In. simpl.
    by rewrite (Hkey e He). }
  assert (Hk1 : dict_keys (map (fun n => (id n, dependencies n))
                             (map reset_node (map snd (nodes g))))
                = dict_keys (nodes g)).
  { unfold dict_keys. rewrite !map_map. apply map_ext_in.
    intros e He%list_elem_of_In. simpl. by apply Hkey. }
  assert (Hedges : map (fun n => (id n, dependencies n))
                     (map reset_node (map snd (nodes g)))
                   = edges g).
  { apply dict_ext.
    - by rewrite Hk1, Hek.
    - by rewrite Hk1.
    - intros k Hk. rewrite Hk1 in Hk.
      destruct (dict_keys_get k (nodes g) Hk) as [n Hn].
      rewrite (Hed k n Hn). apply dict_elem_get; [by rewrite Hk1|].
      apply list_elem_of_fmap. exists (reset_node n). split.
      + simpl. by rewrite (Hid k n Hn).
      + apply list_elem_of_fmap. exists n. split; [done|].
        apply list_elem_of_fmap. exists (k, n).
        split; [done|by apply dict_get_elem]. }
  simpl. rewrite Hnodes, Hedges. split; [done|]. split; [done|]. split.
  - split; simpl.
    + unfold dict_keys. rewrite map_map. simpl. exact Hnd.
    + intros k n Hn.
      apply dict_get_elem, list_elem_of_fmap in Hn as ([k' n'] & [= -> ->] & Hin).
      simpl. by apply (Hkey (k', n')).
    + rewrite Hek. unfold dict_keys. by rewrite map_map.
    + intros k n Hn.
      apply dict_get_elem, list_elem_of_fmap in Hn as ([k' n'] & [= -> ->] & Hin).
      simpl. apply Hed. by apply dict_elem_get.
  - unfold to_dict. simpl. do 3 f_equal. rewrite map_map. done.
Qed.
End SerializationProperties.

(** ** From a validated definition to a plan *)

Section ValidatedDefinitions.
Import Dag Validators.

Lemma mapM_str_field_inv l deps :
  mapM str_field l = Some deps -> l = map PStr deps.
Proof.
  revert deps. induction l as [|v l IH]; intros deps; simpl.
  - by intros [= <-].
  - destruct v as [| | |s| |]; simpl; try done.
    destruct (mapM str_field l) as [ds|]; simpl; [|done].
    intros [= <-]. simpl. f_equal. by apply IH.
Qed.

(** What a node that [from_dict] builds tells about its dictionary. *)
Lemma node_of_dict_Built node n :
  node_of_dict node = Built n ->
  exists d,
    node = PDict d
    /\ dict_get "id" d = Some (PStr (id n))
    /\ get_dependencies d = PList (map PStr (dependencies n))
    /\ status n = PENDING.
Proof.
  unfold node_of_dict. destruct node as [| | | | |d]; try done.
  destruct (dict_get "id" d) as [vid|] eqn:Hid; [|done].
  destruct (dict_get "name" d) as [vname|]; [|done].
  destruct (dict_get "agent_type" d) as [vat|]; [|done].
  unfold get_dependencies.
  destruct vid as [| | |i| |]; try done.
  destruct vname as [| | |nm| |]; try done.
  destruct vat as [| | |a| |]; try done.
  destruct (default (PDict []) (dict_get "agent_config" d)); try done.
  destruct (default (PDict []) (dict_get "input_data" d)); try done.
  destruct (default (PList []) (dict_get "dependencies" d)) as [| | | |l|]
    eqn:Hl; try done.
  destruct (default (PDict []) (dict_get "conditions" d)); try done.
  destruct (default (PInt 3) (dict_get "max_retries" d)); try done.
  destruct (default (PInt 300) (dict_get "timeout_seconds" d)); try done.
  destruct (mapM str_field l) as [deps|] eqn:Hdeps; [|done].
  intros [= <-]. exists d. simpl.
  split; [done|]. split; [done|]. split; [|done].
  rewrite Hl. f_equal. by apply mapM_str_field_inv.
Qed.

Lemma load_nodes_untyped l : forall acc ns, load_nodes l false acc <> Built ns.
Proof.
  induction l as [|node l IH]; intros acc ns; simpl; [done|].
  destruct (node_of_dict node); [apply IH|done|apply IH].
Qed.

Lemma load_nodes_Built l : forall typed acc ns,
  load_nodes l typed acc = Built ns ->
  exists ns', ns = acc ++ ns'
              /\ Forall2 (fun node n => node_of_dict node = Built n) l ns'.
Proof.
  induction l as [|node l IH]; intros typed acc ns; simpl.
  - destruct typed; [|done]. intros [= <-]. exists []. by rewrite app_nil_r.
  - destruct (node_of_dict node) as [n| |] eqn:Hn; [|done|].
    + intros (ns' & -> & Hall)%IH. exists (n :: ns').
      split; [by rewrite <- app_assoc|by constructor].
    + intros Hl. by apply load_nodes_untyped in Hl.
Qed.
(** A node of a validated definition, as [_has_circular_dependency] reads
    it and as [from_dict] builds it. *)
Definition view_of (n : DAGNode) : hkey * list hkey :=
  (KStr (id n), map KStr (dependencies n)).

Lemma mapM_py_hash_str deps : mapM py_hash (map PStr deps) = Some (map KStr deps).
Proof. induction deps as [|s l IH]; simpl; [done|]. by rewrite IH. Qed.

Lemma node_shape_view_of node v n :
  node_shape node v -> node_of_dict node = Built n -> v = view_of n.
Proof.
  intros (d & node_id & l & -> & Hid & _ & _ & Hk & Hl & Hdeps)
         (d' & [= <-] & Hid' & Hl' & _)%node_of_dict_Built.
  rewrite Hid in Hid'. injection Hid' as ->.
  rewrite Hl in Hl'. injection Hl' as ->.
  rewrite mapM_py_hash_str in Hdeps. simpl in Hk.
  destruct v as [k deps]. simpl in *. unfold view_of. congruence.
Qed.

(** The fields of a node of a definition have the types that the
    dataclass [DAGNode] declares. *)
Definition is_str (v : pyval) : bool :=
  match v with PStr _ => true | _ => false end.
Definition is_dict (v : pyval) : bool :=
  match v with PDict _ => true | _ => false end.
Definition is_int (v : pyval) : bool :=
  match v with PInt _ => true | _ => false end.

Definition typed_node (node_data : pyval) : bool :=
  match node_data with
  | PDict d =>
      is_str (default PNone (dict_get "id" d))
      && is_str (default PNone (dict_get "name" d))
      && is_str (default PNone (dict_get "agent_type" d))
      && is_dict (default (PDict []) (dict_get "agent_config" d))
      && is_dict (default (PDict []) (dict_get "input_data" d))
      && match default (PList []) (dict_get "dependencies" d) with
         | PList deps => forallb is_str deps
         | _ => false
         end
      && is_dict (default (PDict []) (dict_get "conditions" d))
      && is_int (default (PInt 3) (dict_get "max_retries" d))
      && is_int (default (PInt 300) (dict_get "timeout_seconds" d))
  | _ => false
  end.

Definition typed_definition (dag_definition : pyval) : bool :=
  match dag_definition with
  | PDict fields =>
      match default (PList []) (dict_get "nodes" fields) with
      | PList l => forallb typed_node l
      | _ => false
      end
  | _ => false
  end.

Lemma mapM_str_field_typed deps :
  forallb is_str deps = true -> is_Some (mapM str_field deps).
Proof.
  induction deps as [|v l IH]; simpl; [by eexists|].
  intros [Hv Hl]%andb_true_iff. destruct (IH Hl) as [ds Hds].
  destruct v; try done. simpl. rewrite Hds. by eexists.
Qed.

Lemma node_of_dict_typed node :
  typed_node node = true -> exists n, node_of_dict node = Built n.
Proof.
  unfold typed_node, node_of_dict. destruct node as [| | | | |d]; try done.
  rewrite !andb_true_iff.
  intros ((((((((Hid & Hname) & Hat) & Hcfg) & Hin) & Hdeps) & Hcond) & Hmr) & Hto).
  destruct (dict_get "id" d) as [[| | |i| |]|]; try done.
  destruct (dict_get "name" d) as [[| | |nm| |]|]; try done.
  destruct (dict_get "agent_type" d) as [[| | |a| |]|]; try done.
  destruct (default (PDict []) (dict_get "agent_config" d)); try done.
  destruct (default (PDict []) (dict_get "input_data" d)); try done.
  destruct (default (PList []) (dict_get "dependencies" d)) as [| | | |l|];
    try done.
  destruct (default (PDict []) (dict_get "conditions" d)); try done.
  destruct (default (PInt 3) (dict_get "max_retries" d)); try done.
  destruct (default (PInt 300) (dict_get "timeout_seconds" d)); try done.
  destruct (mapM_str_field_typed l Hdeps) as [ds ->]. by eexists.
Qed.

Lemma load_nodes_typed l : forall acc,
  forallb typed_node l = true -> exists ns, load_nodes l true acc = Built ns.
Proof.
  induction l as [|node l IH]; intros acc; simpl; [by eexists|].
  intros [Hn Hl]%andb_true_iff.
  destruct (node_of_dict_typed node Hn) as [n ->]. by apply IH.
Qed.

Lemma from_dict_typed dag_definition :
  typed_definition dag_definition = true ->
  exists g, from_dict dag_definition = Built g.
Proof.
  unfold typed_definition, from_dict.
  destruct dag_definition as [| | | | |fields]; try done.
  destruct (default (PList []) (dict_get "nodes" fields)) as [| | | |l|];
    try done.
  intros Hl. destruct (load_nodes_typed l [] Hl) as [ns ->]. by eexists.
Qed.

(** The DAG that [from_dict] builds from a definition that [validate_dag]
    accepts. *)
Lemma validated_definition_built (ord : SetOrder) dag_definition g :
  validate_dag dag_definition = Valid ->
  from_dict dag_definition = Built g ->
  consistent g
  /\ validate g = true
  /\ exists levels, get_execution_order ord g = Ret levels.
Proof.
  revert g. intros g0.
  intros (views & (fields & ns & -> & Hnodes & Hne & Hshape) & Hnd & Hall & Hcyc)
         %validate_dag_Valid.
  assert (Hfrom : from_dict (PDict fields)
                  = match load_nodes ns true [] with
                    | Built nl => Built (WorkflowDAG_init nl)
                    | Failed msg => Failed msg
                    | Untyped => Untyped
                    end).
  { unfold from_dict. by rewrite Hnodes. }
  rewrite Hfrom. intros Hbuilt0.
  destruct (load_nodes ns true []) as [nl| |] eqn:Hload; try done.
  injection Hbuilt0 as <-.
  apply load_nodes_Built in Hload as (nl' & -> & Hbuilt). simpl in *.
  rename nl' into nl.
  assert (Hviews : views = map view_of nl).
  { clear -Hshape Hbuilt. revert nl Hbuilt.
    induction Hshape as [|node v l views Hv _ IH]; intros nl Hb.
    - by apply Forall2_nil_inv_l in Hb as ->.
    - apply Forall2_cons_inv_l in Hb as (n & nl' & Hn & Hb & ->).
      simpl. f_equal; [by eapply node_shape_view_of|by apply IH]. }
  assert (Hids : NoDup (map id nl)).
  { rewrite Hviews in Hnd. rewrite map_map in Hnd. simpl in Hnd.
    apply (NoDup_fmap_1 KStr). by rewrite <- list_fmap_compose. }
  pose proof (WorkflowDAG_init_consistent nl) as Hg.
  pose proof (WorkflowDAG_init_distinct nl Hids) as Hinit.
  set (g := WorkflowDAG_init nl) in *.
  assert (Hkeys : dict_keys (nodes g) = map id nl).
  { rewrite Hinit. unfold dict_keys. simpl. by rewrite map_map. }
  assert (Hnode : forall k n, dict_get k (nodes g) = Some n ->
            n ∈ nl /\ id n = k /\ view_of n ∈ views).
  { intros k n Hn. pose proof (WorkflowDAG_init_elem nl k n Hn) as Hin.
    split; [done|]. split; [by eapply keys_id|].
    rewrite Hviews. apply list_elem_of_fmap. by exists n. }
  assert (Hpend : forall k n, dict_get k (nodes g) = Some n -> status n = PENDING).
  { intros k n (Hin & _ & _)%Hnode.
    apply list_elem_of_lookup in Hin as [i Hi].
    destruct (Forall2_lookup_r _ _ _ _ _ Hbuilt Hi) as (node & _ & Hb).
    by apply node_of_dict_Built in Hb as (? & _ & _ & _ & ?). }
  assert (Hdecl : dependencies_declared g).
  { intros k d Hd. unfold deps_of in Hd.
    destruct (dict_get k (nodes g)) as [n|] eqn:Hn; [|by apply elem_of_nil in Hd].
    destruct (Hnode k n Hn) as (_ & _ & Hv).
    destruct (Hall (view_of n) (KStr d) Hv) as [Hin _].
    { simpl. apply list_elem_of_fmap. by exists d. }
    rewrite Hkeys. rewrite Hviews, map_map in Hin. simpl in Hin.
    apply list_elem_of_fmap in Hin as (m & [= ->] & Hm).
    apply list_elem_of_fmap. by exists m. }
  assert (Hdecl' : forall v d, v ∈ views -> d ∈ v.2 -> d ∈ dict_keys views).
  { intros v d Hv Hd. by apply (Hall v d). }
  assert (Hrep' : forall v, v ∈ views -> NoDup v.2).
  { intros v Hv. destruct (decide (NoDup v.2)) as [|Hrep]; [done|].
    by rewrite (has_cycle_repeated views v Hnd Hv Hrep) in Hcyc. }
  assert (Hrep : forall k n, dict_get k (nodes g) = Some n ->
            NoDup (dependencies n)).
  { intros k n (_ & _ & Hv)%Hnode. apply Hrep' in Hv. simpl in Hv.
    by apply (NoDup_fmap_1 KStr). }
  assert (Hac : acyclic g).
  { apply (has_cycle_false views Hnd Hrep' Hdecl') in Hcyc.
    assert (Hedge : forall a b, edge (deps_of g) a b ->
              edge (graph_deps views) (KStr a) (KStr b)).
    { intros a b Hab. unfold edge, deps_of in Hab.
      destruct (dict_get a (nodes g)) as [n|] eqn:Hn;
        [|by apply elem_of_nil in Hab].
      destruct (Hnode a n Hn) as (_ & <- & Hv).
      unfold edge, graph_deps.
      rewrite (dict_elem_get (KStr (id n)) (map KStr (dependencies n)) views Hnd Hv).
      simpl. apply list_elem_of_fmap. by exists b. }
    assert (Htc : forall a b, tc (edge (deps_of g)) a b ->
              tc (edge (graph_deps views)) (KStr a) (KStr b)).
    { induction 1 as [a b Hab|a b c Hab _ IH].
      - apply tc_once. by apply Hedge.
      - eapply tc_l; [by apply Hedge|exact IH]. }
    intros x Hx. apply (Hcyc (KStr x)). by apply Htc. }
  assert (Hval : validate g = true) by (by apply validate_true_iff).
  split; [done|]. split; [done|].
  unfold get_execution_order. rewrite Hval. simpl.
  pose proof (levels_loop_total ord g Hpend Hac Hdecl (dict_keys (nodes g)) ∅)
    as Hret.
  destruct (levels_loop ord g (dict_keys (nodes g)) ∅) as [levels|];
    [by eexists|].
  destruct Hret; [done|by left].
Qed.

(** A definition that [validate_dag] accepts and whose node fields have
    the types of [DAGNode] is loaded by [from_dict] without an exception,
    and the DAG that [from_dict] builds is consistent, passes [validate]
    and has a plan: [get_execution_order] returns. *)
Theorem validated_definition_has_plan (ord : SetOrder) dag_definition :
  validate_dag dag_definition = Valid ->
  typed_definition dag_definition = true ->
  exists g,
    from_dict dag_definition = Built g
    /\ consistent g
    /\ validate g = true
    /\ exists levels, get_execution_order ord g = Ret levels.
Proof.
  intros Hvalid Htyped. destruct (from_dict_typed _ Htyped) as [g Hg].
  exists g. split; [exact Hg|].
  exact (validated_definition_built ord dag_definition g Hvalid Hg).
Qed.
End ValidatedDefinitions.

(** ** The outputs of a run *)

Section OutputProperties.
Import Dag Executor Engine.
Variable w : World.

Lemma endswith_app a suffix : endswith (a +:+ suffix) suffix = true.
Proof.
  induction a as [|c a IH].
  - rewrite app_nil_str. destruct suffix; simpl; [done|].
    by rewrite Ascii.eqb_refl, String.eqb_refl.
  - rewrite app_cons_str. cbn [endswith]. rewrite IH. apply orb_true_r.
Qed.

Lemma endswith_last_char s c suffix :
  endswith s (String c suffix) = true ->
  last_char s = last_char (String c suffix).
Proof.
  induction s as [|x s IH]; [done|]. cbn [endswith].
  intros [Heq|Hend]%orb_true_iff.
  - apply String.eqb_eq in Heq. by rewrite Heq.
  - specialize (IH Hend). destruct s as [|y s]; [done|]. exact IH.
Qed.

Lemma startswith_app prefix s : startswith (prefix +:+ s) prefix = true.
Proof.
  unfold startswith. induction prefix as [|a p IH].
  - rewrite app_nil_str. by destruct s.
  - rewrite app_cons_str. cbn [String.prefix].
    destruct (ascii_dec a a); [exact IH|done].
Qed.

Lemma is_output_key_output k :
  startswith (output_key k) "node_" && endswith (output_key k) "_output" = true.
Proof.
  unfold output_key. apply andb_true_iff. split; [apply startswith_app|].
  rewrite <- app_assoc_str. apply endswith_app.
Qed.

Lemma is_output_key_metadata k : endswith (metadata_key k) "_output" = false.
Proof.
  destruct (endswith (metadata_key k) "_output") eqn:Hend; [|done].
  apply endswith_last_char in Hend. unfold metadata_key in Hend.
  rewrite <- app_assoc_str in Hend.
  rewrite (last_char_app ("node_" +:+ k) "_" "metadata") in Hend. done.
Qed.

(** The output data that [_update_execution_status] records after a run:
    it has the result of every [COMPLETED] node under the output key of
    the node and no metadata; and every entry of it is an entry of the
    context that the run started from, or the result of a node that
    [execute_node] has completed: a node that is [COMPLETED], or one that
    the engine has marked [FAILED] afterwards because the closing journal
    transaction of its task raised. *)
Theorem output_data_of_run g ctx s b :
  consistent g ->
  _execute_dag w g ctx = (s, Ret b) ->
  (forall k n, dict_get k (nodes (dag s)) = Some n -> status n = COMPLETED ->
     is_Some (result n)
     /\ output_data (context (exec s)) !! output_key k = result n)
  /\ (forall k, output_data (context (exec s)) !! metadata_key k = None)
  /\ (forall key v, output_data (context (exec s)) !! key = Some v ->
        ctx !! key = Some v
        \/ exists k n, dict_get k (nodes (dag s)) = Some n
                       /\ (status n = COMPLETED
                           \/ (status n = FAILED
                               /\ is_Some (journal_end w k)))
                       /\ key = output_key k
                       /\ result n = Some v).
Proof.
  intros Hg Hrun.
  destruct (execute_dag_inv w g ctx s b Hg Hrun) as (Hinv & Hpend & _).
  destruct Hinv as [_ Hun _ _ _ _ _ Hwr Hrec _ Hkept].
  split; [|split].
  - intros k n Hn Hs.
    assert (Hk : k ∈ launched s).
    { destruct (decide (k ∈ launched s)) as [|Hnl]; [done|].
      rewrite (Hun k Hnl) in Hn. apply Hpend in Hn. congruence. }
    destruct (Hrec k n Hk Hn Hs) as (_ & _ & [v Hv] & Hctx).
    split; [by eexists|]. rewrite Hv in *. unfold output_data.
    apply map_lookup_filter_Some. split; [done|].
    apply Is_true_true, is_output_key_output.
  - intros k. unfold output_data.
    destruct (filter _ (context (exec s)) !! metadata_key k) as [v|] eqn:Hv;
      [|done].
    apply map_lookup_filter_Some in Hv as [_ Hv].
    change (Is_true (startswith (metadata_key k) "node_"
                     && endswith (metadata_key k) "_output")) in Hv.
    rewrite is_output_key_metadata, andb_false_r in Hv. done.
  - intros key v Hv. unfold output_data in Hv.
    apply map_lookup_filter_Some in Hv as [Hv Hkey].
    change (Is_true (startswith key "node_" && endswith key "_output")) in Hkey.
    destruct (decide (key ∈ written (exec s))) as [Hw|Hw].
    + right.
      destruct (Hwr key Hw) as (k & n & _ & Hn & [->| ->] & (_ & _ & _ & Hctx) & Hs).
      * exists k, n. split; [done|]. split; [done|]. split; [done|]. congruence.
      * rewrite is_output_key_metadata, andb_false_r in Hkey. done.
    + left. by rewrite <- (Hkept key Hw).
Qed.
End OutputProperties.

(** ** [validate_agent_config] *)

Section ConfigProperties.
Import Validators.

(** The keys of the configuration that the checks for an agent type
    read. *)
Definition inspected_keys (agent_type : string) : list string :=
  if String.eqb agent_type "web_search" then ["max_results"; "timeout"]
  else if String.eqb agent_type "text_writing" then ["max_tokens"; "temperature"]
  else if String.eqb agent_type "email_sender" then ["smtp_server"; "smtp_port"]
  else [].

(** The verdict on a configuration depends on nothing but the values
    under the two keys that the agent type names: configurations that
    agree on them get the same verdict, and a configuration that sets
    neither is valid, for every agent type. *)
Theorem validate_agent_config_inspected (agent_type : string)
    (c1 c2 : list (string * jval)) :
  ((forall k, k ∈ inspected_keys agent_type -> dict_get k c1 = dict_get k c2) ->
   validate_agent_config agent_type (JDict c1)
   = validate_agent_config agent_type (JDict c2))
  /\ ((forall k, k ∈ inspected_keys agent_type -> dict_get k c1 = None) ->
      validate_agent_config agent_type (JDict c1) = ConfigValid).
Proof.
  unfold inspected_keys, validate_agent_config.
  destruct (String.eqb agent_type "web_search");
    [|destruct (String.eqb agent_type "text_writing");
      [|destruct (String.eqb agent_type "email_sender")]].
  - split; intros H.
    + rewrite (H "max_results"), (H "timeout"); [done| |];
        repeat constructor.
    + rewrite (H "max_results"), (H "timeout"); [done| |];
        repeat constructor.
  - split; intros H.
    + rewrite (H "max_tokens"), (H "temperature"); [done| |];
        repeat constructor.
    + rewrite (H "max_tokens"), (H "temperature"); [done| |];
        repeat constructor.
  - split; intros H.
    + rewrite (H "smtp_server"), (H "smtp_port"); [done| |];
        repeat constructor.
    + rewrite (H "smtp_server"), (H "smtp_port"); [done| |];
        repeat constructor.
  - by split.
Qed.
End ConfigProperties.

(** ** What a result of [BaseAgent.run] tells *)

Section RunResults.
Import Base.

(** A result of [run] reports success only when [validate_input]
    accepted the input, [get_cost_estimate] returned and [execute]
    returned a successful result, whose data, message and metadata it
    carries together with the time and the cost.  A result that reports
    failure is either such a result of [execute], or the one that the
    handler builds: no data, no cost, no metadata and the message of the
    exception.  The time is set in every case. *)
Theorem run_result_cases (self : BaseAgent) (input_data : pydict)
    (context : gmap string pyval) (call : nat) (elapsed : Z)
    (cancelled : bool) (r : AgentResult) :
  run self input_data context call elapsed cancelled = Ret r ->
  execution_time_ms r = Some elapsed
  /\ ((exists cost r0,
         validate_input self input_data = Ret true
         /\ get_cost_estimate self input_data = Ret cost
         /\ execute self input_data context call = Ret r0
         /\ r = mkAgentResult (success r0) (data r0) (error_message r0)
                  (Some elapsed) (Some cost) (metadata r0))
      \/ (success r = false
          /\ exists msg, r = mkAgentResult false [] (Some msg) (Some elapsed)
                               None None
          /\ (validate_input self input_data = Ret false
              \/ validate_input self input_data = Raise msg
              \/ get_cost_estimate self input_data = Raise msg
              \/ execute self input_data context call = Raise msg))).
Proof.
  unfold run, run_try.
  destruct (validate_input self input_data) as [[]|m] eqn:Hv.
  - destruct (get_cost_estimate self input_data) as [cost|m] eqn:Hc.
    + destruct cancelled; [done|].
      destruct (execute self input_data context call) as [r0|m] eqn:He.
      * intros [= <-]. split; [done|]. left. by exists cost, r0.
      * intros [= <-]. split; [done|]. right. split; [done|]. exists m. auto.
    + intros [= <-]. split; [done|]. right. split; [done|]. exists m. auto.
  - intros [= <-]. split; [done|]. right. split; [done|]. eexists. auto.
  - intros [= <-]. split; [done|]. right. split; [done|]. exists m. auto.
Qed.
End RunResults.

(** ** [get_ready_nodes] and [get_root_nodes] *)

Section ReadyProperties.
Import Dag.

(** Before anything has completed, the nodes that are ready are the root
    nodes that are [PENDING], in the order of the DAG; with more nodes
    completed, a ready node stays ready. *)
Theorem get_ready_nodes_roots g (completed completed' : gset string) :
  get_ready_nodes g ∅
  = filter (fun n => status n = PENDING) (get_root_nodes g)
  /\ (completed ⊆ completed' ->
      forall n, n ∈ get_ready_nodes g completed ->
                n ∈ get_ready_nodes g completed').
Proof.
  split.
  - unfold get_ready_nodes, get_root_nodes.
    induction (nodes g) as [|[k n] l IH]; [done|].
    rewrite !filter_cons. simpl.
    assert (Hiff : can_execute n ∅ = true
                   <-> dependencies n = [] /\ status n = PENDING).
    { unfold can_execute. case_bool_decide as Hs; simpl.
      - destruct (dependencies n) as [|d ds]; simpl; [done|].
        rewrite bool_decide_false by apply not_elem_of_empty. simpl.
        split; [done|]. by intros [? _].
      - split; [done|]. by intros [_ ?]. }
    destruct (decide (dependencies n = [])) as [Hd|Hd];
      destruct (decide (status n = PENDING)) as [Hs|Hs].
    + rewrite (proj2 Hiff (conj Hd Hs)). simpl.
      rewrite filter_cons, decide_True by done. by rewrite IH.
    + assert (Hc : can_execute n ∅ = false).
      { destruct (can_execute n ∅); [|done]. by destruct (proj1 Hiff eq_refl). }
      rewrite Hc. simpl. rewrite filter_cons, decide_False by done.
      by rewrite IH.
    + assert (Hc : can_execute n ∅ = false).
      { destruct (can_execute n ∅); [|done]. by destruct (proj1 Hiff eq_refl). }
      rewrite Hc. simpl. by rewrite IH.
    + assert (Hc : can_execute n ∅ = false).
      { destruct (can_execute n ∅); [|done]. by destruct (proj1 Hiff eq_refl). }
      rewrite Hc. simpl. by rewrite IH.
  - intros Hsub n. unfold get_ready_nodes.
    rewrite !list_elem_of_fmap.
    intros ([k m] & -> & [Hc Hin]%list_elem_of_filter). simpl in *.
    exists (k, m). split; [done|]. apply list_elem_of_filter. split; [|done].
    simpl. apply Is_true_true in Hc. apply Is_true_true.
    unfold can_execute in *. destruct (negb _); [done|].
    rewrite forallb_forall in *. intros d Hd. specialize (Hc d Hd).
    apply bool_decide_eq_true in Hc. apply bool_decide_eq_true. set_solver.
Qed.
End ReadyProperties.

(** ** The properties above at concrete inputs *)

Section MoreExamples.
Import Dag Executor Engine Validators Examples.

(** The diamond has declared dependencies, so [validate] decides whether
    it is acyclic. *)
Lemma validate_acyclic_witness :
  consistent (WorkflowDAG_init diamond)
  /\ dependencies_declared (WorkflowDAG_init diamond)
  /\ (validate (WorkflowDAG_init diamond) = true <->
      acyclic (WorkflowDAG_init diamond)
      /\ forall k n, dict_get k (nodes (WorkflowDAG_init diamond)) = Some n ->
                     NoDup (dependencies n)).
Proof.
  assert (H1 : consistent (WorkflowDAG_init diamond)).
  { apply WorkflowDAG_init_consistent. }
  assert (H2 : dependencies_declared (WorkflowDAG_init diamond)).
  { apply declared_check. reflexivity. }
  split; [exact H1|]. split; [exact H2|].
  exact (validate_acyclic (WorkflowDAG_init diamond) H1 H2).
Defined.

Lemma execution_order_returns_iff_witness :
  consistent (WorkflowDAG_init diamond)
  /\ ((exists levels,
         get_execution_order given_order (WorkflowDAG_init diamond) = Ret levels)
      <-> (forall k n, dict_get k (nodes (WorkflowDAG_init diamond)) = Some n ->
                       status n = PENDING)
          /\ dependencies_declared (WorkflowDAG_init diamond)
          /\ acyclic (WorkflowDAG_init diamond)
          /\ (forall k n, dict_get k (nodes (WorkflowDAG_init diamond)) = Some n ->
                          NoDup (dependencies n))).
Proof.
  assert (H1 : consistent (WorkflowDAG_init diamond)).
  { apply WorkflowDAG_init_consistent. }
  split; [exact H1|].
  exact (execution_order_returns_iff given_order (WorkflowDAG_init diamond) H1).
Defined.

Lemma execute_dag_schedule_witness :
  consistent (WorkflowDAG_init diamond)
  /\ _execute_dag fast_world (WorkflowDAG_init diamond) ∅ = (diamond_final, Ret true)
  /\ exists levels,
       get_execution_order given_order (WorkflowDAG_init diamond) = Ret levels
       /\ launched diamond_final = concat levels
       /\ launched diamond_final ≡ₚ dict_keys (nodes (WorkflowDAG_init diamond)).
Proof.
  assert (H1 : consistent (WorkflowDAG_init diamond)).
  { apply WorkflowDAG_init_consistent. }
  assert (H2 : _execute_dag fast_world (WorkflowDAG_init diamond) ∅
               = (diamond_final, Ret true)).
  { vm_compute. reflexivity. }
  split; [exact H1|]. split; [exact H2|].
  destruct (execute_dag_schedule fast_world (WorkflowDAG_init diamond) ∅
              diamond_final true H1 H2) as (levels & Hl & Hc & Hp & _).
  exists levels. split; [exact Hl|]. split; [exact Hc|exact Hp].
Defined.

Example diamond_launched : launched diamond_final = ["A"; "B"; "C"; "D"].
Proof. vm_compute. reflexivity. Qed.





Lemma resolve_template_variables_unbound_witness :
  (forall key, valid_key key -> (∅ : gmap string pyval) !! key = None)
  /\ _resolve_template_variables fast_world
       (PDict [("query", PStr "${topic} in ${year"); ("tags", PList [PStr "${x}"])])
       ∅
     = PDict [("query", PStr "${topic} in ${year"); ("tags", PList [PStr "${x}"])].
Proof.
  assert (H : forall key, valid_key key -> (∅ : gmap string pyval) !! key = None).
  { intros key _. apply lookup_empty. }
  split; [exact H|].
  exact (resolve_template_variables_unbound fast_world ∅ _ H).
Defined.

Example prepare_input_data_chain :
  _prepare_input_data fast_world
    (mkDAGNode "B" "B" "echo" [] [("text", PStr "about ${topic}");
                                  ("dependency_A", PStr "mine")]
       ["A"; "Z"] [] 0 3 300 PENDING None None)
    (<["topic" := PStr "tea"]> (<["node_A_output" := PStr "${topic}!"]> ∅))
  = [("text", PStr "about tea"); ("dependency_A", PStr "tea!")].
Proof. vm_compute. reflexivity. Qed.

Lemma remove_node_lookup_witness :
  consistent (WorkflowDAG_init chain_after_failure)
  /\ dict_get "A" (nodes (remove_node (WorkflowDAG_init chain_after_failure) "A"))
     = None
  /\ dict_get "B" (edges (remove_node (WorkflowDAG_init chain_after_failure) "A"))
     = list_remove "A"
         <$> dict_get "B" (edges (WorkflowDAG_init chain_after_failure)).
Proof.
  assert (H1 : consistent (WorkflowDAG_init chain_after_failure)).
  { apply WorkflowDAG_init_consistent. }
  split; [exact H1|].
  destruct (remove_node_lookup (WorkflowDAG_init chain_after_failure) "A" H1)
    as (Hgone & _ & _ & Hedges & _).
  split; [exact Hgone|]. apply Hedges. discriminate.
Defined.

Lemma remove_node_breaks_plan_witness :
  consistent (WorkflowDAG_init chain_after_failure)
  /\ dict_get "B" (nodes (WorkflowDAG_init chain_after_failure))
     = Some (fresh_node "B" "echo" ["A"] [] 3 300)
  /\ dict_get "B" (nodes (remove_node (WorkflowDAG_init chain_after_failure) "A"))
     = Some (fresh_node "B" "echo" ["A"] [] 3 300)
  /\ exists msg,
       get_execution_order given_order
         (remove_node (WorkflowDAG_init chain_after_failure) "A") = Raise msg.
Proof.
  assert (H1 : consistent (WorkflowDAG_init chain_after_failure)).
  { apply WorkflowDAG_init_consistent. }
  assert (H2 : dict_get "B" (nodes (WorkflowDAG_init chain_after_failure))
               = Some (fresh_node "B" "echo" ["A"] [] 3 300)) by reflexivity.
  split; [exact H1|]. split; [exact H2|].
  apply (remove_node_breaks_plan given_order
           (WorkflowDAG_init chain_after_failure) "A" "B" _ H1 H2).
  - discriminate.
  - simpl. left.
Defined.

Example remove_node_message :
  get_execution_order given_order
    (remove_node (WorkflowDAG_init chain_after_failure) "A")
  = Raise "Unable to find executable nodes - possible circular dependency".
Proof. vm_compute. reflexivity. Qed.


(** [add_dependency] makes no check for cycles: the diamond with D added
    to the dependencies of A no longer passes [validate]. *)
Example add_dependency_cycle :
  match add_dependency (WorkflowDAG_init diamond) "A" "D" with
  | Ret g' => validate g' = false /\ deps_of g' "A" = ["D"]
  | Raise _ => False
  end.
Proof. vm_compute. split; reflexivity. Qed.

(** The diamond after its run, nodes [COMPLETED] with their results. *)
Definition diamond_finished : WorkflowDAG :=
  WorkflowDAG_init (map snd (nodes (dag diamond_final))).

Lemma from_dict_to_dict_witness :
  consistent diamond_finished
  /\ exists g',
       from_dict (to_dict diamond_finished) = Built g'
       /\ nodes g' = map (fun e => (e.1, reset_node e.2)) (nodes diamond_finished)
       /\ to_dict g' = to_dict diamond_finished.
Proof.
  assert (H1 : consistent diamond_finished).
  { apply WorkflowDAG_init_consistent. }
  split; [exact H1|].
  destruct (from_dict_to_dict diamond_finished H1)
    as (g' & Hload & Hnodes & _ & _ & Hdict).
  exists g'. split; [exact Hload|]. split; [exact Hnodes|exact Hdict].
Defined.

Example diamond_finished_reloaded :
  map (fun e => (e.1, status e.2)) (nodes diamond_finished)
  = [("A", COMPLETED); ("B", COMPLETED); ("C", COMPLETED); ("D", COMPLETED)]
  /\ match from_dict (to_dict diamond_finished) with
     | Built g' => map (fun e => (e.1, status e.2, result e.2)) (nodes g')
                   = [("A", PENDING, None); ("B", PENDING, None);
                      ("C", PENDING, None); ("D", PENDING, None)]
     | _ => False
     end.
Proof. vm_compute. split; reflexivity. Qed.

Lemma validated_definition_has_plan_witness :
  validate_dag diamond_definition = Valid
  /\ typed_definition diamond_definition = true
  /\ exists g levels,
       from_dict diamond_definition = Built g
       /\ get_execution_order given_order g = Ret levels.
Proof.
  assert (H1 : validate_dag diamond_definition = Valid).
  { vm_compute. reflexivity. }
  assert (H2 : typed_definition diamond_definition = true).
  { vm_compute. reflexivity. }
  split; [exact H1|]. split; [exact H2|].
  destruct (validated_definition_has_plan given_order diamond_definition H1 H2)
    as (g & Hg & _ & _ & levels & Hl).
  exists g, levels. split; [exact Hg|exact Hl].
Defined.

Lemma output_data_of_run_witness :
  consistent (WorkflowDAG_init diamond)
  /\ _execute_dag fast_world (WorkflowDAG_init diamond) ∅ = (diamond_final, Ret true)
  /\ (forall k n, dict_get k (nodes (dag diamond_final)) = Some n ->
        status n = COMPLETED ->
        output_data (context (exec diamond_final)) !! output_key k = result n)
  /\ (forall k, output_data (context (exec diamond_final)) !! metadata_key k = None).
Proof.
  assert (H1 : consistent (WorkflowDAG_init diamond)).
  { apply WorkflowDAG_init_consistent. }
  assert (H2 : _execute_dag fast_world (WorkflowDAG_init diamond) ∅
               = (diamond_final, Ret true)).
  { vm_compute. reflexivity. }
  split; [exact H1|]. split; [exact H2|].
  destruct (output_data_of_run fast_world (WorkflowDAG_init diamond) ∅
              diamond_final true H1 H2) as (Hout & Hmeta & _).
  split; [|exact Hmeta].
  intros k n Hn Hs. exact (proj2 (Hout k n Hn Hs)).
Defined.

Example update_execution_status_diamond :
  (fun row => (execution_status <$> row,
               (fun e => map fst (map_to_list (execution_output_data e))) <$> row))
    (_update_execution_status (Some (mkWorkflowExecution "running" None ∅))
       "completed"
       (<["node_output" := PInt 1]> (<["node_A_metadata" := PNone]>
          (<["node_A_output" := PInt 2]> (<["input" := PInt 3]> ∅))))
       None)
  = (Some "completed", Some ["node_output"; "node_A_output"]).
Proof. vm_compute. reflexivity. Qed.

Lemma run_result_cases_witness :
  Base.run echo_agent [("q", PInt 1)] ∅ 0 10 false
  = Ret (Base.mkAgentResult true [("echo", PDict [("q", PInt 1)])] None
           (Some 10) (Some 0%Q) None)
  /\ Base.execution_time_ms
       (Base.mkAgentResult true [("echo", PDict [("q", PInt 1)])] None
          (Some 10) (Some 0%Q) None) = Some 10.
Proof.
  assert (H : Base.run echo_agent [("q", PInt 1)] ∅ 0 10 false
              = Ret (Base.mkAgentResult true [("echo", PDict [("q", PInt 1)])]
                       None (Some 10) (Some 0%Q) None)) by reflexivity.
  split; [exact H|].
  exact (proj1 (run_result_cases echo_agent _ ∅ 0%nat 10 false _ H)).
Defined.

Example validate_agent_config_cases :
  validate_agent_config "web_search" (JDict [("max_results", JInt 5)]) = ConfigValid
  /\ validate_agent_config "web_search" (JDict [("max_results", JInt 0)])
     = ConfigInvalid "max_results must be a positive integer"
  /\ validate_agent_config "web_search" (JDict [("max_results", JBool true)])
     = ConfigValid
  /\ validate_agent_config "web_search" (JDict [("timeout", JFloat FNaN)])
     = ConfigValid
  /\ validate_agent_config "text_writing" (JDict [("temperature", JFloat (FFinite 2.5))])
     = ConfigInvalid "temperature must be between 0 and 2"
  /\ validate_agent_config "email_sender" (JDict [("smtp_server", JInt 0)])
     = ConfigValid
  /\ validate_agent_config "data_analysis" (JList []) 
     = ConfigInvalid "Agent config must be a dictionary".
Proof. vm_compute. repeat split. Qed.
End MoreExamples.

(** ** The constructor with repeated ids *)

Section InitLookup.
Import Dag.

Lemma find_snoc {A : Type} (f : A -> bool) (l : list A) (x : A) :
  find f (rev (l ++ [x])) = if f x then Some x else find f (rev l).
Proof. by rewrite rev_unit. Qed.

(** [WorkflowDAG(nodes)] stores under every id the last node of the list
    that has this id, and under the same key in [edges] the dependency
    list of that node: a later node with the same id replaces an earlier
    one. *)
Theorem WorkflowDAG_init_lookup (ns : list DAGNode) (k : string) :
  dict_get k (nodes (WorkflowDAG_init ns))
  = find (fun n => bool_decide (id n = k)) (rev ns)
  /\ dict_get k (edges (WorkflowDAG_init ns))
     = dependencies <$> find (fun n => bool_decide (id n = k)) (rev ns).
Proof.
  unfold WorkflowDAG_init.
  induction ns as [|n ns IH] using rev_ind; [done|].
  rewrite fold_left_app, find_snoc. cbn [fold_left].
  destruct IH as [IHn IHe]. unfold add_node. cbn [nodes edges].
  case_bool_decide as Hk.
  - rewrite Hk, !dict_get_set_eq. done.
  - rewrite !dict_get_set_ne by done. done.
Qed.
End InitLookup.

(** ** What [execute_node] leaves alone *)

Section IsolationProperties.
Import Dag Executor.
Variable w : World.

(** [execute_node] never changes the definition of its node (id, agent,
    configuration, dependencies, conditions, limits) and never lowers
    [retry_count].  Of the context it can change two entries only, the
    output key and the metadata key of the node, and only when it returns
    true for a node that ends [COMPLETED]; a call that returns false
    leaves the node [FAILED]. *)
Theorem execute_node_isolation (node : DAGNode) (st : ExecState) :
  node_frame node (execute_node w node st).1.1
  /\ retry_count node <= retry_count (execute_node w node st).1.1
  /\ (forall key,
        key <> output_key (id node) -> key <> metadata_key (id node) ->
        context (execute_node w node st).1.2 !! key = context st !! key)
  /\ (context (execute_node w node st).1.2 <> context st ->
      (execute_node w node st).2 = Ret true
      /\ status (execute_node w node st).1.1 = COMPLETED)
  /\ ((execute_node w node st).2 = Ret true ->
      status (execute_node w node st).1.1 = COMPLETED
      \/ status (execute_node w node st).1.1 = SKIPPED)
  /\ ((execute_node w node st).2 = Ret false ->
      status (execute_node w node st).1.1 = FAILED).
Proof.
  destruct (execute_node_spec w node st) as (Hf & Hrc & _ & _ & _ & Hout).
  destruct (execute_node w node st) as [[node' st'] r]; simpl in *.
  split; [done|]. split; [done|].
  unfold outcome_spec in Hout. destruct r as [[]|msg].
  - destruct Hout as [(Hs & Hctx & _)|(Hs & d & m & Hctx & _)].
    + rewrite Hctx. split; [done|]. split; [done|]. split; [auto|done].
    + split; [|split; [done|split; [auto|done]]].
      intros key Ho Hm. rewrite Hctx. by rewrite !lookup_insert_ne.
  - destruct Hout as (Hs & Hctx & _). rewrite Hctx.
    split; [done|]. split; [done|]. split; [done|auto].
  - destruct Hout as (_ & Hctx & _). rewrite Hctx.
    split; [done|]. split; [done|]. split; done.
Qed.
End IsolationProperties.

(** ** When [validate_dag] reports a circular dependency *)

Section CircularError.
Import Validators.

Lemma check_nodes_not_circular nodes : forall i ids,
  check_nodes i nodes ids <> inl CircularDependencies.
Proof.
  induction nodes as [|node nodes IH]; intros i ids; simpl; [done|].
  repeat case_match; done.
Qed.

Lemma check_deps_not_circular node_id ids deps :
  check_deps node_id ids deps <> Some CircularDependencies.
Proof.
  induction deps as [|dep deps IH]; simpl; [done|].
  destruct (py_hash dep); [|done].
  destruct (negb _); [done|]. by destruct (py_eq dep node_id).
Qed.

Lemma check_references_not_circular nodes ids :
  check_references nodes ids <> Some CircularDependencies.
Proof.
  induction nodes as [|node nodes IH]; simpl; [done|].
  destruct node; try done.
  destruct (get_dependencies _); try done.
  destruct (check_deps _ _ _) eqn:Hc; [|done].
  intros [= ->]. by apply check_deps_not_circular in Hc.
Qed.

(** The message "DAG contains circular dependencies" is returned exactly
    for the definitions that pass every other check and whose dependency
    graph has a cycle or one of whose dependency lists names a node
    twice. *)
Theorem validate_dag_circular dag_definition :
  validate_dag dag_definition = Invalid CircularDependencies <->
  exists views,
    definition_shape dag_definition views
    /\ NoDup (map fst views)
    /\ (forall v d, v ∈ views -> d ∈ v.2 -> d ∈ map fst views /\ d <> v.1)
    /\ (~ no_cycle (graph_deps views) \/ exists v, v ∈ views /\ ~ NoDup v.2).
Proof.
  assert (Hcases : forall views,
            NoDup (map fst views) ->
            (forall v d, v ∈ views -> d ∈ v.2 -> d ∈ map fst views /\ d <> v.1) ->
            has_cycle views = true <->
            ~ no_cycle (graph_deps views) \/ exists v, v ∈ views /\ ~ NoDup v.2).
  { intros views Hnd Hall.
    assert (Hdecl : forall v d, v ∈ views -> d ∈ v.2 -> d ∈ dict_keys views).
    { intros v d Hv Hd. by apply (Hall v d). }
    destruct (decide (Forall (fun v : hkey * list hkey => NoDup v.2) views))
      as [Hrep|Hrep].
    - rewrite Forall_forall in Hrep.
      pose proof (has_cycle_false views Hnd Hrep Hdecl) as Hfalse.
      destruct (has_cycle views); split; try done.
      + intros _. left. intros Hac. by apply Hfalse in Hac.
      + intros [Hcy|(v & Hv & Hr)].
        * destruct Hcy. by apply Hfalse.
        * destruct Hr. by apply Hrep.
    - apply not_Forall_Exists in Hrep; [|intros v; apply _].
      apply Exists_exists in Hrep as (v & Hv & Hr).
      rewrite (has_cycle_repeated views v Hnd Hv Hr). split; [|done].
      intros _. right. by exists v. }
  unfold validate_dag. split.
  - destruct dag_definition as [| | | | |fields]; try done.
    destruct (dict_get "nodes" fields) as [[| | | |ns|]|] eqn:Hnodes;
      simpl; try done.
    destruct ns as [|node rest] eqn:Hn; [done|]. rewrite <- Hn in Hnodes |- *.
    destruct (check_nodes 0 ns []) as [e|ids] eqn:Hcheck.
    { intros [= ->]. by apply check_nodes_not_circular in Hcheck. }
    apply check_nodes_inr in Hcheck as (ks & -> & Hok & Hnd & _).
    simpl.
    destruct (check_references ns ks) as [e|] eqn:Href.
    { intros [= ->]. by apply check_references_not_circular in Href. }
    apply (check_references_None _ _ _ Hok) in Href
      as (views & <- & Hshape & Hall).
    unfold _has_circular_dependency.
    assert (Hviews : mapM node_view ns = Some views).
    { apply mapM_Some. eapply Forall2_impl; [exact Hshape|].
      intros ? ?. apply node_shape_view. }
    rewrite Hviews. destruct (has_cycle views) eqn:Hcyc; [|done].
    intros _. exists views. split.
    { exists fields, ns. split; [done|]. split; [done|].
      split; [by rewrite Hn|done]. }
    split; [done|]. split; [done|]. by apply Hcases.
  - intros (views & (fields & ns & -> & Hnodes & Hne & Hshape) & Hnd & Hall & Hcyc).
    apply (Hcases views Hnd Hall) in Hcyc.
    rewrite Hnodes. simpl. destruct ns as [|node rest] eqn:Hn; [done|].
    rewrite <- Hn in *.
    assert (Hok : Forall2 node_ok ns (map fst views)).
    { apply Forall2_fmap_r. eapply Forall2_impl; [exact Hshape|].
      intros x v (d & nid & l & -> & ? & ? & ? & ? & ? & ?). exists d, nid. eauto 10. }
    assert (Hcheck : check_nodes 0 ns [] = inr (map fst views)).
    { apply check_nodes_inr. exists (map fst views). split; [done|].
      split; [done|]. split; [done|by intros k _ ?%elem_of_nil]. }
    rewrite Hcheck.
    assert (Href : check_references ns (map fst views) = None).
    { apply (check_references_None _ _ _ Hok). by exists views. }
    rewrite Href. unfold _has_circular_dependency.
    assert (Hviews : mapM node_view ns = Some views).
    { apply mapM_Some. eapply Forall2_impl; [exact Hshape|].
      intros ? ?. apply node_shape_view. }
    by rewrite Hviews, Hcyc.
Qed.
End CircularError.
